(** * Solitaire engine (main.py): move validation, history and undo

    A shallow embedding of the classes [Card], [CardPile] and [Solitaire]
    of [main.py], followed by theorems about the move engine, the
    history/undo stack and the completion detector.

    Conventions of the embedding:
    - a Python [int] is a [Z]; a Python list is a [list], first element
      first, so the top of a pile is the LAST element;
    - Python's negative indexing and slice clamping are written out in
      [py_index] and [py_slice_index];
    - a [CardPile] object owned by the game is named by a [PileRef]; the
      game state holds the contents of every pile, and a method that
      mutates a pile becomes a function returning the new state;
    - a method that can raise returns an [Outcome], which carries the
      state at the moment of the return or of the raise. *)

From Stdlib Require Import ZArith Lia.
From stdpp Require Import base decidable option numbers list strings.

Local Open Scope Z_scope.

(** ** Python list primitives *)

(** Normalisation of a slice bound [i] for a list of length [len]:
    negative bounds count from the end, and everything is clamped to
    [0 .. len]. *)
Definition py_slice_index (len : nat) (i : Z) : nat :=
  if bool_decide (i < 0)
  then Z.to_nat (Z.max 0 (Z.of_nat len + i))
  else Z.to_nat (Z.min i (Z.of_nat len)).

(** [l[i]]: [None] stands for [IndexError]. *)
Definition py_index {A} (l : list A) (i : Z) : option A :=
  if bool_decide (i < 0)
  then (if bool_decide (Z.of_nat (length l) + i < 0) then None
        else l !! Z.to_nat (Z.of_nat (length l) + i))
  else l !! Z.to_nat i.

(** [l.pop()]: the last element and the remaining list; [None] stands for
    [IndexError] on an empty list. *)
Definition py_pop {A} (l : list A) : option (A * list A) :=
  match reverse l with
  | [] => None
  | x :: r => Some (x, reverse r)
  end.

(** ** Cards *)

Inductive Suit := CLUBS | DIAMONDS | HEARTS | SPADES.

#[global] Instance Suit_eq_dec : EqDecision Suit.
Proof. solve_decision. Defined.

Record Card := mkCard { rank : Z; suit : Suit; hidden : bool }.

#[global] Instance Card_eq_dec : EqDecision Card.
Proof. solve_decision. Defined.

(** A freshly constructed card is face down. *)
Definition new_Card (r : Z) (u : Suit) : Card := mkCard r u true.

(** [card.hidden = v] *)
Definition set_hidden (v : bool) (c : Card) : Card :=
  mkCard (rank c) (suit c) v.

(** What never changes in a card: the identity of the card object. *)
Definition card_id (c : Card) : Z * Suit := (rank c, suit c).

Definition is_red (c : Card) : bool :=
  bool_decide (suit c ∈ [HEARTS; DIAMONDS]).

Definition is_black (c : Card) : bool :=
  bool_decide (suit c ∈ [CLUBS; SPADES]).

(** ** Card piles *)

Module CardPile.

(** The [items] list of a [CardPile]. *)
Abbreviation t := (list Card).

(** [__eq__]: the piles hold the same items. [Card] defines no [__eq__],
    so Python compares the items as objects; the model compares their
    values, which is the same test wherever no two card objects of the
    game look alike ([distinct_cards] below). *)
Definition eq (self other : t) : bool := bool_decide (self = other).

Definition add_top (self : t) (item : Card) : t := self ++ [item].

(** Returns the removed card and the remaining pile. *)
Definition remove_top (self : t) : option (Card * t) := py_pop self.

(** [cut_items = items[-number:]; items = items[:-number]]: returns
    [(cut_items, items)]. *)
Definition cut (self : t) (number : Z) : list Card * t :=
  (drop (py_slice_index (length self) (- number)) self,
   take (py_slice_index (length self) (- number)) self).

Definition extend (self : t) (items : list Card) : t := self ++ items.

Definition size (self : t) : Z := Z.of_nat (length self).

Definition is_empty (self : t) : bool := bool_decide (size self = 0).

(** [items[-number]] *)
Definition peek (self : t) (number : Z) : option Card :=
  py_index self (- number).

(** [self.peek().hidden = v]: [None] when [peek] raises. *)
Definition set_top_hidden (self : t) (v : bool) : option t :=
  match peek self 1 with
  | None => None
  | Some _ => Some (alter (set_hidden v) (Nat.pred (length self)) self)
  end.

End CardPile.

(** ** The game state *)

(** The dictionary [foundations]: one pile per suit, in the order of the
    enumeration [Suit]. *)
Record Foundations := mkFoundations {
  f_clubs : CardPile.t;
  f_diamonds : CardPile.t;
  f_hearts : CardPile.t;
  f_spades : CardPile.t
}.

Definition foundation_get (f : Foundations) (u : Suit) : CardPile.t :=
  match u with
  | CLUBS => f_clubs f
  | DIAMONDS => f_diamonds f
  | HEARTS => f_hearts f
  | SPADES => f_spades f
  end.

Definition foundation_set (f : Foundations) (u : Suit) (p : CardPile.t)
  : Foundations :=
  match u with
  | CLUBS => mkFoundations p (f_diamonds f) (f_hearts f) (f_spades f)
  | DIAMONDS => mkFoundations (f_clubs f) p (f_hearts f) (f_spades f)
  | HEARTS => mkFoundations (f_clubs f) (f_diamonds f) p (f_spades f)
  | SPADES => mkFoundations (f_clubs f) (f_diamonds f) (f_hearts f) p
  end.

(** A reference to one of the [CardPile] objects of the game:
    [self.stock], [self.waste], [self.foundations[suit]], [self.piles[i]]. *)
Inductive PileRef :=
| Stock
| Waste
| Foundation (u : Suit)
| Tableau (i : nat).

#[global] Instance PileRef_eq_dec : EqDecision PileRef.
Proof. solve_decision. Defined.

(** An entry of [self.history]: the string ['d'], or the tuple
    [(origin_pile, destination_pile, num_cards, hidden)]. *)
Inductive HistoryEntry :=
| HDraw
| HMove (origin_pile destination_pile : PileRef) (num_cards : Z)
        (was_hidden : bool).

#[global] Instance HistoryEntry_eq_dec : EqDecision HistoryEntry.
Proof. solve_decision. Defined.

(** The attributes of [Solitaire] that the engine reads or writes.
    [num_cards] and [num_piles] are fixed by [max_rank] and by the length
    of [piles]; [move_number] and [game_state] belong to the play loop. *)
Record Solitaire := mkSolitaire {
  stock : CardPile.t;
  waste : CardPile.t;
  foundations : Foundations;
  max_rank : Z;
  piles : list CardPile.t;
  history : list HistoryEntry
}.

Definition num_piles (s : Solitaire) : nat := length (piles s).

(** The contents of the pile a reference names. *)
Definition pile (s : Solitaire) (r : PileRef) : CardPile.t :=
  match r with
  | Stock => stock s
  | Waste => waste s
  | Foundation u => foundation_get (foundations s) u
  | Tableau i => default [] (piles s !! i)
  end.

(** Assignment to the [items] of the pile a reference names. *)
Definition set_pile (s : Solitaire) (r : PileRef) (p : CardPile.t)
  : Solitaire :=
  match r with
  | Stock =>
      mkSolitaire p (waste s) (foundations s) (max_rank s) (piles s)
                  (history s)
  | Waste =>
      mkSolitaire (stock s) p (foundations s) (max_rank s) (piles s)
                  (history s)
  | Foundation u =>
      mkSolitaire (stock s) (waste s) (foundation_set (foundations s) u p)
                  (max_rank s) (piles s) (history s)
  | Tableau i =>
      mkSolitaire (stock s) (waste s) (foundations s) (max_rank s)
                  (<[i := p]> (piles s)) (history s)
  end.

Definition set_history (s : Solitaire) (h : list HistoryEntry) : Solitaire :=
  mkSolitaire (stock s) (waste s) (foundations s) (max_rank s) (piles s) h.

(** [self.history.append(e)] *)
Definition history_append (s : Solitaire) (e : HistoryEntry) : Solitaire :=
  set_history s (history s ++ [e]).

(** A reference names a pile object of this game. *)
Definition valid_ref (s : Solitaire) (r : PileRef) : Prop :=
  match r with
  | Tableau i => (i < num_piles s)%nat
  | _ => True
  end.

#[global] Instance valid_ref_dec s r : Decision (valid_ref s r).
Proof. destruct r; simpl; apply _. Defined.

(** ** Results of method calls *)

Inductive PyValue := PyNone | PyFalse | PyTrue.

Inductive Exn := IndexError.

(** A call returns a value or raises; either way it leaves a state. *)
Inductive Outcome :=
| Return (v : PyValue) (s : Solitaire)
| Raise (e : Exn) (s : Solitaire).

Definition state_of (o : Outcome) : Solitaire :=
  match o with
  | Return _ s => s
  | Raise _ s => s
  end.

Definition raised (o : Outcome) : bool :=
  match o with
  | Return _ _ => false
  | Raise _ _ => true
  end.

(** ** The engine *)

Definition is_valid_move (card1 card2 : Card) : bool :=
  if hidden card1 then false
  else if is_red card1 && is_red card2 then false
  else if is_black card1 && is_black card2 then false
  else if bool_decide (rank card1 ≠ rank card2 - 1) then false
  else true.

(** [draw]: lines 241-247. *)
Definition draw (s : Solitaire) : Outcome :=
  if CardPile.is_empty (stock s) then
    let '(cut_items, rest) := CardPile.cut (waste s) (CardPile.size (waste s)) in
    let s1 := set_pile s Waste rest in
    Return PyNone
           (set_pile s1 Stock (CardPile.extend (stock s1) (reverse cut_items)))
  else
    match CardPile.remove_top (stock s) with
    | None => Raise IndexError s
    | Some (c, rest) =>
        let s1 := set_pile s Stock rest in
        Return PyNone (set_pile s1 Waste (CardPile.add_top (waste s1) c))
    end.

(** The ['d'] command of [process_input], lines 334-337: [self.draw()]
    followed by [self.history.append('d')]. *)
Definition draw_command (s : Solitaire) : Outcome :=
  match draw s with
  | Return _ s1 => Return PyNone (history_append s1 HDraw)
  | Raise e s1 => Raise e s1
  end.

(** [destination_pile.extend(origin_pile.cut(num_cards))]: the cut is
    evaluated, and the origin shortened, before the destination grows. *)
Definition transfer (s : Solitaire) (origin_pile destination_pile : PileRef)
           (num_cards : Z) : Solitaire :=
  let '(cut_items, rest) := CardPile.cut (pile s origin_pile) num_cards in
  let s1 := set_pile s origin_pile rest in
  set_pile s1 destination_pile
           (CardPile.extend (pile s1 destination_pile) cut_items).

(** The tail shared by [move] (lines 263-269) and [move_to_foundation]
    (lines 283-289): push the history entry and reveal the new top card of
    the origin; [v] is the value the method returns. *)
Definition record_move (s : Solitaire) (origin_pile destination_pile : PileRef)
           (num_cards : Z) (v : PyValue) : Outcome :=
  if negb (CardPile.is_empty (pile s origin_pile)) then
    match CardPile.peek (pile s origin_pile) 1 with
    | None => Raise IndexError s
    | Some top =>
        let s1 := history_append s (HMove origin_pile destination_pile
                                          num_cards (hidden top)) in
        match CardPile.set_top_hidden (pile s1 origin_pile) false with
        | None => Raise IndexError s1
        | Some p => Return v (set_pile s1 origin_pile p)
        end
    end
  else
    Return v (history_append s (HMove origin_pile destination_pile
                                      num_cards false)).

(** [move]: lines 249-269. The method returns [None] where it returns
    without a value and where it runs to its end. *)
Definition move (s : Solitaire) (origin_pile destination_pile : PileRef)
           (num_cards : Z) : Outcome :=
  if bool_decide (CardPile.size (pile s origin_pile) < num_cards) then
    Return PyNone s
  else if CardPile.eq (pile s origin_pile) (pile s destination_pile) then
    Return PyNone s
  else
    match (if CardPile.is_empty (pile s destination_pile)
           then (λ c, bool_decide (rank c = max_rank s))
                  <$> CardPile.peek (pile s origin_pile) num_cards
           else Some false) with
    | None => Raise IndexError s
    | Some true =>
        record_move (transfer s origin_pile destination_pile num_cards)
                    origin_pile destination_pile num_cards PyNone
    | Some false =>
        match CardPile.peek (pile s origin_pile) num_cards,
              CardPile.peek (pile s destination_pile) 1 with
        | Some card1, Some card2 =>
            if is_valid_move card1 card2 then
              record_move (transfer s origin_pile destination_pile num_cards)
                          origin_pile destination_pile num_cards PyNone
            else Return PyFalse s
        | _, _ => Raise IndexError s
        end
    end.

(** [self.foundations[suit].add_top(pile.remove_top())] *)
Definition to_foundation (s : Solitaire) (p : PileRef) (u : Suit) : Outcome :=
  match CardPile.remove_top (pile s p) with
  | None => Raise IndexError s
  | Some (c, rest) =>
      let s1 := set_pile s p rest in
      record_move
        (set_pile s1 (Foundation u)
                  (CardPile.add_top (pile s1 (Foundation u)) c))
        p (Foundation u) 1 PyTrue
  end.

(** [move_to_foundation]: lines 271-289. *)
Definition move_to_foundation (s : Solitaire) (p : PileRef) : Outcome :=
  if CardPile.is_empty (pile s p) then Return PyNone s
  else
    match CardPile.peek (pile s p) 1 with
    | None => Raise IndexError s
    | Some top =>
        let u := suit top in
        if CardPile.is_empty (pile s (Foundation u))
           && bool_decide (rank top = 1)
        then to_foundation s p u
        else
          match (if negb (CardPile.is_empty (pile s (Foundation u)))
                 then (λ c, bool_decide (rank c = rank top - 1))
                        <$> CardPile.peek (pile s (Foundation u)) 1
                 else Some false) with
          | None => Raise IndexError s
          | Some true => to_foundation s p u
          | Some false => Return PyFalse s
          end
    end.

(** [undo]: lines 291-305. *)
Definition undo (s : Solitaire) : Outcome :=
  match py_pop (history s) with
  | None => Return PyNone s
  | Some (last_move, h) =>
      let s0 := set_history s h in
      match last_move with
      | HDraw =>
          if CardPile.is_empty (waste s0) then
            let '(cut_items, rest) :=
              CardPile.cut (stock s0) (CardPile.size (stock s0)) in
            let s1 := set_pile s0 Stock rest in
            Return PyNone
                   (set_pile s1 Waste
                             (CardPile.extend (waste s1) (reverse cut_items)))
          else
            match CardPile.remove_top (waste s0) with
            | None => Raise IndexError s0
            | Some (c, rest) =>
                let s1 := set_pile s0 Waste rest in
                Return PyNone
                       (set_pile s1 Stock (CardPile.add_top (stock s1) c))
            end
      | HMove origin_pile destination_pile num_cards was_hidden =>
          match (if was_hidden
                 then CardPile.set_top_hidden (pile s0 origin_pile) true
                 else Some (pile s0 origin_pile)) with
          | None => Raise IndexError s0
          | Some p =>
              Return PyNone
                     (transfer (set_pile s0 origin_pile p)
                               destination_pile origin_pile num_cards)
          end
      end
  end.

(** [is_complete]: lines 307-320. *)
Definition is_complete (s : Solitaire) : bool :=
  if negb (CardPile.is_empty (stock s)) then false
  else if negb (CardPile.is_empty (waste s)) then false
  else
    let hidden_cards := concat (filter (λ x, hidden x = true) <$> piles s) in
    if bool_decide (hidden_cards ≠ []) then false else true.

(** ** Dealing: [Solitaire.__init__] *)

Definition all_suits : list Suit := [CLUBS; DIAMONDS; HEARTS; SPADES].

(** [[Card(rank, suit) for suit in Suit for rank in range(1, max_rank + 1)]] *)
Definition new_deck (max_rank : Z) : list Card :=
  u ← all_suits; (λ r, new_Card r u) <$> seqZ 1 max_rank.

(** [for _ in range(count): pile.add_top(deck.pop())]: [None] when the deck
    runs out. *)
Fixpoint deal_pile (count : nat) (p : CardPile.t) (deck : list Card)
  : option (CardPile.t * list Card) :=
  match count with
  | O => Some (p, deck)
  | S count =>
      match py_pop deck with
      | None => None
      | Some (c, deck) => deal_pile count (CardPile.add_top p c) deck
      end
  end.

(** The staircase loop of lines 116-119 over the column numbers [cols]. *)
Fixpoint deal (cols : list nat) (deck : list Card)
  : option (list CardPile.t * list Card) :=
  match cols with
  | [] => Some ([], deck)
  | col :: cols =>
      match deal_pile (S col) [] deck with
      | None => None
      | Some (p, deck) =>
          match CardPile.set_top_hidden p false with
          | None => None
          | Some p =>
              match deal cols deck with
              | None => None
              | Some (ps, deck) => Some (p :: ps, deck)
              end
          end
      end
  end.

Definition empty_foundations : Foundations := mkFoundations [] [] [] [].

(** [__init__], given the deck as [random.shuffle] left it. [None] stands
    for an exception ([math.sqrt] of a negative number, [pop] from an
    empty deck). The square root of [num_cards] is taken on integers. *)
Definition init (max_rank : Z) (shuffled : list Card) : option Solitaire :=
  let num_cards := 4 * max_rank in
  if bool_decide (num_cards < 0) then None
  else
    let num_piles := Z.to_nat (Z.sqrt num_cards) in
    match deal (seq 0 num_piles) shuffled with
    | None => None
    | Some (piles, deck) =>
        Some (mkSolitaire (set_hidden false <$> deck) [] empty_foundations
                          max_rank piles [])
    end.

(** ** Sequences of operations *)

Inductive Op :=
| OMove (origin_pile destination_pile : PileRef) (num_cards : Z)
| OMoveToFoundation (p : PileRef)
| ODraw
| ODrawCommand
| OUndo.

Definition step (s : Solitaire) (op : Op) : Outcome :=
  match op with
  | OMove o d n => move s o d n
  | OMoveToFoundation p => move_to_foundation s p
  | ODraw => draw s
  | ODrawCommand => draw_command s
  | OUndo => undo s
  end.

(** The caller goes on after an exception, as [play] does (lines 381-384). *)
Definition run (s : Solitaire) (ops : list Op) : Solitaire :=
  foldl (λ s op, state_of (step s op)) s ops.

Definition valid_op (s : Solitaire) (op : Op) : Prop :=
  match op with
  | OMove o d _ => valid_ref s o ∧ valid_ref s d
  | OMoveToFoundation p => valid_ref s p
  | _ => True
  end.

(** Every card of the game, pile after pile. *)
Definition all_cards (s : Solitaire) : list Card :=
  stock s ++ waste s
  ++ f_clubs (foundations s) ++ f_diamonds (foundations s)
  ++ f_hearts (foundations s) ++ f_spades (foundations s)
  ++ concat (piles s).

(** In a game every card object is in one place only. *)
Definition distinct_cards (s : Solitaire) : Prop :=
  NoDup (card_id <$> all_cards s).

(** ** Auxiliary notions of the proofs *)

(** The origin after its new top card has been turned face up. *)
Definition reveal (p : CardPile.t) : CardPile.t :=
  match py_pop p with
  | None => []
  | Some (top, rest) => rest ++ [set_hidden false top]
  end.

(** The flag the history entry records. *)
Definition top_hidden (p : CardPile.t) : bool :=
  match py_pop p with
  | None => false
  | Some (top, _) => hidden top
  end.

(** A call is accepted when it returns and has pushed one history entry;
    this is what [play] counts as a move (lines 385-387). *)
Definition accepts (s : Solitaire) (out : Outcome) : bool :=
  negb (raised out)
  && bool_decide (length (history (state_of out)) = S (length (history s))).

(** [k] draw commands in a row. *)
Definition draws (k : nat) (s : Solitaire) : Solitaire :=
  Nat.iter k (λ s, state_of (draw_command s)) s.

(** Every card of the pile is face up. *)
Definition face_up (p : CardPile.t) : Prop :=
  Forall (λ c, hidden c = false) p.

(** The cards of a state as objects, whatever side is up. *)
Definition card_ids (s : Solitaire) : list (Z * Suit) :=
  card_id <$> all_cards s.

(** Taking [q] off a pile and putting it on top of a pile. *)
Definition relocate (s : Solitaire) (r1 r2 : PileRef)
           (rest q : CardPile.t) : Solitaire :=
  let s1 := set_pile s r1 rest in
  set_pile s1 r2 (pile s1 r2 ++ q).

(** A history entry names piles of the game. *)
Definition valid_entry (s : Solitaire) (e : HistoryEntry) : Prop :=
  match e with
  | HDraw => True
  | HMove o d _ _ => valid_ref s o ∧ valid_ref s d
  end.

(** What every operation keeps of the state [s0] of a fresh deal: the
    number of tableau piles, the cards, and history entries that name
    piles of the game. *)
Definition keeps (s0 s : Solitaire) : Prop :=
  num_piles s = num_piles s0
  ∧ card_ids s ≡ₚ card_ids s0
  ∧ Forall (valid_entry s0) (history s).

(** The staircase over the columns [a, a+1, ...] needs this many cards. *)
Fixpoint staircase (cols : list nat) : nat :=
  match cols with
  | [] => 0
  | col :: cols => S col + staircase cols
  end.

(** ** A concrete game *)

(** The six piles a game is to start with, bottom card first: the ace of
    clubs alone; the king of spades under the two of hearts; a five, the
    king of clubs, the queen of diamonds and the jack of spades on top of
    the next four. *)
Definition dealt_first : list (list Card) :=
  [[new_Card 1 CLUBS];
   [new_Card 13 SPADES; new_Card 2 HEARTS];
   [new_Card 9 CLUBS; new_Card 4 CLUBS; new_Card 5 DIAMONDS];
   [new_Card 3 DIAMONDS; new_Card 8 CLUBS; new_Card 7 DIAMONDS;
    new_Card 13 CLUBS];
   [new_Card 10 HEARTS; new_Card 6 CLUBS; new_Card 9 DIAMONDS;
    new_Card 3 CLUBS; new_Card 12 DIAMONDS];
   [new_Card 8 DIAMONDS; new_Card 2 SPADES; new_Card 7 CLUBS;
    new_Card 4 HEARTS; new_Card 6 DIAMONDS; new_Card 11 SPADES]].

(** A shuffle of the 52 cards that deals them: [__init__] pops the cards
    from the end of the deck. *)
Definition deck1 : list Card :=
  filter (λ c, c ∉ concat dealt_first) (new_deck 13)
  ++ reverse (concat dealt_first).

(** The value of [fresh] had the deal raised (it does not). *)
Definition no_game : Solitaire := mkSolitaire [] [] empty_foundations 0 [] [].

(** The game dealt from [deck1]. *)
Definition fresh : Solitaire := default no_game (init 13 deck1).

(** The game after the ace of clubs has gone from pile 1 to its
    foundation: pile 1 is empty. *)
Definition fresh_ace_away : Solitaire :=
  state_of (move_to_foundation fresh (Tableau 0)).

(** The game after the jack of spades has gone from pile 6 onto the queen
    of diamonds on pile 5. *)
Definition fresh_run : Solitaire :=
  state_of (move fresh (Tableau 5) (Tableau 4) 1).

(** ** The operations of a player *)

(** The calls [process_input] makes on the engine (lines 334-369), the
    number of the [m] command being 1 or more: a move between two tableau
    piles, a move of one card from a foundation or from the waste to a
    tableau pile, a move to the foundation from the waste or from a tableau
    pile, the draw command and [undo]. *)
Definition user_op (s : Solitaire) (op : Op) : Prop :=
  match op with
  | OMove (Tableau i) (Tableau j) n =>
      (i < num_piles s)%nat ∧ (j < num_piles s)%nat ∧ 1 ≤ n
  | OMove (Foundation _) (Tableau j) n => (j < num_piles s)%nat ∧ n = 1
  | OMove Waste (Tableau j) n => (j < num_piles s)%nat ∧ n = 1
  | OMoveToFoundation Waste => True
  | OMoveToFoundation (Tableau i) => (i < num_piles s)%nat
  | ODrawCommand => True
  | OUndo => True
  | _ => False
  end.

#[global] Instance Op_eq_dec : EqDecision Op.
Proof. solve_decision. Defined.

(** The states a game reaches from [s0] by accepted operations of the
    player, [undo] left out. *)
Inductive played (s0 : Solitaire) : Solitaire → Prop :=
| played_start : played s0 s0
| played_step s op :
    played s0 s → user_op s op → op ≠ OUndo →
    accepts s (step s op) = true →
    played s0 (state_of (step s op)).

(** ** The order of a game in play *)

(** A run: each card lies on the card below it by the rule of
    [is_valid_move] (face up, other colour, one rank less). *)
Fixpoint chain (l : list Card) : Prop :=
  match l with
  | c :: (c' :: _) as rest => is_valid_move c' c = true ∧ chain rest
  | _ => True
  end.

Definition face_down (p : CardPile.t) : Prop :=
  Forall (λ c, hidden c = true) p.

(** A tableau pile in order: face-down cards, then a face-up run on top
    of them; a pile that holds a card has a face-up top card. *)
Definition pile_ok (p : CardPile.t) : Prop :=
  ∃ down run, p = down ++ run ∧ face_down down ∧ face_up run ∧ chain run
              ∧ (p ≠ [] → run ≠ []).

(** A foundation in order: from the bottom, the ranks 1, 2, 3, ... of its
    suit, face up. *)
Definition foundation_ok (u : Suit) (f : CardPile.t) : Prop :=
  f = (λ r, mkCard r u false) <$> seqZ 1 (Z.of_nat (length f)).

Definition ok_for (r : PileRef) (p : CardPile.t) : Prop :=
  match r with
  | Stock | Waste => face_up p
  | Foundation u => foundation_ok u p
  | Tableau _ => pile_ok p
  end.

(** Every pile of the game is in order. *)
Definition tidy (s : Solitaire) : Prop := ∀ r, ok_for r (pile s r).

(** ** The layout of a deal *)

(** The number of cards in the first [i] piles of the staircase. *)
Definition triangle (i : nat) : nat := (i * (i + 1)) `div` 2.

(** Pile number [i] (from 0) of the deal of a deck: [i + 1] cards from the
    end of the deck, after those of the piles before it, the last one
    turned face up. *)
Definition dealt_pile (shuffled : list Card) (i : nat) : CardPile.t :=
  reveal (take (S i) (drop (triangle i) (reverse shuffled))).

(** ** The end of a won game: [play], lines 394-401 *)

(** [for pile in reversed(self.piles): if self.move_to_foundation(pile):
    ...]: one call per tableau pile, from the last pile to the first. *)
Definition finalize_pass (s : Solitaire) : Solitaire :=
  foldl (λ s i, state_of (move_to_foundation s (Tableau i))) s
        (reverse (seq 0 (num_piles s))).

(** [while list(filter(lambda pile: not pile.is_empty(), self.piles))]:
    passes as long as a tableau pile holds a card; [None] when [fuel]
    passes were not enough. *)
Fixpoint finalize (fuel : nat) (s : Solitaire) : option Solitaire :=
  match fuel with
  | O => None
  | S fuel =>
      if bool_decide
           (filter (λ p, CardPile.is_empty p = false) (piles s) ≠ [])
      then finalize fuel (finalize_pass s)
      else Some s
  end.

(** The number of cards on the foundations. *)
Definition on_foundations (s : Solitaire) : nat :=
  length (f_clubs (foundations s)) + length (f_diamonds (foundations s))
  + length (f_hearts (foundations s)) + length (f_spades (foundations s)).

(** A game that is complete, with its piles in order and the cards of the
    deck of top rank [m]: the state in which [play] starts to clear the
    tableau. *)
Definition won (m : Z) (s : Solitaire) : Prop :=
  tidy s ∧ stock s = [] ∧ waste s = []
  ∧ (∀ i, face_up (pile s (Tableau i)))
  ∧ card_ids s ≡ₚ card_id <$> new_deck m.

(** ** A small game *)

(** The game of the four aces ([max_rank = 1]), dealt from the deck in
    the order [__init__] builds it, and the four operations that
    complete it. *)
Definition aces : Solitaire := default no_game (init 1 (new_deck 1)).

Definition aces_ops : list Op :=
  [OMoveToFoundation (Tableau 0); ODrawCommand; OMoveToFoundation Waste;
   OMoveToFoundation (Tableau 1)].

(** ** The tableau on the screen: [formatted] and [display] *)

(** [CardPile.formatted] (lines 90-94). An item of the result is a card
    or the empty string, here [None]; [[''] * k] is the empty list for
    [k ≤ 0]. *)
Definition formatted (self : CardPile.t) (padding : Z) : list (option Card) :=
  if bool_decide (CardPile.size self = 0)
  then replicate (Z.to_nat padding) None
  else (Some <$> self)
       ++ replicate (Z.to_nat (padding - CardPile.size self)) None.

(** [max] of a sequence; [None] stands for the [ValueError] on an empty
    one. *)
Definition py_max (l : list Z) : option Z :=
  match l with
  | [] => None
  | x :: l => Some (foldl Z.max x l)
  end.

(** [zip] of the lists unpacked: the tuples of the items at the same position, as far as
    the shortest list goes; no list, no tuple. *)
Fixpoint py_zip {A} (lists : list (list A)) : list (list A) :=
  match lists with
  | [] => []
  | [l] => (λ x, [x]) <$> l
  | l :: lists => zip_with cons l (py_zip lists)
  end.

(** The rows [display] prints under the headings of the piles (lines
    219-227): [columns] of the source. [None] stands for the [ValueError]
    of [max] in a game without tableau piles. *)
Definition tableau_rows (s : Solitaire) : option (list (list (option Card))) :=
  longest_pile_length ← py_max (CardPile.size <$> piles s);
  Some (py_zip ((λ column, formatted column longest_pile_length) <$> piles s)).

(** ** Commands: [process_input] and [play] *)

Inductive GameState := DEFAULT | WIN | RESET | QUIT.

#[global] Instance GameState_eq_dec : EqDecision GameState.
Proof. solve_decision. Defined.

(** A [Solitaire] object in play: the state the engine works on, and the
    two attributes only [process_input] and [play] write. *)
Record Session := mkSession {
  game : Solitaire;
  move_number : Z;
  game_state : GameState
}.

(** The attributes as [__init__] sets them (lines 108-110). *)
Definition new_session (s : Solitaire) : Session := mkSession s 1 DEFAULT.

Definition set_game (g : Session) (s : Solitaire) : Session :=
  mkSession s (move_number g) (game_state g).

Definition set_game_state (g : Session) (v : GameState) : Session :=
  mkSession (game g) (move_number g) v.

(** What a call can raise while commands are read: an exception of the
    engine or of a list index, [ValueError], and the [EOFError] of
    [input] at the end of the input. *)
Inductive InputExn :=
| EngineExn (e : Exn)
| ValueError
| EOFError.

(** A call returns or raises; either way it leaves the session and the
    lines of input not read yet. *)
Inductive Reply (A : Type) :=
| Done (v : A) (g : Session) (rest : list string)
| Fail (e : InputExn) (g : Session) (rest : list string).

Arguments Done {A} v g rest.
Arguments Fail {A} e g rest.

Definition session_of {A} (r : Reply A) : Session :=
  match r with
  | Done _ g _ => g
  | Fail _ g _ => g
  end.

Definition rest_of {A} (r : Reply A) : list string :=
  match r with
  | Done _ _ rest => rest
  | Fail _ _ rest => rest
  end.

(** The methods of [str] the commands are read with:
    [t.strip().lower()], [int(t)] with [None] for its [ValueError], and
    [t.isdigit()]. Nothing is assumed of them. *)
Class PyStr := {
  strip_lower : string → string;
  py_int : string → option Z;
  isdigit : string → bool
}.

(** [t[1:]] *)
Definition py_tail (t : string) : string :=
  match t with
  | EmptyString => EmptyString
  | String _ t => t
  end.

(** [1 <= v <= self.num_piles] *)
Definition in_range (s : Solitaire) (v : Z) : bool :=
  bool_decide (1 ≤ v ≤ Z.of_nat (num_piles s)).

(** [self.piles[v - 1]], for [v] in range. *)
Definition tableau (v : Z) : PileRef := Tableau (Z.to_nat (v - 1)).

(** A call on the engine made by [process_input], which passes on what
    the engine raises. *)
Definition engine (g : Session) (rest : list string) (out : Outcome)
  : Reply unit :=
  match out with
  | Return _ s => Done () (set_game g s) rest
  | Raise e s => Fail (EngineExn e) (set_game g s) rest
  end.

Section commands.
Context `{!PyStr}.

(** Lines 367-371: a move between two tableau piles, or [ValueError]. *)
Definition between_piles (g : Session) (rest : list string)
           (pile1 pile2 : string) : Reply unit :=
  match py_int pile1 with
  | None => Fail ValueError g rest
  | Some v1 =>
      if in_range (game g) v1 then
        match py_int pile2 with
        | None => Fail ValueError g rest
        | Some v2 =>
            if in_range (game g) v2
            then engine g rest (move (game g) (tableau v1) (tableau v2) 1)
            else Fail ValueError g rest
        end
      else Fail ValueError g rest
  end.

(** Lines 365-366: a tableau pile to the foundation. *)
Definition pile_to_foundation (g : Session) (rest : list string)
           (pile1 pile2 : string) : Reply unit :=
  if bool_decide (pile2 = "f") then
    match py_int pile1 with
    | None => Fail ValueError g rest
    | Some v1 =>
        if in_range (game g) v1
        then engine g rest (move_to_foundation (game g) (tableau v1))
        else between_piles g rest pile1 pile2
    end
  else between_piles g rest pile1 pile2.

(** Lines 361-364: the waste to the foundation or to a tableau pile. *)
Definition from_waste (g : Session) (rest : list string)
           (pile1 pile2 : string) : Reply unit :=
  if bool_decide (pile1 = "w") && bool_decide (pile2 = "f")
  then engine g rest (move_to_foundation (game g) Waste)
  else if bool_decide (pile1 = "w") then
    match py_int pile2 with
    | None => Fail ValueError g rest
    | Some v2 =>
        if in_range (game g) v2
        then engine g rest (move (game g) Waste (tableau v2) 1)
        else pile_to_foundation g rest pile1 pile2
    end
  else pile_to_foundation g rest pile1 pile2.

(** Lines 354-360: a foundation to a tableau pile. The suit is looked up
    in [list(self.foundations)] before the number of the foundation is
    checked. *)
Definition from_foundation (g : Session) (rest : list string)
           (pile1 pile2 : string) : Reply unit :=
  if String.prefix "f" pile1 then
    match py_int pile2 with
    | None => Fail ValueError g rest
    | Some v2 =>
        if in_range (game g) v2 then
          match py_int (py_tail pile1) with
          | None => Fail ValueError g rest
          | Some foundation_num =>
              match py_index all_suits (foundation_num - 1) with
              | None => Fail (EngineExn IndexError) g rest
              | Some suit =>
                  if bool_decide (1 ≤ foundation_num ≤ 4)
                  then engine g rest
                         (move (game g) (Foundation suit) (tableau v2) 1)
                  else Fail ValueError g rest
              end
          end
        else from_waste g rest pile1 pile2
    end
  else from_waste g rest pile1 pile2.

(** Lines 339-346: the [m] command, which reads two more lines. Piles out
    of range make it return without a call. *)
Definition move_command (g : Session) (rest : list string) (pile1 : string)
  : Reply unit :=
  match py_int (py_tail pile1) with
  | None => Fail ValueError g rest
  | Some num_cards =>
      match rest with
      | [] => Fail EOFError g []
      | line1 :: rest =>
          match py_int line1 with
          | None => Fail ValueError g rest
          | Some v1 =>
              match rest with
              | [] => Fail EOFError g []
              | line2 :: rest =>
                  match py_int line2 with
                  | None => Fail ValueError g rest
                  | Some v2 =>
                      if in_range (game g) v1 && in_range (game g) v2
                      then engine g rest
                             (move (game g) (tableau v1) (tableau v2)
                                   num_cards)
                      else Done () g rest
                  end
              end
          end
      end
  end.

(** [process_input] (lines 322-371) on the lines [input] will return, the
    next one first. [display_instructions] reads a line of its own. *)
Definition process_input (g : Session) (lines : list string) : Reply unit :=
  match lines with
  | [] => Fail EOFError g []
  | line :: rest =>
      let pile1 := strip_lower line in
      if bool_decide (pile1 = "reset") then Done () (set_game_state g RESET) rest
      else if bool_decide (pile1 = "quit")
      then Done () (set_game_state g QUIT) rest
      else if String.prefix "i" pile1 then
        match rest with
        | [] => Fail EOFError g []
        | _ :: rest => Fail ValueError g rest
        end
      else if bool_decide (pile1 = "d")
      then engine g rest (draw_command (game g))
      else if bool_decide (pile1 = "u") || bool_decide (pile1 = "z")
      then engine g rest (undo (game g))
      else if String.prefix "m" pile1 then move_command g rest pile1
      else if negb (String.prefix "f" pile1) && negb (isdigit pile1)
              && negb (bool_decide (pile1 = "w"))
      then Fail ValueError g rest
      else
        match rest with
        | [] => Fail EOFError g []
        | line2 :: rest =>
            let pile2 := strip_lower line2 in
            if negb (isdigit pile2) && negb (bool_decide (pile2 = "f"))
            then Fail ValueError g rest
            else from_foundation g rest pile1 pile2
        end
  end.

(** Lines 385-387: the round counts when the length of the history has
    changed. *)
Definition count_move (num_moves : nat) (g : Session) : Session :=
  if bool_decide (length (history (game g)) ≠ num_moves)
  then mkSession (game g) (move_number g + 1) (game_state g)
  else g.

(** One turn of the loop of [play] (lines 376-387): the display, which
    raises in a game without tableau piles, then a command; [ValueError]
    and [IndexError] are caught, [EOFError] is not. *)
Definition play_round (g : Session) (lines : list string) : Reply unit :=
  let num_moves := length (history (game g)) in
  match tableau_rows (game g) with
  | None => Fail ValueError g lines
  | Some _ =>
      match process_input g lines with
      | Done _ g' rest => Done () (count_move num_moves g') rest
      | Fail EOFError g' rest => Fail EOFError g' rest
      | Fail _ g' rest => Done () (count_move num_moves g') rest
      end
  end.

(** The first loop of [play] (lines 375-387); [None] when [fuel] rounds
    were not enough. *)
Fixpoint play_loop (fuel : nat) (g : Session) (lines : list string)
  : option (Reply unit) :=
  match fuel with
  | O => None
  | S fuel =>
      if negb (is_complete (game g)) && bool_decide (game_state g = DEFAULT)
      then
        match play_round g lines with
        | Done _ g' rest => play_loop fuel g' rest
        | Fail e g' rest => Some (Fail e g' rest)
        end
      else Some (Done () g lines)
  end.

(** [play] (lines 373-401): the rounds, then the state of a game left by
    [reset] or [quit], or the tableau of a won game cleared and [WIN].
    [fuel] bounds the rounds, and the passes over the tableau. *)
Definition play (fuel : nat) (g : Session) (lines : list string)
  : option (Reply GameState) :=
  match play_loop fuel g lines with
  | None => None
  | Some (Fail e g' rest) => Some (Fail e g' rest)
  | Some (Done _ g' rest) =>
      if bool_decide (game_state g' ≠ DEFAULT)
      then Some (Done (game_state g') g' rest)
      else
        s' ← finalize fuel (game g');
        Some (Done WIN (set_game g' s') rest)
  end.

End commands.

(** The calls the commands can make on the engine: those of [user_op],
    the number of the [m] command being any integer. *)
Definition typed_op (s : Solitaire) (op : Op) : Prop :=
  match op with
  | OMove (Tableau i) (Tableau j) _ =>
      (i < num_piles s)%nat ∧ (j < num_piles s)%nat
  | _ => user_op s op
  end.

(** What a call of [process_input] on the session [g] comes to, [rest]
    being the lines it leaves unread: the state of the game set by [reset]
    or [quit]; a return or an exception before any call on the engine; or
    one call on the engine, an operation that [ok] holds of. [EOFError] is
    raised at the end of the input only. *)
Inductive command (ok : Op → Prop) (g : Session) (rest : list string)
  : Reply unit → Prop :=
| command_state v :
    v = RESET ∨ v = QUIT →
    command ok g rest (Done () (set_game_state g v) rest)
| command_none : command ok g rest (Done () g rest)
| command_fail e :
    (e = EOFError → rest = []) → command ok g rest (Fail e g rest)
| command_call op :
    ok op → command ok g rest (engine g rest (step (game g) op)).

(** A line that is no [m] command with a number below 1. *)
Definition positive_count `{!PyStr} (line : string) : Prop :=
  String.prefix "m" (strip_lower line) = true →
  ∀ v, py_int (py_tail (strip_lower line)) = Some v → 1 ≤ v.

(** *** A reader for plain lines

    The three methods on lines of ASCII letters, decimal digits, signs
    and blanks, where they are what Python computes. *)

Definition is_space (a : Ascii.ascii) : bool :=
  let n := Ascii.nat_of_ascii a in
  bool_decide (n = 32 ∨ 9 ≤ n ≤ 13)%nat.

Fixpoint lstrip (t : string) : string :=
  match t with
  | EmptyString => EmptyString
  | String a r => if is_space a then lstrip r else t
  end.

Definition strip (t : string) : string :=
  String.rev (lstrip (String.rev (lstrip t))).

Definition lower_char (a : Ascii.ascii) : Ascii.ascii :=
  let n := Ascii.nat_of_ascii a in
  if bool_decide (65 ≤ n ≤ 90)%nat then Ascii.ascii_of_nat (n + 32) else a.

Fixpoint lower (t : string) : string :=
  match t with
  | EmptyString => EmptyString
  | String a r => String (lower_char a) (lower r)
  end.

Definition digit (a : Ascii.ascii) : option Z :=
  let n := Ascii.nat_of_ascii a in
  if bool_decide (48 ≤ n ≤ 57)%nat then Some (Z.of_nat (n - 48)) else None.

Fixpoint digits (acc : Z) (t : string) : option Z :=
  match t with
  | EmptyString => Some acc
  | String a r => d ← digit a; digits (10 * acc + d) r
  end.

Definition number (t : string) : option Z :=
  match t with
  | EmptyString => None
  | _ => digits 0 t
  end.

Definition plain_int (t : string) : option Z :=
  match strip t with
  | EmptyString => None
  | String a r =>
      if bool_decide (Ascii.nat_of_ascii a = 45%nat) then Z.opp <$> number r
      else if bool_decide (Ascii.nat_of_ascii a = 43%nat) then number r
      else number (String a r)
  end.

Definition plain_str : PyStr := {|
  strip_lower t := lower (strip t);
  py_int := plain_int;
  isdigit t := bool_decide (is_Some (number t))
|}.

(** The lines that win the game of the four aces: pile 1 to the
    foundation, a draw, the waste to the foundation, pile 2 to the
    foundation. *)
Definition aces_lines : list string := ["1"; "f"; "d"; "w"; "f"; "2"; "f"].

(** ** A game that brings a face-down card to the stock *)

(** In the game dealt from [deck1]: the ace of clubs to its foundation,
    five draws, the queen of hearts from the waste onto the king of clubs
    of pile 4, a move of "-3 cards" from pile 4 to pile 1, and three
    undos. The last line draws once more. *)
Definition hidden_draw_ops : list Op :=
  [OMoveToFoundation (Tableau 0);
   ODrawCommand; ODrawCommand; ODrawCommand; ODrawCommand; ODrawCommand;
   OMove Waste (Tableau 3) 1;
   OMove (Tableau 3) (Tableau 0) (-3);
   OUndo; OUndo; OUndo].

Definition hidden_draw_lines : list string :=
  ["1"; "f"; "d"; "d"; "d"; "d"; "d"; "w"; "4"; "m-3"; "4"; "1";
   "u"; "u"; "u"; "d"].

(** * Properties *)

(** ** Python list primitives *)

Section py_lists.
Context {A : Type}.
Implicit Types l r : list A.

Lemma snoc_cases l : l = [] ∨ ∃ r x, l = r ++ [x].
Proof. induction l using rev_ind; eauto. Qed.

Lemma py_pop_nil : py_pop (@nil A) = None.
Proof. reflexivity. Qed.

Lemma py_pop_snoc r x : py_pop (r ++ [x]) = Some (x, r).
Proof.
  unfold py_pop. rewrite reverse_snoc. by rewrite reverse_involutive.
Qed.

Lemma py_pop_Some l x r : py_pop l = Some (x, r) ↔ l = r ++ [x].
Proof.
  split; [|intros ->; apply py_pop_snoc].
  destruct (snoc_cases l) as [->|(r' & x' & ->)]; [done|].
  rewrite py_pop_snoc. by intros [= -> ->].
Qed.

Lemma py_pop_None l : py_pop l = None ↔ l = [].
Proof.
  split; [|by intros ->].
  destruct (snoc_cases l) as [->|(r' & x' & ->)]; [done|].
  by rewrite py_pop_snoc.
Qed.

(** A slice bound splits the list in two. *)
Lemma py_slice_index_le len i : (py_slice_index len i ≤ len)%nat.
Proof. unfold py_slice_index. case_bool_decide; lia. Qed.

(** [l[-n:]] and [l[:-n]] for [1 <= n <= len(l)]. *)
Lemma py_slice_index_neg len n :
  1 ≤ n ≤ Z.of_nat len →
  py_slice_index len (- n) = (len - Z.to_nat n)%nat.
Proof. intros. unfold py_slice_index. rewrite bool_decide_true; lia. Qed.

(** [l[-n:]] and [l[:-n]] for [n > len(l)]: the bound is clamped. *)
Lemma py_slice_index_clamp len n :
  Z.of_nat len < n → py_slice_index len (- n) = 0%nat.
Proof. intros. unfold py_slice_index. rewrite bool_decide_true; lia. Qed.

(** [l[-0:]] is [l[0:]]. *)
Lemma py_slice_index_zero len : py_slice_index len (- 0) = 0%nat.
Proof. unfold py_slice_index. case_bool_decide; lia. Qed.

Lemma py_index_neg l n :
  1 ≤ n ≤ Z.of_nat (length l) →
  py_index l (- n) = l !! (length l - Z.to_nat n)%nat.
Proof.
  intros. unfold py_index.
  rewrite bool_decide_true, bool_decide_false by lia. f_equal. lia.
Qed.

Lemma py_index_out l n :
  Z.of_nat (length l) < n → py_index l (- n) = None.
Proof.
  intros. unfold py_index. by rewrite !bool_decide_true by lia.
Qed.

End py_lists.

(** ** Card piles *)

Module CardPileFacts.
Import CardPile.

Lemma size_nonneg (p : t) : 0 ≤ size p.
Proof. unfold size. lia. Qed.

Lemma size_app (p q : t) : size (p ++ q) = size p + size q.
Proof. unfold size. rewrite length_app. lia. Qed.

Lemma is_empty_true (p : t) : is_empty p = true ↔ p = [].
Proof.
  unfold is_empty, size. rewrite bool_decide_eq_true.
  destruct p; simpl; split; (done || lia).
Qed.

Lemma is_empty_false (p : t) : is_empty p = false ↔ p ≠ [].
Proof.
  rewrite <-is_empty_true. destruct (is_empty p); split; congruence.
Qed.

Lemma is_empty_snoc (p : t) c : is_empty (p ++ [c]) = false.
Proof. apply is_empty_false. by destruct p. Qed.

Lemma eq_true (p q : t) : eq p q = true ↔ p = q.
Proof. unfold eq. apply bool_decide_eq_true. Qed.

Lemma eq_false (p q : t) : eq p q = false ↔ p ≠ q.
Proof. unfold eq. apply bool_decide_eq_false. Qed.

(** Whatever the number, [cut] splits the pile: nothing is lost. *)
Lemma cut_split (p : t) n : (cut p n).2 ++ (cut p n).1 = p.
Proof. unfold cut. simpl. apply take_drop. Qed.

(** The top [n] cards, for [1 <= n <= size]. *)
Lemma cut_app (p q : t) :
  q ≠ [] → cut (p ++ q) (size q) = (q, p).
Proof.
  intros Hq. unfold cut, size.
  rewrite py_slice_index_neg.
  2:{ rewrite length_app. destruct q; [done|simpl; lia]. }
  rewrite Nat2Z.id, length_app.
  replace (length p + length q - length q)%nat with (length p) by lia.
  by rewrite drop_app_length, take_app_length.
Qed.

Lemma cut_all (p : t) : cut p (size p) = (p, []).
Proof.
  destruct (decide (p = [])) as [->|Hp]; [done|].
  apply (cut_app [] p Hp).
Qed.

(** More cards asked for than the pile holds: the whole pile goes. *)
Lemma cut_clamp (p : t) n : size p < n → cut p n = (p, []).
Proof.
  intros. unfold cut. rewrite py_slice_index_clamp by done.
  by rewrite drop_0, take_0.
Qed.

(** [cut(0)] takes the whole pile. *)
Lemma cut_zero (p : t) : cut p 0 = (p, []).
Proof. unfold cut. rewrite py_slice_index_zero. by rewrite drop_0, take_0. Qed.

Lemma peek_nil n : peek [] n = None.
Proof.
  unfold peek, py_index. simpl. repeat case_bool_decide; done.
Qed.

(** The base of the top [n] cards, for [1 <= n <= size]. *)
Lemma peek_app (p q : t) c :
  peek (p ++ c :: q) (size (c :: q)) = Some c.
Proof.
  unfold peek, size. rewrite py_index_neg.
  2:{ rewrite length_app. simpl. lia. }
  rewrite Nat2Z.id, length_app.
  replace (length p + length (c :: q) - length (c :: q))%nat
    with (length p) by lia.
  by rewrite list_lookup_middle.
Qed.

Lemma peek_snoc (p : t) c : peek (p ++ [c]) 1 = Some c.
Proof. apply (peek_app p [] c). Qed.

(** [peek] raises when asked for a card below the bottom. *)
Lemma peek_out (p : t) n : size p < n → peek p n = None.
Proof. apply py_index_out. Qed.

Lemma remove_top_snoc (p : t) c : remove_top (p ++ [c]) = Some (c, p).
Proof. apply py_pop_snoc. Qed.

Lemma set_top_hidden_snoc (p : t) c v :
  set_top_hidden (p ++ [c]) v = Some (p ++ [set_hidden v c]).
Proof.
  unfold set_top_hidden. rewrite peek_snoc, length_app. simpl.
  rewrite Nat.add_1_r. simpl.
  rewrite alter_app_r_alt by lia. by rewrite Nat.sub_diag.
Qed.

Lemma set_top_hidden_nil v : set_top_hidden [] v = None.
Proof. reflexivity. Qed.

Lemma set_top_hidden_ids (p p' : t) v :
  set_top_hidden p v = Some p' → card_id <$> p' = card_id <$> p.
Proof.
  destruct (snoc_cases p) as [->|(r & c & ->)]; [done|].
  rewrite set_top_hidden_snoc. intros [= <-]. by rewrite !fmap_app.
Qed.

End CardPileFacts.

(** ** Reading and writing piles of the state *)

Section state.
Implicit Types (s : Solitaire) (r : PileRef) (p : CardPile.t).

Lemma pile_set_pile_eq s r p : valid_ref s r → pile (set_pile s r p) r = p.
Proof.
  destruct r as [| |u|i]; simpl; try done.
  - by destruct u.
  - unfold num_piles. intros Hi. by rewrite list_lookup_insert_eq.
Qed.

Lemma pile_set_pile_ne s r r' p :
  r ≠ r' → pile (set_pile s r p) r' = pile s r'.
Proof.
  destruct r as [| |u|i], r' as [| |u'|i']; simpl; try done.
  - destruct u, u'; done.
  - intros Hne. rewrite list_lookup_insert_ne; [done|congruence].
Qed.

Lemma history_set_pile s r p : history (set_pile s r p) = history s.
Proof. by destruct r. Qed.

Lemma max_rank_set_pile s r p : max_rank (set_pile s r p) = max_rank s.
Proof. by destruct r. Qed.

Lemma num_piles_set_pile s r p : num_piles (set_pile s r p) = num_piles s.
Proof. destruct r; try done. unfold num_piles. simpl. apply length_insert. Qed.

Lemma valid_ref_set_pile s r p r' :
  valid_ref (set_pile s r p) r' ↔ valid_ref s r'.
Proof. destruct r'; simpl; try done. by rewrite num_piles_set_pile. Qed.

Lemma pile_set_history s h r : pile (set_history s h) r = pile s r.
Proof. by destruct r. Qed.

Lemma valid_ref_set_history s h r :
  valid_ref (set_history s h) r ↔ valid_ref s r.
Proof. by destruct r. Qed.

Lemma set_pile_id s r : set_pile s r (pile s r) = s.
Proof.
  destruct s as [st w [fc fd fh fs] m ps h], r as [| |u|i]; simpl; try done.
  - by destruct u.
  - f_equal. destruct (ps !! i) as [q|] eqn:Hq; simpl.
    + by apply list_insert_id.
    + apply list_insert_ge. by apply lookup_ge_None.
Qed.

Lemma set_pile_set_pile_eq s r p q :
  set_pile (set_pile s r p) r q = set_pile s r q.
Proof.
  destruct r as [| |u|i]; simpl; try done.
  - by destruct u.
  - by rewrite list_insert_insert_eq.
Qed.

Lemma set_pile_comm s r r' p q :
  r ≠ r' →
  set_pile (set_pile s r p) r' q = set_pile (set_pile s r' q) r p.
Proof.
  destruct r as [| |u|i], r' as [| |u'|i']; simpl; try done.
  - destruct u, u'; done.
  - intros Hne. f_equal. apply list_insert_insert_ne. congruence.
Qed.

Lemma set_history_set_pile s r p h :
  set_history (set_pile s r p) h = set_pile (set_history s h) r p.
Proof. by destruct r. Qed.

Lemma set_history_id s : set_history s (history s) = s.
Proof. by destruct s. Qed.

Lemma set_history_set_history s h h' :
  set_history (set_history s h) h' = set_history s h'.
Proof. done. Qed.

End state.

(** Two states with the same piles, history and top rank are the same. *)
Lemma state_ext (s s' : Solitaire) :
  (∀ r, pile s r = pile s' r) →
  num_piles s = num_piles s' →
  max_rank s = max_rank s' →
  history s = history s' →
  s = s'.
Proof.
  destruct s as [st w [fc fd fh fs] m ps h],
           s' as [st' w' [fc' fd' fh' fs'] m' ps' h'].
  unfold num_piles. simpl. intros Hp Hn -> ->.
  pose proof (Hp Stock) as Hst. pose proof (Hp Waste) as Hw.
  pose proof (Hp (Foundation CLUBS)) as Hc.
  pose proof (Hp (Foundation DIAMONDS)) as Hd.
  pose proof (Hp (Foundation HEARTS)) as Hh.
  pose proof (Hp (Foundation SPADES)) as Hs.
  simpl in *. subst. f_equal.
  apply list_eq. intros i. specialize (Hp (Tableau i)). simpl in Hp.
  destruct (ps !! i) as [x|] eqn:Hx, (ps' !! i) as [x'|] eqn:Hx';
    simpl in Hp; subst; try done.
  - apply lookup_lt_Some in Hx. apply lookup_ge_None in Hx'. lia.
  - apply lookup_lt_Some in Hx'. apply lookup_ge_None in Hx. lia.
Qed.

(** ** The tail of an accepted move *)

Lemma reveal_ids (p : CardPile.t) : card_id <$> reveal p = card_id <$> p.
Proof.
  unfold reveal. destruct (snoc_cases p) as [->|(r & c & ->)]; [done|].
  rewrite py_pop_snoc. by rewrite !fmap_app.
Qed.

Lemma reveal_nil_iff (p : CardPile.t) : reveal p = [] ↔ p = [].
Proof.
  unfold reveal. destruct (snoc_cases p) as [->|(r & c & ->)]; [done|].
  rewrite py_pop_snoc. split; intros H; by destruct r.
Qed.

(** Hiding the revealed card again when the entry says so gives back the
    pile as it was. *)
Lemma rehide_reveal (p : CardPile.t) :
  (if top_hidden p then CardPile.set_top_hidden (reveal p) true
   else Some (reveal p)) = Some p.
Proof.
  unfold top_hidden, reveal.
  destruct (snoc_cases p) as [->|(r & [k u h] & ->)]; [done|].
  rewrite py_pop_snoc. simpl. destruct h.
  - by rewrite CardPileFacts.set_top_hidden_snoc.
  - done.
Qed.

(** [record_move] never raises: it pushes one entry and reveals the top
    of the origin. *)
Lemma record_move_eq (s : Solitaire) o d n v :
  record_move s o d n v =
  Return v (set_pile (history_append s (HMove o d n (top_hidden (pile s o))))
                     o (reveal (pile s o))).
Proof.
  unfold record_move, top_hidden, reveal.
  destruct (snoc_cases (pile s o)) as [E|(r & c & E)]; rewrite E.
  - simpl. f_equal. rewrite <-E. unfold history_append.
    rewrite <-(pile_set_history s (history s ++ [HMove o d n false]) o).
    by rewrite set_pile_id.
  - rewrite CardPileFacts.is_empty_snoc, CardPileFacts.peek_snoc,
      py_pop_snoc. simpl.
    unfold history_append. rewrite pile_set_history, E.
    by rewrite CardPileFacts.set_top_hidden_snoc.
Qed.

(** The state after [transfer], for any number of cards. *)
Lemma transfer_eq (s : Solitaire) o d n :
  transfer s o d n =
  let s1 := set_pile s o (CardPile.cut (pile s o) n).2 in
  set_pile s1 d (pile s1 d ++ (CardPile.cut (pile s o) n).1).
Proof. unfold transfer. by destruct (CardPile.cut (pile s o) n). Qed.

(** Moving the top cards [q] of [o] onto another pile [d]. *)
Lemma transfer_app (s : Solitaire) o d (p q : CardPile.t) :
  valid_ref s o → o ≠ d → q ≠ [] →
  pile s o = p ++ q →
  transfer s o d (CardPile.size q) =
  set_pile (set_pile s o p) d (pile s d ++ q).
Proof.
  intros Ho Hne Hq E. rewrite transfer_eq, E, CardPileFacts.cut_app by done.
  simpl. by rewrite pile_set_pile_ne.
Qed.

(** ** Acceptance *)

Lemma accepts_same (s : Solitaire) v : accepts s (Return v s) = false.
Proof. unfold accepts. simpl. apply bool_decide_eq_false. lia. Qed.

Lemma accepts_raise (s s' : Solitaire) e : accepts s (Raise e s') = false.
Proof. done. Qed.

Lemma accepts_record_move (s s' : Solitaire) o d n v :
  history s' = history s → accepts s (record_move s' o d n v) = true.
Proof.
  intros E. rewrite record_move_eq. unfold accepts. simpl.
  apply bool_decide_eq_true.
  rewrite history_set_pile. simpl. rewrite length_app, E. simpl. lia.
Qed.

Lemma history_transfer (s : Solitaire) o d n :
  history (transfer s o d n) = history s.
Proof. rewrite transfer_eq. simpl. by rewrite !history_set_pile. Qed.

(** A pile of at least [n >= 1] cards splits at the base of its top [n]. *)
Lemma split_top (p : CardPile.t) n :
  1 ≤ n ≤ CardPile.size p →
  ∃ a c b, p = a ++ c :: b ∧ CardPile.size (c :: b) = n.
Proof.
  unfold CardPile.size. intros Hn.
  pose proof (take_drop (length p - Z.to_nat n) p) as E.
  destruct (drop (length p - Z.to_nat n) p) as [|c b] eqn:Hd.
  - apply (f_equal length) in Hd. rewrite length_drop in Hd. simpl in Hd. lia.
  - exists (take (length p - Z.to_nat n) p), c, b. split; [done|].
    rewrite <-Hd, length_drop. lia.
Qed.

(** What [move] decides once the two guards have let the request through:
    the base card is [peek(num_cards)] of the origin; the destination is
    empty or has a top card. *)
Lemma move_decide (s : Solitaire) o d n :
  ¬ CardPile.size (pile s o) < n →
  pile s o ≠ pile s d →
  move s o d n =
  match CardPile.peek (pile s o) n with
  | None => Raise IndexError s
  | Some c =>
      match py_pop (pile s d) with
      | None =>
          if bool_decide (rank c = max_rank s)
          then record_move (transfer s o d n) o d n PyNone
          else Raise IndexError s
      | Some (top, _) =>
          if is_valid_move c top
          then record_move (transfer s o d n) o d n PyNone
          else Return PyFalse s
      end
  end.
Proof.
  intros Hn Hne. unfold move.
  rewrite bool_decide_false by done.
  apply CardPileFacts.eq_false in Hne. rewrite Hne.
  destruct (snoc_cases (pile s d)) as [E|(r & top & E)]; rewrite E.
  - simpl. destruct (CardPile.peek (pile s o) n) as [c|]; simpl; [|done].
    by case_bool_decide.
  - rewrite CardPileFacts.is_empty_snoc, CardPileFacts.peek_snoc, py_pop_snoc.
    by destruct (CardPile.peek (pile s o) n).
Qed.

(** ** Undo after an accepted move *)

(** The state an accepted transfer of the cards [q] leaves, and what
    [undo] makes of it. *)
Lemma undo_after_transfer (s : Solitaire) o d (p q : CardPile.t) n v :
  valid_ref s o → valid_ref s d → o ≠ d → q ≠ [] →
  pile s o = p ++ q → n = CardPile.size q →
  undo (state_of
          (record_move (set_pile (set_pile s o p) d (pile s d ++ q))
                       o d n v))
  = Return PyNone s.
Proof.
  intros Ho Hd Hne Hq E ->. rewrite record_move_eq. simpl.
  set (s2 := set_pile (set_pile s o p) d (pile s d ++ q)).
  assert (Ho2 : valid_ref s2 o) by (unfold s2; by rewrite !valid_ref_set_pile).
  assert (Hp2 : pile s2 o = p).
  { unfold s2. rewrite pile_set_pile_ne by done. by apply pile_set_pile_eq. }
  rewrite Hp2. unfold undo. rewrite history_set_pile. simpl.
  rewrite py_pop_snoc.
  set (s3 := set_history (set_pile _ o (reveal p)) (history s2)).
  assert (Hs3 : s3 = set_pile s2 o (reveal p)).
  { unfold s3. rewrite set_history_set_pile. unfold history_append.
    by rewrite set_history_set_history, set_history_id. }
  rewrite Hs3. rewrite pile_set_pile_eq by done.
  rewrite rehide_reveal. f_equal.
  rewrite set_pile_set_pile_eq, <-Hp2, set_pile_id.
  rewrite transfer_eq.
  assert (Hd2 : pile s2 d = pile s d ++ q).
  { unfold s2. apply pile_set_pile_eq. by rewrite valid_ref_set_pile. }
  rewrite Hd2, CardPileFacts.cut_app by done. simpl.
  rewrite pile_set_pile_ne by done. rewrite Hp2.
  unfold s2. rewrite set_pile_set_pile_eq.
  rewrite (set_pile_comm _ d o) by done.
  rewrite set_pile_set_pile_eq, <-E.
  rewrite set_pile_id. apply set_pile_id.
Qed.

(** [undo] takes back an accepted [move] of one card or more. *)
Lemma undo_move (s : Solitaire) o d n :
  valid_ref s o → valid_ref s d → 1 ≤ n →
  accepts s (move s o d n) = true →
  undo (state_of (move s o d n)) = Return PyNone s.
Proof.
  intros Ho Hd Hn Hacc.
  destruct (decide (CardPile.size (pile s o) < n)) as [Hlt|Hge].
  { unfold move in Hacc. rewrite bool_decide_true in Hacc by done.
    by rewrite accepts_same in Hacc. }
  destruct (decide (pile s o = pile s d)) as [Heq|Hne].
  { unfold move in Hacc. rewrite bool_decide_false in Hacc by done.
    apply CardPileFacts.eq_true in Heq. rewrite Heq in Hacc.
    by rewrite accepts_same in Hacc. }
  assert (o ≠ d) as Hod by (intros ->; done).
  destruct (split_top (pile s o) n) as (a & c & b & E & Hsz); [lia|].
  assert (CardPile.peek (pile s o) n = Some c) as Hpk
    by (rewrite E, <-Hsz; apply CardPileFacts.peek_app).
  rewrite move_decide in Hacc |- * by done.
  rewrite Hpk in Hacc |- *. subst n.
  assert (transfer s o d (CardPile.size (c :: b))
          = set_pile (set_pile s o a) d (pile s d ++ c :: b)) as Ht
    by by apply transfer_app.
  destruct (py_pop (pile s d)) as [[top r]|].
  - destruct (is_valid_move c top).
    + rewrite Ht. by eapply undo_after_transfer.
    + by rewrite accepts_same in Hacc.
  - case_bool_decide.
    + rewrite Ht. by eapply undo_after_transfer.
    + done.
Qed.

(** What [move_to_foundation] decides for a pile with top card [c]. *)
Lemma move_to_foundation_decide (s : Solitaire) p (r : CardPile.t) c :
  pile s p = r ++ [c] →
  move_to_foundation s p =
  if match py_pop (pile s (Foundation (suit c))) with
     | None => bool_decide (rank c = 1)
     | Some (top, _) => bool_decide (rank top = rank c - 1)
     end
  then to_foundation s p (suit c)
  else Return PyFalse s.
Proof.
  intros E. unfold move_to_foundation.
  rewrite E, CardPileFacts.is_empty_snoc, CardPileFacts.peek_snoc.
  destruct (snoc_cases (pile s (Foundation (suit c)))) as [F|(fr & top & F)];
    rewrite F.
  - simpl. by case_bool_decide.
  - rewrite CardPileFacts.is_empty_snoc, CardPileFacts.peek_snoc, py_pop_snoc.
    simpl. by case_bool_decide.
Qed.

(** The foundation of a card's suit never takes its own top card. *)
Lemma move_to_foundation_self (s : Solitaire) u (r : CardPile.t) c :
  pile s (Foundation u) = r ++ [c] → suit c = u →
  move_to_foundation s (Foundation u) = Return PyFalse s.
Proof.
  intros E <-. rewrite (move_to_foundation_decide _ _ _ _ E).
  rewrite E, py_pop_snoc. rewrite bool_decide_false; [done|lia].
Qed.

Lemma to_foundation_eq (s : Solitaire) p (r : CardPile.t) c u :
  valid_ref s p → p ≠ Foundation u → pile s p = r ++ [c] →
  to_foundation s p u =
  record_move (set_pile (set_pile s p r) (Foundation u)
                        (pile s (Foundation u) ++ [c]))
              p (Foundation u) 1 PyTrue.
Proof.
  intros Hp Hne E. unfold to_foundation.
  rewrite E, CardPileFacts.remove_top_snoc.
  by rewrite pile_set_pile_ne.
Qed.

(** [undo] takes back an accepted [move_to_foundation]. *)
Lemma undo_move_to_foundation (s : Solitaire) p :
  valid_ref s p →
  accepts s (move_to_foundation s p) = true →
  undo (state_of (move_to_foundation s p)) = Return PyNone s.
Proof.
  intros Hp Hacc.
  destruct (snoc_cases (pile s p)) as [E|(r & c & E)].
  { unfold move_to_foundation in Hacc. rewrite E in Hacc. simpl in Hacc.
    by rewrite accepts_same in Hacc. }
  destruct (decide (p = Foundation (suit c))) as [->|Hne].
  { rewrite (move_to_foundation_self _ _ _ _ E eq_refl) in Hacc.
    by rewrite accepts_same in Hacc. }
  rewrite (move_to_foundation_decide _ _ _ _ E) in Hacc |- *.
  destruct (match py_pop (pile s (Foundation (suit c))) with
            | None => _ | Some _ => _ end).
  - rewrite (to_foundation_eq _ _ _ _ _ Hp Hne E).
    by eapply undo_after_transfer.
  - by rewrite accepts_same in Hacc.
Qed.

(** ** Drawing *)

Lemma draw_stock_top (s : Solitaire) (rest : CardPile.t) c :
  stock s = rest ++ [c] →
  draw s = Return PyNone
             (mkSolitaire rest (waste s ++ [c]) (foundations s) (max_rank s)
                          (piles s) (history s)).
Proof.
  intros E. unfold draw.
  by rewrite E, CardPileFacts.is_empty_snoc, CardPileFacts.remove_top_snoc.
Qed.

Lemma draw_stock_empty (s : Solitaire) :
  stock s = [] →
  draw s = Return PyNone
             (mkSolitaire (reverse (waste s)) [] (foundations s) (max_rank s)
                          (piles s) (history s)).
Proof.
  intros E. unfold draw. rewrite E, CardPileFacts.cut_all. simpl.
  by rewrite E.
Qed.

(** [draw] never raises. *)
Lemma draw_returns (s : Solitaire) : raised (draw s) = false.
Proof.
  destruct (snoc_cases (stock s)) as [E|(r & c & E)].
  - by rewrite draw_stock_empty.
  - by rewrite (draw_stock_top _ _ _ E).
Qed.

Lemma draws_succ_r k s :
  draws (S k) s = draws k (state_of (draw_command s)).
Proof.
  unfold draws. induction k as [|k IH]; [done|].
  simpl in *. by rewrite IH.
Qed.

(** Drawing the whole stock piles it up on the waste upside down. *)
Lemma draws_whole_stock (s : Solitaire) :
  stock (draws (length (stock s)) s) = []
  ∧ waste (draws (length (stock s)) s) = waste s ++ reverse (stock s).
Proof.
  remember (stock s) as st eqn:E. revert s E.
  induction st as [|c r IH] using rev_ind; intros s E.
  - simpl. by rewrite <-E, app_nil_r.
  - rewrite length_app. simpl. rewrite Nat.add_1_r, draws_succ_r.
    unfold draw_command. rewrite (draw_stock_top s r c) by done. simpl.
    set (s1 := history_append _ HDraw).
    destruct (IH s1 eq_refl) as [IH1 IH2]. simpl in IH1, IH2.
    rewrite IH1, IH2. split; [done|].
    by rewrite reverse_snoc, <-app_assoc.
Qed.

(** [undo] takes back a draw command. *)
Lemma undo_draw_command (s : Solitaire) :
  undo (state_of (draw_command s)) = Return PyNone s.
Proof.
  unfold draw_command.
  destruct s as [st w f m ps h].
  destruct (snoc_cases st) as [->|(r & c & ->)].
  - rewrite draw_stock_empty by done. simpl.
    unfold undo. simpl. rewrite py_pop_snoc. simpl.
    injection (CardPileFacts.cut_all (reverse w)) as Hcut Hrest.
    by rewrite Hcut, Hrest, reverse_involutive.
  - rewrite (draw_stock_top _ r c) by done. simpl.
    unfold undo. simpl. rewrite py_pop_snoc. simpl.
    rewrite CardPileFacts.is_empty_snoc, CardPileFacts.remove_top_snoc.
    done.
Qed.

(** ** Conservation of the cards *)

Section conservation.
Implicit Types (s : Solitaire) (r : PileRef) (p q : CardPile.t).

Lemma concat_insert_Permutation (ps : list (list Card)) i p x :
  ps !! i = Some x →
  concat (<[i := p]> ps) ++ x ≡ₚ concat ps ++ p.
Proof.
  revert i. induction ps as [|y ps IH]; intros [|i] Hi; simplify_eq/=.
  - rewrite <-!app_assoc. rewrite (Permutation_app_comm (concat ps) x).
    rewrite (Permutation_app_comm (concat ps) p).
    rewrite !app_assoc. by rewrite (Permutation_app_comm p x).
  - rewrite <-!app_assoc. by rewrite (IH i Hi).
Qed.

(** Assigning to a pile exchanges its old cards for the new ones. *)
Lemma all_cards_set_pile s r p :
  valid_ref s r →
  all_cards (set_pile s r p) ++ pile s r ≡ₚ all_cards s ++ p.
Proof.
  destruct s as [st w [fc fd fh fs] m ps h].
  destruct r as [| |u|i]; unfold all_cards; simpl; intros Hv.
  - solve_Permutation.
  - solve_Permutation.
  - destruct u; simpl; solve_Permutation.
  - unfold num_piles in Hv. simpl in Hv.
    destruct (lookup_lt_is_Some_2 ps i Hv) as [x Hx]. rewrite Hx. simpl.
    rewrite <-!app_assoc.
    by rewrite (concat_insert_Permutation ps i p x Hx).
Qed.

Lemma card_ids_set_pile s r p :
  valid_ref s r →
  card_ids (set_pile s r p) ++ (card_id <$> pile s r)
  ≡ₚ card_ids s ++ (card_id <$> p).
Proof.
  intros Hv. unfold card_ids. rewrite <-!fmap_app.
  by rewrite (all_cards_set_pile s r p Hv).
Qed.

(** Rewriting a pile with the same cards keeps the cards of the game. *)
Lemma card_ids_set_pile_same s r p :
  valid_ref s r →
  card_id <$> p ≡ₚ card_id <$> pile s r →
  card_ids (set_pile s r p) ≡ₚ card_ids s.
Proof.
  intros Hv Hp. pose proof (card_ids_set_pile s r p Hv) as H.
  rewrite Hp in H. by apply (inj (.++ _)) in H.
Qed.

Lemma card_ids_relocate s r1 r2 rest q :
  valid_ref s r1 → valid_ref s r2 →
  pile s r1 ≡ₚ rest ++ q →
  card_ids (relocate s r1 r2 rest q) ≡ₚ card_ids s.
Proof.
  intros H1 H2 Hp. unfold relocate. simpl.
  set (s1 := set_pile s r1 rest).
  assert (valid_ref s1 r2) as H2' by by apply valid_ref_set_pile.
  pose proof (card_ids_set_pile s1 r2 (pile s1 r2 ++ q) H2') as Ha.
  pose proof (card_ids_set_pile s r1 rest H1) as Hb. fold s1 in Hb.
  rewrite Hp in Hb. rewrite !fmap_app in Ha, Hb.
  rewrite (Permutation_app_comm (card_id <$> pile s1 r2)) in Ha.
  rewrite app_assoc in Ha. apply (inj (.++ _)) in Ha.
  rewrite Ha.
  rewrite (Permutation_app_comm (card_id <$> rest)) in Hb.
  rewrite app_assoc in Hb. by apply (inj (.++ _)) in Hb.
Qed.

Lemma num_piles_relocate s r1 r2 rest q :
  num_piles (relocate s r1 r2 rest q) = num_piles s.
Proof. unfold relocate. simpl. by rewrite !num_piles_set_pile. Qed.

Lemma history_relocate s r1 r2 rest q :
  history (relocate s r1 r2 rest q) = history s.
Proof. unfold relocate. simpl. by rewrite !history_set_pile. Qed.

Lemma transfer_relocate s o d n :
  transfer s o d n
  = relocate s o d (CardPile.cut (pile s o) n).2
             (CardPile.cut (pile s o) n).1.
Proof. apply transfer_eq. Qed.

(** [transfer] keeps the cards, whatever the number asked for. *)
Lemma card_ids_transfer s o d n :
  valid_ref s o → valid_ref s d →
  card_ids (transfer s o d n) ≡ₚ card_ids s.
Proof.
  intros. rewrite transfer_relocate. apply card_ids_relocate; try done.
  by rewrite CardPileFacts.cut_split.
Qed.

Lemma card_ids_set_history s h : card_ids (set_history s h) = card_ids s.
Proof. done. Qed.

Lemma num_piles_set_history s h : num_piles (set_history s h) = num_piles s.
Proof. done. Qed.

End conservation.

(** ** Equality of piles

    [CardPile.__eq__] compares card objects. Where every card of the game
    is in one place only, as [conservation] below shows of every state a
    game reaches, two different piles one of which holds a card are never
    equal, under either comparison: the test [origin_pile ==
    destination_pile] of [move] then only tells whether the two are the
    same pile or both empty. *)

Lemma pile_subseteq (s : Solitaire) (r : PileRef) (c : Card) :
  valid_ref s r → c ∈ pile s r → c ∈ all_cards s.
Proof.
  intros Hv Hc. pose proof (all_cards_set_pile s r [] Hv) as H.
  rewrite app_nil_r in H. rewrite <-H. apply elem_of_app. by right.
Qed.

Lemma distinct_piles_differ (s : Solitaire) (o d : PileRef) :
  distinct_cards s → valid_ref s o → valid_ref s d → o ≠ d →
  pile s o ≠ [] → pile s o ≠ pile s d.
Proof.
  unfold distinct_cards. intros Hnd Ho Hd Hne Hp Heq.
  destruct (pile s o) as [|c p] eqn:E; [done|].
  pose proof (all_cards_set_pile s o [] Ho) as H.
  rewrite app_nil_r, E in H. rewrite <-H, fmap_app in Hnd.
  apply NoDup_app in Hnd as (_ & Hdis & _).
  apply (Hdis (card_id c)).
  - apply list_elem_of_fmap_2.
    apply (pile_subseteq _ d); [by rewrite valid_ref_set_pile|].
    rewrite pile_set_pile_ne by done. rewrite <-Heq. by left.
  - apply list_elem_of_fmap_2. by left.
Qed.

Section keeps.
Variable s0 : Solitaire.
Implicit Types (s : Solitaire) (r o d : PileRef).

Lemma keeps_valid_ref s r : keeps s0 s → valid_ref s0 r → valid_ref s r.
Proof. intros (Hn & _ & _). destruct r; simpl; try done. by rewrite Hn. Qed.

Lemma keeps_relocate s r1 r2 (rest q : CardPile.t) :
  keeps s0 s → valid_ref s0 r1 → valid_ref s0 r2 →
  pile s r1 ≡ₚ rest ++ q →
  keeps s0 (relocate s r1 r2 rest q).
Proof.
  intros Hk H1 H2 Hp. pose proof Hk as (Hn & Hc & Hh).
  repeat split.
  - by rewrite num_piles_relocate.
  - rewrite card_ids_relocate; eauto using keeps_valid_ref.
  - by rewrite history_relocate.
Qed.

Lemma keeps_transfer s o d n :
  keeps s0 s → valid_ref s0 o → valid_ref s0 d →
  keeps s0 (transfer s o d n).
Proof.
  intros. rewrite transfer_relocate. apply keeps_relocate; try done.
  by rewrite CardPileFacts.cut_split.
Qed.

Lemma keeps_set_history s h :
  keeps s0 s → Forall (valid_entry s0) h → keeps s0 (set_history s h).
Proof. intros (Hn & Hc & _) Hh. by repeat split. Qed.

Lemma keeps_set_pile_same s r (p : CardPile.t) :
  keeps s0 s → valid_ref s0 r →
  card_id <$> p = card_id <$> pile s r →
  keeps s0 (set_pile s r p).
Proof.
  intros Hk Hr Hp. pose proof Hk as (Hn & Hc & Hh). repeat split.
  - by rewrite num_piles_set_pile.
  - rewrite card_ids_set_pile_same; [done|by eapply keeps_valid_ref|].
    by rewrite Hp.
  - by rewrite history_set_pile.
Qed.

Lemma keeps_record_move s o d n v :
  keeps s0 s → valid_ref s0 o → valid_ref s0 d →
  keeps s0 (state_of (record_move s o d n v)).
Proof.
  intros Hk Ho Hd. rewrite record_move_eq. simpl.
  apply keeps_set_pile_same; [|done|].
  - apply keeps_set_history; [done|].
    destruct Hk as (_ & _ & Hh). apply Forall_app. split; [done|].
    by repeat constructor.
  - unfold history_append. by rewrite pile_set_history, reveal_ids.
Qed.

Lemma keeps_move s o d n :
  keeps s0 s → valid_ref s0 o → valid_ref s0 d →
  keeps s0 (state_of (move s o d n)).
Proof.
  intros Hk Ho Hd.
  assert (keeps s0 (state_of (record_move (transfer s o d n) o d n PyNone)))
    as Hacc by (apply keeps_record_move; auto using keeps_transfer).
  unfold move. repeat case_match; done.
Qed.

Lemma keeps_to_foundation s r u :
  keeps s0 s → valid_ref s0 r →
  keeps s0 (state_of (to_foundation s r u)).
Proof.
  intros Hk Hr. unfold to_foundation.
  destruct (CardPile.remove_top (pile s r)) as [[c rest]|] eqn:E; [|done].
  apply py_pop_Some in E.
  apply keeps_record_move; try done.
  apply (keeps_relocate s r (Foundation u) rest [c]); try done.
  by rewrite E.
Qed.

Lemma keeps_move_to_foundation s r :
  keeps s0 s → valid_ref s0 r →
  keeps s0 (state_of (move_to_foundation s r)).
Proof.
  intros Hk Hr. unfold move_to_foundation.
  repeat case_match; try done; try by apply keeps_to_foundation.
Qed.

Lemma keeps_draw s : keeps s0 s → keeps s0 (state_of (draw s)).
Proof.
  intros Hk. destruct (snoc_cases (stock s)) as [E|(r & c & E)].
  - rewrite draw_stock_empty by done.
    apply (keeps_relocate s Waste Stock [] (reverse (waste s))) in Hk;
      try done.
    + unfold relocate in Hk. simpl in Hk. by rewrite E in Hk.
    + simpl. by rewrite reverse_Permutation.
  - rewrite (draw_stock_top _ _ _ E).
    apply (keeps_relocate s Stock Waste r [c]); try done.
    simpl. by rewrite E.
Qed.

Lemma keeps_draw_command s :
  keeps s0 s → keeps s0 (state_of (draw_command s)).
Proof.
  intros Hk. pose proof (keeps_draw s Hk) as Hd.
  unfold draw_command. destruct (draw s) as [v s1|e s1]; [|done].
  simpl in *. apply keeps_set_history; [done|].
  destruct Hd as (_ & _ & Hh). apply Forall_app. split; [done|].
  by repeat constructor.
Qed.

Lemma keeps_undo s : keeps s0 s → keeps s0 (state_of (undo s)).
Proof.
  intros Hk. unfold undo.
  destruct (py_pop (history s)) as [[e h]|] eqn:E; [|done].
  apply py_pop_Some in E.
  assert (Forall (valid_entry s0) h ∧ valid_entry s0 e) as [Hh He].
  { destruct Hk as (_ & _ & Hh). rewrite E in Hh.
    apply Forall_app in Hh as [? He]. rewrite Forall_singleton in He.
    by split. }
  pose proof (keeps_set_history s h Hk Hh) as Hk1.
  set (s1 := set_history s h) in *.
  destruct e as [|o d n hid].
  - destruct (CardPile.is_empty (waste s1)).
    + destruct (CardPile.cut (stock s1) _) as [cut_items rest] eqn:Hc.
      simpl.
      apply (keeps_relocate s1 Stock Waste rest (reverse cut_items));
        try done.
      simpl. rewrite reverse_Permutation.
      pose proof (CardPileFacts.cut_split (stock s1)
                    (CardPile.size (stock s1))) as Hs.
      rewrite Hc in Hs. simpl in Hs. by rewrite Hs.
    + destruct (CardPile.remove_top (waste s1)) as [[c rest]|] eqn:Hr;
        [|done].
      apply py_pop_Some in Hr. simpl.
      apply (keeps_relocate s1 Waste Stock rest [c]); try done.
      by rewrite <-Hr.
  - destruct He as [Ho Hd].
    destruct (if hid then _ else _) as [p|] eqn:Hp; [|done].
    simpl. apply keeps_transfer; try done.
    apply keeps_set_pile_same; try done.
    destruct hid; [|by injection Hp as <-].
    by apply CardPileFacts.set_top_hidden_ids in Hp.
Qed.

Lemma keeps_step s op :
  keeps s0 s → valid_op s0 op → keeps s0 (state_of (step s op)).
Proof.
  intros Hk Hop. destruct op as [o d n|r| | |]; simpl in *.
  - destruct Hop. by apply keeps_move.
  - by apply keeps_move_to_foundation.
  - by apply keeps_draw.
  - by apply keeps_draw_command.
  - by apply keeps_undo.
Qed.

Lemma keeps_run s ops :
  keeps s0 s → Forall (valid_op s0) ops → keeps s0 (run s ops).
Proof.
  intros Hk Hops. revert s Hk.
  induction Hops as [|op ops Hop _ IH]; intros s Hk; [done|].
  simpl. apply IH. by apply keeps_step.
Qed.

End keeps.

(** ** The deal *)

Lemma deal_pile_spec (count : nat) (p deck p' deck' : list Card) :
  deal_pile count p deck = Some (p', deck') →
  ∃ popped, p' = p ++ popped ∧ deck = deck' ++ reverse popped
            ∧ length popped = count.
Proof.
  revert p deck. induction count as [|count IH]; intros p deck; simpl.
  - intros [= <- <-]. exists []. by rewrite !app_nil_r.
  - destruct (py_pop deck) as [[c deck1]|] eqn:E; [|done].
    apply py_pop_Some in E. intros H.
    destruct (IH _ _ H) as (popped & -> & -> & <-).
    exists (c :: popped). unfold CardPile.add_top.
    rewrite reverse_cons, <-!app_assoc. rewrite <-app_assoc in E.
    by repeat split.
Qed.

Lemma deal_pile_total (count : nat) (p deck : list Card) :
  (count ≤ length deck)%nat →
  ∃ p' deck', deal_pile count p deck = Some (p', deck')
              ∧ length deck' = (length deck - count)%nat
              ∧ length p' = (length p + count)%nat.
Proof.
  revert p deck. induction count as [|count IH]; intros p deck Hc; simpl.
  - exists p, deck. split; [done|lia].
  - destruct (snoc_cases deck) as [->|(deck1 & c & ->)]; [simpl in Hc; lia|].
    rewrite py_pop_snoc. rewrite length_app in Hc |- *. simpl in Hc |- *.
    destruct (IH (CardPile.add_top p c) deck1) as (p' & deck' & -> & H1 & H2);
      [lia|].
    exists p', deck'. split; [done|].
    unfold CardPile.add_top in H2. rewrite length_app in H2. simpl in H2. lia.
Qed.

Lemma deal_spec (cols : list nat) (deck deck' : list Card) ps :
  deal cols deck = Some (ps, deck') →
  card_id <$> (concat ps ++ deck') ≡ₚ card_id <$> deck
  ∧ length ps = length cols.
Proof.
  revert deck ps. induction cols as [|col cols IH]; intros deck ps; cbn [deal].
  - by intros [= <- <-].
  - destruct (deal_pile (S col) [] deck) as [[p deck1]|] eqn:E1; [|done].
    destruct (CardPile.set_top_hidden p false) as [p1|] eqn:E2; [|done].
    destruct (deal cols deck1) as [[ps1 deck2]|] eqn:E3; [|done].
    intros [= <- <-].
    destruct (IH _ _ E3) as [IH1 IH2].
    destruct (deal_pile_spec _ _ _ _ _ E1) as (popped & -> & -> & _).
    apply CardPileFacts.set_top_hidden_ids in E2. simpl in *.
    split; [|by rewrite IH2].
    rewrite <-app_assoc, (fmap_app _ p1), E2, IH1.
    rewrite fmap_app, (Permutation_app_comm (card_id <$> deck1)).
    by rewrite fmap_reverse, reverse_Permutation.
Qed.

Lemma deal_total (cols : list nat) (deck : list Card) :
  (staircase cols ≤ length deck)%nat → is_Some (deal cols deck).
Proof.
  revert deck. induction cols as [|col cols IH]; intros deck Hc;
    cbn [deal staircase] in *.
  - by eexists.
  - destruct (deal_pile_total (S col) [] deck) as (p & deck1 & E & H1 & H2);
      [lia|].
    rewrite E.
    destruct (snoc_cases p) as [->|(r & c & ->)]; [simpl in H2; lia|].
    rewrite CardPileFacts.set_top_hidden_snoc.
    destruct (IH deck1) as [[ps deck2] ->]; [lia|]. by eexists.
Qed.

Lemma staircase_seq (a n : nat) :
  (2 * staircase (seq a n) = n * (2 * a + n + 1))%nat.
Proof.
  revert a. induction n as [|n IH]; intros a; simpl; [lia|].
  specialize (IH (S a)). lia.
Qed.

Lemma length_new_deck (m : Z) : length (new_deck m) = Z.to_nat (4 * m).
Proof.
  unfold new_deck, all_suits. simpl.
  rewrite !length_app, !length_fmap, !length_seqZ. simpl. lia.
Qed.

(** [__init__] does not raise for a top rank [>= 0] and a full deck. *)
Lemma init_total (m : Z) (shuffled : list Card) :
  0 ≤ m → shuffled ≡ₚ new_deck m → is_Some (init m shuffled).
Proof.
  intros Hm Hp. unfold init. rewrite bool_decide_false by lia.
  destruct (deal_total (seq 0 (Z.to_nat (Z.sqrt (4 * m)))) shuffled)
    as [[ps deck] ->]; [|by eexists].
  rewrite Hp, length_new_deck.
  pose proof (staircase_seq 0 (Z.to_nat (Z.sqrt (4 * m)))) as Hs.
  pose proof (Z.sqrt_spec (4 * m) ltac:(lia)) as [Hq _].
  pose proof (Z.sqrt_nonneg (4 * m)).
  set (n := Z.sqrt (4 * m)) in *. nia.
Qed.

(** The state [__init__] leaves. *)
Lemma init_spec (m : Z) (shuffled : list Card) (s : Solitaire) :
  init m shuffled = Some s →
  card_ids s ≡ₚ card_id <$> shuffled
  ∧ num_piles s = Z.to_nat (Z.sqrt (4 * m))
  ∧ max_rank s = m ∧ history s = [] ∧ waste s = []
  ∧ foundations s = empty_foundations
  ∧ face_up (stock s).
Proof.
  unfold init. case_bool_decide; [done|].
  destruct (deal _ shuffled) as [[ps deck]|] eqn:E; [|done].
  intros [= <-]. apply deal_spec in E as [E1 E2].
  rewrite length_seq in E2. unfold card_ids, all_cards, num_piles. simpl.
  repeat split; try done.
  - rewrite <-E1, !fmap_app, <-list_fmap_compose.
    by rewrite (Permutation_app_comm _ (card_id <$> deck)).
  - apply Forall_fmap, Forall_true. done.
Qed.

Lemma keeps_refl (s : Solitaire) : history s = [] → keeps s s.
Proof. intros E. repeat split; try done. rewrite E. constructor. Qed.

(** ** Colours and the placement rule *)

Lemma is_black_not_red (c : Card) : is_black c = negb (is_red c).
Proof. destruct c as [k [] h]; by vm_compute. Qed.

(** [is_valid_move]: the base card is face up, the colours differ, and the
    base is one rank below the card it is put on. *)
Lemma is_valid_move_true (card1 card2 : Card) :
  is_valid_move card1 card2 = true ↔
  hidden card1 = false
  ∧ is_red card1 = negb (is_red card2)
  ∧ rank card1 = rank card2 - 1.
Proof.
  unfold is_valid_move. rewrite !is_black_not_red.
  destruct (hidden card1), (is_red card1), (is_red card2); simpl;
    try case_bool_decide; intuition (congruence || lia).
Qed.

(** ** A concrete game *)

Lemma deck1_shuffled : deck1 ≡ₚ new_deck 13.
Proof.
  apply (bool_decide_unpack (deck1 ≡ₚ new_deck 13)). by vm_compute.
Defined.

Lemma fresh_dealt : init 13 deck1 = Some fresh.
Proof. by vm_compute. Defined.

(** The dealt tableau: seven piles, the top card of each face up; the
    stock holds the other 24 cards. *)
Example fresh_tableau :
  piles fresh
  = [[mkCard 1 CLUBS false];
     [mkCard 13 SPADES true; mkCard 2 HEARTS false];
     [mkCard 9 CLUBS true; mkCard 4 CLUBS true; mkCard 5 DIAMONDS false];
     [mkCard 3 DIAMONDS true; mkCard 8 CLUBS true; mkCard 7 DIAMONDS true;
      mkCard 13 CLUBS false];
     [mkCard 10 HEARTS true; mkCard 6 CLUBS true; mkCard 9 DIAMONDS true;
      mkCard 3 CLUBS true; mkCard 12 DIAMONDS false];
     [mkCard 8 DIAMONDS true; mkCard 2 SPADES true; mkCard 7 CLUBS true;
      mkCard 4 HEARTS true; mkCard 6 DIAMONDS true; mkCard 11 SPADES false];
     [mkCard 12 SPADES true; mkCard 10 SPADES true; mkCard 9 SPADES true;
      mkCard 8 SPADES true; mkCard 7 SPADES true; mkCard 6 SPADES true;
      mkCard 5 SPADES false]]
  ∧ length (stock fresh) = 24%nat
  ∧ history fresh = [].
Proof. by vm_compute. Qed.

(** * The claims *)

(** ** Completion (C10) *)

Lemma filter_hidden_nil (p : CardPile.t) :
  filter (λ x, hidden x = true) p = [] ↔ face_up p.
Proof.
  unfold face_up. induction p as [|c p IH]; [by split; [constructor|]|].
  rewrite filter_cons, Forall_cons, <-IH.
  case_decide as Hc.
  - split; [done|]. intros [? _]. congruence.
  - split; [|by intros [_ ?]].
    intros ?. split; [|done]. by destruct (hidden c).
Qed.

Lemma hidden_cards_nil (ps : list (list Card)) :
  concat (filter (λ x, hidden x = true) <$> ps) = [] ↔ Forall face_up ps.
Proof.
  induction ps as [|p ps IH]; [by split; [constructor|]|].
  rewrite fmap_cons, concat_cons. split.
  - intros [H1 H2]%app_eq_nil.
    constructor; [by apply filter_hidden_nil|by apply IH].
  - intros [H1 H2]%Forall_cons.
    apply filter_hidden_nil in H1. apply IH in H2. by rewrite H1, H2.
Qed.

(** C10. [is_complete] returns [True] exactly when the stock is empty, the
    waste is empty and every card of every tableau pile is face up; the
    foundations and the number of cards left in the tableau play no part. *)
Theorem is_complete_iff (s : Solitaire) :
  is_complete s = true ↔
  stock s = [] ∧ waste s = [] ∧ Forall face_up (piles s).
Proof.
  unfold is_complete.
  destruct (CardPile.is_empty (stock s)) eqn:Hs; simpl.
  2:{ split; [done|]. intros (E & _).
      apply CardPileFacts.is_empty_true in E. congruence. }
  destruct (CardPile.is_empty (waste s)) eqn:Hw; simpl.
  2:{ split; [done|]. intros (_ & E & _).
      apply CardPileFacts.is_empty_true in E. congruence. }
  apply CardPileFacts.is_empty_true in Hs, Hw.
  case_bool_decide as Hh.
  - split; [done|]. intros (_ & _ & Hf). by apply hidden_cards_nil in Hf.
  - split; [|done]. intros _. repeat split; try done.
    by apply hidden_cards_nil.
Qed.

(** ** [cut] and [peek] below the bottom of a pile (C9) *)

(** C9, the claim as stated fails: [cut(3)] on a pile of two cards is not
    rejected, it takes both cards and leaves the pile empty. *)
Lemma cut_beyond_size_takes_all :
  let p := [mkCard 7 HEARTS false; mkCard 6 SPADES false] in
  CardPile.size p < 3
  ∧ (CardPile.cut p 3).1 = p
  ∧ (CardPile.cut p 3).2 = [].
Proof. by vm_compute. Qed.

(** C9, amended. For a pile of fewer than [n] cards, [peek(n)] raises (no
    card is produced) but [cut(n)] does not reject: it takes the whole
    pile; the test on the size is made by [move], which returns without
    touching anything before it calls either. For [1 <= n <= size],
    [peek(n)] is the base of the top [n] cards and [cut(n)] removes
    exactly those, in order. *)
Theorem cut_peek_bounds (p : CardPile.t) (n : Z) :
  (CardPile.size p < n →
   CardPile.peek p n = None
   ∧ CardPile.cut p n = (p, [])
   ∧ ∀ s o d, pile s o = p → move s o d n = Return PyNone s)
  ∧ (1 ≤ n ≤ CardPile.size p →
     ∃ a c b, p = a ++ c :: b ∧ CardPile.size (c :: b) = n
              ∧ CardPile.peek p n = Some c
              ∧ CardPile.cut p n = (c :: b, a)).
Proof.
  split.
  - intros Hn. split; [by apply CardPileFacts.peek_out|].
    split; [by apply CardPileFacts.cut_clamp|].
    intros s o d <-. unfold move. by rewrite bool_decide_true.
  - intros Hn. destruct (split_top p n Hn) as (a & c & b & -> & <-).
    exists a, c, b. repeat split.
    + apply CardPileFacts.peek_app.
    + by apply CardPileFacts.cut_app.
Qed.

Lemma cut_peek_bounds_witness :
  let p := [mkCard 7 HEARTS false; mkCard 6 SPADES false] in
  (CardPile.peek p 3 = None ∧ CardPile.cut p 3 = (p, []))
  ∧ ∃ a c b, p = a ++ c :: b ∧ CardPile.size (c :: b) = 2
             ∧ CardPile.peek p 2 = Some c
             ∧ CardPile.cut p 2 = (c :: b, a).
Proof.
  intros p. split.
  - destruct (proj1 (cut_peek_bounds p 3)) as (H1 & H2 & _);
      [by vm_compute|]. by split.
  - apply (proj2 (cut_peek_bounds p 2)). by vm_compute.
Defined.

(** ** Drawing and recycling (C4) *)

(** The deal leaves the stock face up and the waste empty. *)
Lemma init_face_up (m : Z) (shuffled : list Card) (s : Solitaire) :
  init m shuffled = Some s → face_up (stock s) ∧ face_up (waste s).
Proof.
  intros (_ & _ & _ & _ & -> & _ & H)%init_spec. split; [done|constructor].
Qed.

(** A draw command turns no card over. *)
Lemma draw_command_face_up (s : Solitaire) :
  face_up (stock s) → face_up (waste s) →
  face_up (stock (state_of (draw_command s)))
  ∧ face_up (waste (state_of (draw_command s))).
Proof.
  unfold face_up, draw_command. intros Hs Hw.
  destruct (snoc_cases (stock s)) as [E|(r & c & E)].
  - rewrite draw_stock_empty by done. simpl.
    split; [by apply Forall_reverse|constructor].
  - rewrite (draw_stock_top _ _ _ E). simpl.
    rewrite E in Hs. apply Forall_app in Hs as [Hr Hc].
    split; [done|]. by apply Forall_app.
Qed.

Lemma draws_face_up (m : Z) (shuffled : list Card) (s0 : Solitaire) k :
  init m shuffled = Some s0 →
  face_up (stock (draws k s0)) ∧ face_up (waste (draws k s0)).
Proof.
  intros Hi. induction k as [|k [IH1 IH2]]; [by eapply init_face_up|].
  by apply draw_command_face_up.
Qed.

(** What the draw command does ([draw()] and the ['d'] that
    [process_input] appends after it): with a card on the stock, that one
    card goes from the top of the stock to the top of the waste; with an
    empty stock, the whole waste goes back to the stock in reverse order,
    with no test on the cards; either way one [HDraw] entry is appended
    and nothing else changes. Drawing a whole stock and once more gives
    the stock back in its original order. [draw] turns no card over: the
    card moved is face up where the stock is face up, as the deal leaves
    it and as draw commands keep it. *)
Theorem draw_command_spec (s : Solitaire) :
  (∀ rest c, stock s = rest ++ [c] →
     draw_command s
     = Return PyNone
         (mkSolitaire rest (waste s ++ [c]) (foundations s) (max_rank s)
                      (piles s) (history s ++ [HDraw])))
  ∧ (stock s = [] →
     draw_command s
     = Return PyNone
         (mkSolitaire (reverse (waste s)) [] (foundations s) (max_rank s)
                      (piles s) (history s ++ [HDraw])))
  ∧ (waste s = [] →
     stock (draws (S (length (stock s))) s) = stock s
     ∧ waste (draws (S (length (stock s))) s) = [])
  ∧ (face_up (stock s) → face_up (waste s) →
     (∀ rest c, stock s = rest ++ [c] → hidden c = false)
     ∧ face_up (stock (state_of (draw_command s)))
     ∧ face_up (waste (state_of (draw_command s))))
  ∧ (∀ m shuffled s0 k,
       init m shuffled = Some s0 → s = draws k s0 →
       face_up (stock s) ∧ face_up (waste s)).
Proof.
  split; [|split; [|split; [|split]]].
  - intros rest c E. unfold draw_command. by rewrite (draw_stock_top _ _ _ E).
  - intros E. unfold draw_command. by rewrite draw_stock_empty.
  - intros Hw. destruct (draws_whole_stock s) as [H1 H2].
    rewrite Hw in H2. simpl in H2.
    change (draws (S (length (stock s))) s)
      with (state_of (draw_command (draws (length (stock s)) s))).
    unfold draw_command. rewrite draw_stock_empty by done. simpl.
    by rewrite H2, reverse_involutive.
  - intros Hs Hw. split; [|by apply draw_command_face_up].
    intros rest c E. rewrite E in Hs. apply Forall_app in Hs as [_ Hc].
    by rewrite Forall_singleton in Hc.
  - intros m shuffled s0 k Hi ->. by eapply draws_face_up.
Qed.

Lemma draw_command_spec_witness :
  draw_command fresh
  = Return PyNone
      (mkSolitaire (take 23 (stock fresh))
                   (waste fresh ++ [mkCard 4 SPADES false])
                   (foundations fresh) (max_rank fresh) (piles fresh)
                   (history fresh ++ [HDraw])).
Proof. apply (proj1 (draw_command_spec fresh)). by vm_compute. Defined.

(** C4. A card drawn face down. In the game dealt from [deck1] the player
    types [1 f], [d] five times, [w 4], [m-3 4 1] and [u] three times:
    the operations [hidden_draw_ops], each one a call that
    [process_input] makes on piles of the game. The move with the number
    -3 takes the king of clubs and the queen of hearts from pile 4 to the
    empty pile 1 and turns the seven of diamonds face up. The first [undo]
    turns the seven face down again and brings nothing back; the second
    hands the seven, face down, to the waste; the third puts it on the
    stock. The stock now has a face-down card on top, and [draw] moves it
    to the waste as it is: the card drawn is not face up. The lines typed
    to [play] give this very state. *)
Theorem draw_moves_face_down_card :
  let s := run fresh hidden_draw_ops in
  let c := mkCard 7 DIAMONDS true in
  Forall (typed_op fresh) hidden_draw_ops
  ∧ stock s = stock (state_of (draw s)) ++ [c]
  ∧ draw s = Return PyNone (state_of (draw s))
  ∧ waste (state_of (draw s)) = waste s ++ [c]
  ∧ ¬ face_up (waste (state_of (draw_command s)))
  ∧ @play_loop plain_str 17 (new_session fresh) hidden_draw_lines
    = Some (Fail EOFError
                 (mkSession (state_of (draw_command s)) 13 DEFAULT) []).
Proof.
  cbv zeta. split; [|split; [|split; [|split; [|split]]]].
  - unfold hidden_draw_ops.
    repeat (apply Forall_cons; split;
            [vm_compute; repeat split; (lia || done)|]).
    by apply Forall_nil.
  - vm_compute. reflexivity.
  - vm_compute. reflexivity.
  - vm_compute. reflexivity.
  - unfold face_up.
    apply (bool_decide_eq_false_1
             (Forall (λ c, hidden c = false)
                     (waste (state_of (draw_command
                                         (run fresh hidden_draw_ops)))))).
    vm_compute. reflexivity.
  - vm_compute. reflexivity.
Qed.

(** ** Accepted moves *)

(** The state an accepted move of the cards [q] from [o] to [d] leaves. *)
Lemma after_record_move (s : Solitaire) o d (p q : CardPile.t) n v :
  valid_ref s o → valid_ref s d → o ≠ d →
  ∃ s', record_move (set_pile (set_pile s o p) d (pile s d ++ q)) o d n v
        = Return v s'
        ∧ pile s' o = reveal p
        ∧ pile s' d = pile s d ++ q
        ∧ (∀ r, r ≠ o → r ≠ d → pile s' r = pile s r)
        ∧ history s' = history s ++ [HMove o d n (top_hidden p)]
        ∧ max_rank s' = max_rank s
        ∧ num_piles s' = num_piles s.
Proof.
  intros Ho Hd Hne. eexists. split; [apply record_move_eq|].
  set (s2 := set_pile (set_pile s o p) d (pile s d ++ q)).
  assert (pile s2 o = p) as Hp.
  { unfold s2. rewrite pile_set_pile_ne by done. by apply pile_set_pile_eq. }
  assert (valid_ref s2 o) as Ho2
    by (unfold s2; by rewrite !valid_ref_set_pile).
  unfold history_append. rewrite Hp. repeat split.
  - rewrite pile_set_pile_eq; [done|]. by rewrite valid_ref_set_history.
  - rewrite pile_set_pile_ne, pile_set_history by done.
    unfold s2. apply pile_set_pile_eq. by rewrite valid_ref_set_pile.
  - intros r Hro Hrd. rewrite pile_set_pile_ne, pile_set_history by done.
    unfold s2. by rewrite !pile_set_pile_ne.
  - rewrite history_set_pile. simpl. unfold s2.
    by rewrite !history_set_pile.
  - rewrite max_rank_set_pile. simpl. unfold s2.
    by rewrite !max_rank_set_pile.
  - rewrite num_piles_set_pile, num_piles_set_history. unfold s2.
    by rewrite !num_piles_set_pile.
Qed.

(** ** Moves to a foundation (C7) *)

(** C7. For a pile with top card [c], [move_to_foundation] is accepted
    (and then returns [True]) exactly when the foundation of the suit of
    [c] is empty and [c] has rank 1, or that foundation has a top card of
    rank [rank c - 1]. When accepted, exactly the card [c] leaves the pile
    and lands on top of the foundation of its own suit; the pile's new top
    card is turned face up, one history entry for one card is pushed, and
    no other pile changes. Otherwise the method returns [False] and the
    state is untouched. *)
Theorem move_to_foundation_iff (s : Solitaire) (p : PileRef)
        (r : CardPile.t) (c : Card) :
  valid_ref s p →
  pile s p = r ++ [c] →
  let f := Foundation (suit c) in
  let out := move_to_foundation s p in
  (accepts s out = true ↔
   (pile s f = [] ∧ rank c = 1)
   ∨ (∃ fr top, pile s f = fr ++ [top] ∧ rank top = rank c - 1))
  ∧ (accepts s out = true →
     out = Return PyTrue (state_of out)
     ∧ pile (state_of out) p = reveal r
     ∧ pile (state_of out) f = pile s f ++ [c]
     ∧ (∀ q, q ≠ p → q ≠ f → pile (state_of out) q = pile s q)
     ∧ history (state_of out) = history s ++ [HMove p f 1 (top_hidden r)])
  ∧ (accepts s out = false → out = Return PyFalse s).
Proof.
  intros Hp E. cbv zeta.
  destruct (decide (p = Foundation (suit c))) as [->|Hne].
  { rewrite (move_to_foundation_self _ _ _ _ E eq_refl).
    rewrite accepts_same. repeat split; try done.
    intros [[F _]|(fr & top & F & Hr)]; rewrite E in F.
    - by destruct r.
    - apply app_inj_tail in F as [_ <-]. lia. }
  rewrite (move_to_foundation_decide _ _ _ _ E).
  set (f := Foundation (suit c)) in *.
  assert (match py_pop (pile s f) with
          | None => bool_decide (rank c = 1)
          | Some (top, _) => bool_decide (rank top = rank c - 1)
          end = true ↔
          (pile s f = [] ∧ rank c = 1)
          ∨ (∃ fr top, pile s f = fr ++ [top] ∧ rank top = rank c - 1))
    as Hcond.
  { destruct (snoc_cases (pile s f)) as [F|(fr & top & F)]; rewrite F.
    - simpl. rewrite bool_decide_eq_true. split; [by left|].
      intros [[_ ?]|(fr & top & F' & _)]; [done|by destruct fr].
    - rewrite py_pop_snoc, bool_decide_eq_true. split; [by right; eauto|].
      intros [[F' _]|(fr' & top' & F' & Hr)]; [by destruct fr|].
      by apply app_inj_tail in F' as [_ <-]. }
  destruct (match py_pop (pile s f) with None => _ | Some _ => _ end).
  - rewrite (to_foundation_eq _ _ _ _ _ Hp Hne E). fold f.
    destruct (after_record_move s p f r [c] 1 PyTrue Hp I Hne)
      as (s' & -> & H1 & H2 & H3 & H4 & _).
    assert (accepts s (Return PyTrue s') = true) as Hacc.
    { unfold accepts. simpl. apply bool_decide_eq_true.
      rewrite H4, length_app. simpl. lia. }
    rewrite Hacc. simpl. repeat split; try done. by apply Hcond.
  - rewrite accepts_same. repeat split; try done.
    intros H. by apply Hcond in H.
Qed.

Lemma move_to_foundation_iff_witness :
  accepts fresh (move_to_foundation fresh (Tableau 0)) = true
  ∧ pile (state_of (move_to_foundation fresh (Tableau 0))) (Foundation CLUBS)
    = [mkCard 1 CLUBS false].
Proof.
  destruct (move_to_foundation_iff fresh (Tableau 0) [] (mkCard 1 CLUBS false))
    as (Hiff & Hacc & _); [vm_compute; lia|by vm_compute|].
  assert (accepts fresh (move_to_foundation fresh (Tableau 0)) = true) as H.
  { apply Hiff. left. by vm_compute. }
  split; [done|]. destruct (Hacc H) as (_ & _ & Hf & _). exact Hf.
Defined.

(** ** Moves between piles (C3, C5, C6) *)

(** Every call of [move] ends in one of four ways. *)
Lemma move_outcome (s : Solitaire) o d n :
  move s o d n = Return PyNone s
  ∨ move s o d n = Return PyFalse s
  ∨ move s o d n = Raise IndexError s
  ∨ move s o d n = record_move (transfer s o d n) o d n PyNone.
Proof. unfold move. repeat case_match; auto. Qed.

(** The move of the top cards [c :: b] of [o] onto the card [top]. *)
Lemma move_onto_card_eq (s : Solitaire) o d (a b r : CardPile.t) c top :
  pile s o = a ++ c :: b → pile s d = r ++ [top] → pile s o ≠ pile s d →
  move s o d (CardPile.size (c :: b)) =
  if is_valid_move c top
  then record_move (transfer s o d (CardPile.size (c :: b))) o d
                   (CardPile.size (c :: b)) PyNone
  else Return PyFalse s.
Proof.
  intros Eo Ed Hne. rewrite move_decide; [|rewrite Eo|done].
  - by rewrite Eo, CardPileFacts.peek_app, Ed, py_pop_snoc.
  - rewrite CardPileFacts.size_app.
    pose proof (CardPileFacts.size_nonneg a). lia.
Qed.

(** The move of the top cards [c :: b] of [o] onto an empty pile. *)
Lemma move_onto_empty_eq (s : Solitaire) o d (a b : CardPile.t) c :
  pile s o = a ++ c :: b → pile s d = [] →
  move s o d (CardPile.size (c :: b)) =
  if bool_decide (rank c = max_rank s)
  then record_move (transfer s o d (CardPile.size (c :: b))) o d
                   (CardPile.size (c :: b)) PyNone
  else Raise IndexError s.
Proof.
  intros Eo Ed. rewrite move_decide.
  - by rewrite Eo, CardPileFacts.peek_app, Ed.
  - rewrite Eo, CardPileFacts.size_app.
    pose proof (CardPileFacts.size_nonneg a). lia.
  - rewrite Eo, Ed. by destruct a.
Qed.

(** C6, the claim as stated fails for a move of several cards. In the
    game dealt from [deck1] the jack of spades has gone from pile 6 onto
    the queen of diamonds on pile 5; queen and jack are then asked
    together onto the king of clubs on pile 4. The move is accepted, and
    the new top of the destination is the jack: two ranks below the king
    and of its colour. *)
Lemma two_card_move_new_top :
  let s' := state_of (move fresh_run (Tableau 4) (Tableau 3) 2) in
  accepts fresh (move fresh (Tableau 5) (Tableau 4) 1) = true
  ∧ CardPile.cut (pile fresh_run (Tableau 4)) 2
    = ([mkCard 12 DIAMONDS false; mkCard 11 SPADES false],
       [mkCard 10 HEARTS true; mkCard 6 CLUBS true; mkCard 9 DIAMONDS true;
        mkCard 3 CLUBS true])
  ∧ CardPile.peek (pile fresh_run (Tableau 3)) 1
    = Some (mkCard 13 CLUBS false)
  ∧ accepts fresh_run (move fresh_run (Tableau 4) (Tableau 3) 2) = true
  ∧ CardPile.peek (pile s' (Tableau 3)) 1 = Some (mkCard 11 SPADES false)
  ∧ 11 ≠ 13 - 1
  ∧ is_red (mkCard 11 SPADES false) = is_red (mkCard 13 CLUBS false).
Proof. by vm_compute. Qed.

(** C6, amended. A transfer of the top cards [c :: b] of a pile onto
    another, non-empty pile with top card [top], the base card [c] being
    face up, is accepted exactly when [c] and [top] have opposite colours
    and the rank of [c] is one less than the rank of [top]. After an
    accepted transfer the moved cards lie on the destination in their
    order, so it is the base card [c], placed directly on [top], that is
    one rank below it and of the other colour; [c] is the new top card
    only when a single card is moved. A refused transfer returns [False]
    and leaves the state as it was. *)
Theorem move_onto_card_iff (s : Solitaire) (o d : PileRef)
        (a b r : CardPile.t) (c top : Card) :
  valid_ref s o → valid_ref s d →
  pile s o = a ++ c :: b →
  pile s d = r ++ [top] →
  pile s o ≠ pile s d →
  hidden c = false →
  let out := move s o d (CardPile.size (c :: b)) in
  (accepts s out = true ↔
   is_red c = negb (is_red top) ∧ rank c = rank top - 1)
  ∧ (accepts s out = true →
     pile (state_of out) d = r ++ [top] ++ c :: b
     ∧ pile (state_of out) o = reveal a
     ∧ (b = [] → CardPile.peek (pile (state_of out) d) 1 = Some c))
  ∧ (accepts s out = false → out = Return PyFalse s).
Proof.
  intros Ho Hd Eo Ed Hne Hc. cbv zeta.
  assert (o ≠ d) as Hod by (intros ->; done).
  rewrite (move_onto_card_eq _ _ _ _ _ _ _ _ Eo Ed Hne).
  pose proof (is_valid_move_true c top) as Hv.
  destruct (is_valid_move c top).
  - rewrite (transfer_app s o d a (c :: b)) by done.
    destruct (after_record_move s o d a (c :: b)
                (CardPile.size (c :: b)) PyNone Ho Hd Hod)
      as (s' & -> & H1 & H2 & H3 & H4 & _).
    assert (accepts s (Return PyNone s') = true) as Hacc.
    { unfold accepts. simpl. apply bool_decide_eq_true.
      rewrite H4, length_app. simpl. lia. }
    rewrite Hacc. simpl. rewrite H1, H2, Ed, <-app_assoc.
    repeat split; try done.
    + by apply Hv.
    + by apply Hv.
    + intros ->. by rewrite app_assoc, CardPileFacts.peek_snoc.
  - rewrite accepts_same. repeat split; try done.
    intros [? ?]. by apply Hv.
Qed.

Lemma move_onto_card_iff_witness :
  pile (state_of (move fresh_run (Tableau 4) (Tableau 3) 2)) (Tableau 3)
  = [mkCard 3 DIAMONDS true; mkCard 8 CLUBS true; mkCard 7 DIAMONDS true;
     mkCard 13 CLUBS false; mkCard 12 DIAMONDS false; mkCard 11 SPADES false].
Proof.
  destruct (move_onto_card_iff fresh_run (Tableau 4) (Tableau 3)
              [mkCard 10 HEARTS true; mkCard 6 CLUBS true;
               mkCard 9 DIAMONDS true; mkCard 3 CLUBS true]
              [mkCard 11 SPADES false]
              [mkCard 3 DIAMONDS true; mkCard 8 CLUBS true;
               mkCard 7 DIAMONDS true]
              (mkCard 12 DIAMONDS false) (mkCard 13 CLUBS false))
    as (Hiff & Hacc & _);
    [vm_compute; lia|vm_compute; lia|by vm_compute|by vm_compute|
     by vm_compute|by vm_compute|].
  apply Hacc, Hiff. by vm_compute.
Defined.

(** C3, the claim as stated fails. In the game dealt from [deck1], once
    pile 1 is empty, the five of diamonds on top of pile 3 is asked onto
    it: the request is refused by an [IndexError], raised by [peek] on the
    empty destination (line 259), not by a returned value. *)
Lemma rank5_onto_empty_raises :
  CardPile.peek (pile fresh_ace_away (Tableau 2)) 1
  = Some (mkCard 5 DIAMONDS false)
  ∧ pile fresh_ace_away (Tableau 0) = []
  ∧ move fresh_ace_away (Tableau 2) (Tableau 0) 1
    = Raise IndexError fresh_ace_away
  ∧ raised (move fresh_ace_away (Tableau 2) (Tableau 0) 1) = true.
Proof. by vm_compute. Qed.

(** C3, amended. A transfer request that is not accepted leaves the piles,
    the flags and the history exactly as they were, whatever the piles and
    the number. It is refused by a returned value in three cases: [None]
    when the origin holds fewer cards than asked for, [None] when origin
    and destination are equal, [False] when the base card may not be put
    on the top card of a non-empty destination. A base card that is not of
    the top rank, asked onto an empty destination, is refused by an
    [IndexError] ([play] catches it, lines 381-384). *)
Theorem rejected_move_no_change (s : Solitaire) (o d : PileRef) (n : Z) :
  (accepts s (move s o d n) = false → state_of (move s o d n) = s)
  ∧ (CardPile.size (pile s o) < n → move s o d n = Return PyNone s)
  ∧ (¬ CardPile.size (pile s o) < n → pile s o = pile s d →
     move s o d n = Return PyNone s)
  ∧ (∀ a c b r top,
       pile s o = a ++ c :: b → n = CardPile.size (c :: b) →
       pile s d = r ++ [top] → pile s o ≠ pile s d →
       is_valid_move c top = false →
       move s o d n = Return PyFalse s)
  ∧ (∀ a c b,
       pile s o = a ++ c :: b → n = CardPile.size (c :: b) →
       pile s d = [] → rank c ≠ max_rank s →
       move s o d n = Raise IndexError s).
Proof.
  split; [|split; [|split; [|split]]].
  - intros Hacc.
    destruct (move_outcome s o d n) as [H|[H|[H|H]]]; rewrite H; try done.
    rewrite H, accepts_record_move in Hacc; [done|].
    apply history_transfer.
  - intros Hn. unfold move. by rewrite bool_decide_true.
  - intros Hn Heq. unfold move. rewrite bool_decide_false by done.
    apply CardPileFacts.eq_true in Heq. by rewrite Heq.
  - intros a c b r top Eo -> Ed Hne Hv.
    by rewrite (move_onto_card_eq _ _ _ _ _ _ _ _ Eo Ed Hne), Hv.
  - intros a c b Eo -> Ed Hr.
    rewrite (move_onto_empty_eq _ _ _ _ _ _ Eo Ed).
    by rewrite bool_decide_false.
Qed.

Lemma rejected_move_no_change_witness :
  let s := fresh_ace_away in
  state_of (move s (Tableau 2) (Tableau 0) 1) = s
  ∧ move s (Tableau 1) (Tableau 2) 3 = Return PyNone s
  ∧ move s (Tableau 1) (Tableau 1) 1 = Return PyNone s
  ∧ move s (Tableau 2) (Tableau 1) 1 = Return PyFalse s
  ∧ move s (Tableau 2) (Tableau 0) 1 = Raise IndexError s.
Proof.
  intros s. split; [|split; [|split; [|split]]].
  - apply (proj1 (rejected_move_no_change s (Tableau 2) (Tableau 0) 1)).
    by vm_compute.
  - apply (proj1 (proj2 (rejected_move_no_change s (Tableau 1) (Tableau 2) 3))).
    by vm_compute.
  - apply (proj1 (proj2 (proj2
             (rejected_move_no_change s (Tableau 1) (Tableau 1) 1))));
      by vm_compute.
  - apply (proj1 (proj2 (proj2 (proj2
             (rejected_move_no_change s (Tableau 2) (Tableau 1) 1))))
             [mkCard 9 CLUBS true; mkCard 4 CLUBS true]
             (mkCard 5 DIAMONDS false) []
             [mkCard 13 SPADES true] (mkCard 2 HEARTS false));
      by vm_compute.
  - apply (proj2 (proj2 (proj2 (proj2
             (rejected_move_no_change s (Tableau 2) (Tableau 0) 1))))
             [mkCard 9 CLUBS true; mkCard 4 CLUBS true]
             (mkCard 5 DIAMONDS false) []);
      by vm_compute.
Defined.

(** On a non-empty destination the rule on the base card is enforced: an
    accepted transfer has a face-up base card. *)
Lemma accepted_onto_card_base_face_up (s : Solitaire) o d
      (a b r : CardPile.t) c top :
  pile s o = a ++ c :: b → pile s d = r ++ [top] →
  accepts s (move s o d (CardPile.size (c :: b))) = true →
  hidden c = false.
Proof.
  intros Eo Ed Hacc.
  destruct (decide (pile s o = pile s d)) as [Heq|Hne].
  { unfold move in Hacc. apply CardPileFacts.eq_true in Heq.
    rewrite Heq in Hacc. case_bool_decide; by rewrite accepts_same in Hacc. }
  rewrite (move_onto_card_eq _ _ _ _ _ _ _ _ Eo Ed Hne) in Hacc.
  destruct (is_valid_move c top) eqn:Hv.
  - by apply is_valid_move_true in Hv as [? _].
  - by rewrite accepts_same in Hacc.
Qed.

(** C5, the code at the failing input. In the game dealt from [deck1],
    once pile 1 is empty, the two cards of pile 2 are asked onto it. The
    base card is the king of spades, still face down; the branch for an
    empty destination (lines 255-257) tests its rank only, and the move is
    accepted: the face-down king now lies on pile 1. *)
Theorem hidden_king_onto_empty_accepted :
  init 13 deck1 = Some fresh
  ∧ accepts fresh (move_to_foundation fresh (Tableau 0)) = true
  ∧ pile fresh_ace_away (Tableau 0) = []
  ∧ pile fresh_ace_away (Tableau 1)
    = [mkCard 13 SPADES true; mkCard 2 HEARTS false]
  ∧ CardPile.peek (pile fresh_ace_away (Tableau 1)) 2
    = Some (mkCard 13 SPADES true)
  ∧ accepts fresh_ace_away (move fresh_ace_away (Tableau 1) (Tableau 0) 2)
    = true
  ∧ pile (state_of (move fresh_ace_away (Tableau 1) (Tableau 0) 2))
         (Tableau 0)
    = [mkCard 13 SPADES true; mkCard 2 HEARTS false].
Proof. by vm_compute. Qed.

(** C8, the code at the failing input. In the game dealt from [deck1], a
    move of 0 cards from pile 1 to pile 2 (the command [m0]): [peek(0)]
    is the bottom card of pile 1, the ace of clubs, which fits the two of
    hearts; [cut(0)] takes the whole pile; the move is carried out and an
    entry with the number 0 is pushed. *)
Theorem zero_count_move_accepted :
  init 13 deck1 = Some fresh
  ∧ pile fresh (Tableau 0) = [mkCard 1 CLUBS false]
  ∧ pile fresh (Tableau 1) = [mkCard 13 SPADES true; mkCard 2 HEARTS false]
  ∧ history fresh = []
  ∧ raised (move fresh (Tableau 0) (Tableau 1) 0) = false
  ∧ pile (state_of (move fresh (Tableau 0) (Tableau 1) 0)) (Tableau 0) = []
  ∧ pile (state_of (move fresh (Tableau 0) (Tableau 1) 0)) (Tableau 1)
    = [mkCard 13 SPADES true; mkCard 2 HEARTS false; mkCard 1 CLUBS false]
  ∧ history (state_of (move fresh (Tableau 0) (Tableau 1) 0))
    = [HMove (Tableau 0) (Tableau 1) 0 false].
Proof. by vm_compute. Qed.

(** A negative number passes the guard as well. With pile 1 empty, a move
    of -3 cards from pile 4 (four cards, the king of clubs on top) to
    pile 1: [peek(-3)] is [items[3]], the king; [cut(-3)] takes
    [items[3:]] and leaves [items[:3]]. The king is moved and an entry
    with the number -3 is pushed; [undo] then hides the seven of diamonds
    again but brings nothing back, since [cut(-3)] of pile 1 is empty. *)
Lemma negative_count_move_accepted :
  let out := move fresh_ace_away (Tableau 3) (Tableau 0) (-3) in
  accepts fresh_ace_away out = true
  ∧ pile (state_of out) (Tableau 0) = [mkCard 13 CLUBS false]
  ∧ history (state_of out)
    = [HMove (Tableau 0) (Foundation CLUBS) 1 false;
       HMove (Tableau 3) (Tableau 0) (-3) true]
  ∧ pile (state_of (undo (state_of out))) (Tableau 0)
    = [mkCard 13 CLUBS false]
  ∧ pile (state_of (undo (state_of out))) (Tableau 3)
    = [mkCard 3 DIAMONDS true; mkCard 8 CLUBS true; mkCard 7 DIAMONDS true].
Proof. by vm_compute. Qed.

(** C1, the code at the failing input. After the accepted move of 0 cards
    of [zero_count_move_accepted], [undo] cuts 0 cards from pile 2, that
    is the whole pile, and puts them on pile 1: the state before the move
    is not restored. *)
Theorem undo_after_zero_count_move :
  let s' := state_of (move fresh (Tableau 0) (Tableau 1) 0) in
  init 13 deck1 = Some fresh
  ∧ accepts fresh (move fresh (Tableau 0) (Tableau 1) 0) = true
  ∧ raised (undo s') = false
  ∧ state_of (undo s') ≠ fresh
  ∧ pile fresh (Tableau 0) = [mkCard 1 CLUBS false]
  ∧ pile fresh (Tableau 1) = [mkCard 13 SPADES true; mkCard 2 HEARTS false]
  ∧ pile (state_of (undo s')) (Tableau 0)
    = [mkCard 13 SPADES true; mkCard 2 HEARTS false; mkCard 1 CLUBS false]
  ∧ pile (state_of (undo s')) (Tableau 1) = [].
Proof. by vm_compute. Qed.

(** ** Conservation (C2) *)

(** The deck holds one card for every rank and suit. *)
Lemma NoDup_new_deck (m : Z) : NoDup (card_id <$> new_deck m).
Proof.
  unfold new_deck, all_suits. simpl.
  rewrite app_nil_r, !fmap_app, <-!list_fmap_compose.
  assert (∀ u, NoDup ((card_id ∘ (λ r, new_Card r u)) <$> seqZ 1 m)) as Hu.
  { intros u. apply NoDup_fmap_2; [|apply NoDup_seqZ].
    by intros x y [= ->]. }
  assert (∀ u x, x ∈ (card_id ∘ (λ r, new_Card r u)) <$> seqZ 1 m → x.2 = u)
    as Hs.
  { intros u x (y & -> & _)%list_elem_of_fmap. done. }
  repeat (apply NoDup_app; split; [apply Hu|split; [|try apply Hu]]).
  all: intros x Hx Hy; apply Hs in Hx; rewrite ?elem_of_app in Hy.
  all: destruct_or?; apply Hs in Hy; congruence.
Qed.

(** C2. A deal of any shuffle of the deck succeeds, and after every
    sequence of operations on the dealt game ([move] and
    [move_to_foundation] on piles of the game with any number, [draw], the
    draw command, [undo]; accepted, refused or ended by an exception) the
    cards of all the piles together are the cards of the deck, each one
    once: [4 * max_rank] cards, none created, none lost. *)
Theorem conservation (m : Z) (shuffled : list Card) :
  0 ≤ m →
  shuffled ≡ₚ new_deck m →
  ∃ s0, init m shuffled = Some s0
        ∧ ∀ ops, Forall (valid_op s0) ops →
                 card_ids (run s0 ops) ≡ₚ card_id <$> new_deck m
                 ∧ NoDup (card_ids (run s0 ops))
                 ∧ Z.of_nat (length (all_cards (run s0 ops))) = 4 * m.
Proof.
  intros Hm Hp. destruct (init_total m shuffled Hm Hp) as [s0 Hi].
  exists s0. split; [done|]. intros ops Hops.
  pose proof (init_spec _ _ _ Hi) as (Hc & _ & _ & Hh & _).
  pose proof (keeps_run s0 s0 ops (keeps_refl s0 Hh) Hops) as (_ & Hk & _).
  assert (card_ids (run s0 ops) ≡ₚ card_id <$> new_deck m) as Hids
    by by rewrite Hk, Hc, Hp.
  split; [done|]. split.
  - rewrite Hids. apply NoDup_new_deck.
  - apply Permutation_length in Hids. unfold card_ids in Hids.
    rewrite !length_fmap, length_new_deck in Hids. lia.
Qed.

Lemma conservation_witness :
  ∃ s0, init 13 deck1 = Some s0
        ∧ card_ids (run s0 [OMove (Tableau 0) (Tableau 1) 0; OUndo;
                            ODrawCommand; OMoveToFoundation (Tableau 0);
                            OMove (Tableau 1) (Tableau 0) (-1)])
          ≡ₚ card_id <$> new_deck 13.
Proof.
  destruct (conservation 13 deck1 ltac:(lia) deck1_shuffled) as (s0 & Hi & H).
  exists s0. split; [done|]. apply H.
  assert (s0 = fresh) as -> by (pose proof fresh_dealt; congruence).
  repeat constructor; vm_compute; lia.
Defined.

(** * Further properties *)

(** ** What every call keeps *)

Lemma num_piles_transfer (s : Solitaire) o d n :
  num_piles (transfer s o d n) = num_piles s.
Proof. rewrite transfer_relocate. apply num_piles_relocate. Qed.

Lemma max_rank_transfer (s : Solitaire) o d n :
  max_rank (transfer s o d n) = max_rank s.
Proof. rewrite transfer_eq. simpl. by rewrite !max_rank_set_pile. Qed.

Lemma record_move_fixed (s : Solitaire) o d n v :
  num_piles (state_of (record_move s o d n v)) = num_piles s
  ∧ max_rank (state_of (record_move s o d n v)) = max_rank s.
Proof.
  rewrite record_move_eq. simpl.
  by rewrite num_piles_set_pile, max_rank_set_pile.
Qed.

(** [move_to_foundation] ends in one of three ways; it never raises. *)
Lemma move_to_foundation_outcome (s : Solitaire) p :
  (pile s p = [] ∧ move_to_foundation s p = Return PyNone s)
  ∨ (pile s p ≠ [] ∧ move_to_foundation s p = Return PyFalse s)
  ∨ (∃ r c, pile s p = r ++ [c]
            ∧ move_to_foundation s p
              = record_move (relocate s p (Foundation (suit c)) r [c])
                            p (Foundation (suit c)) 1 PyTrue).
Proof.
  destruct (snoc_cases (pile s p)) as [E|(r & c & E)].
  - left. split; [done|]. unfold move_to_foundation. by rewrite E.
  - right. rewrite (move_to_foundation_decide _ _ _ _ E).
    destruct (match py_pop _ with None => _ | Some _ => _ end).
    + right. exists r, c. split; [done|].
      unfold to_foundation. by rewrite E, CardPileFacts.remove_top_snoc.
    + left. split; [|done]. rewrite E. by destruct r.
Qed.

Lemma step_fixed (s : Solitaire) (op : Op) :
  num_piles (state_of (step s op)) = num_piles s
  ∧ max_rank (state_of (step s op)) = max_rank s.
Proof.
  destruct op as [o d n|p| | |]; simpl.
  - destruct (move_outcome s o d n) as [H|[H|[H|H]]]; rewrite H; try done.
    destruct (record_move_fixed (transfer s o d n) o d n PyNone) as [-> ->].
    by rewrite num_piles_transfer, max_rank_transfer.
  - destruct (move_to_foundation_outcome s p)
      as [[_ H]|[[_ H]|(r & c & _ & H)]]; rewrite H; try done.
    destruct (record_move_fixed (relocate s p (Foundation (suit c)) r [c])
                p (Foundation (suit c)) 1 PyTrue) as [-> ->].
    rewrite num_piles_relocate. unfold relocate. simpl.
    by rewrite !max_rank_set_pile.
  - destruct (snoc_cases (stock s)) as [E|(r & c & E)].
    + by rewrite draw_stock_empty.
    + by rewrite (draw_stock_top _ _ _ E).
  - unfold draw_command.
    destruct (snoc_cases (stock s)) as [E|(r & c & E)].
    + by rewrite draw_stock_empty.
    + by rewrite (draw_stock_top _ _ _ E).
  - unfold undo. destruct (py_pop (history s)) as [[e h]|]; [|done].
    set (s1 := set_history s h). destruct e as [|o d n hid].
    + destruct (CardPile.is_empty (waste s1)).
      * by destruct (CardPile.cut (stock s1) (CardPile.size (stock s1))).
      * by destruct (CardPile.remove_top (waste s1)) as [[c rest]|].
    + destruct (if hid then _ else _); [|done]. simpl.
      rewrite num_piles_transfer, max_rank_transfer.
      by rewrite num_piles_set_pile, max_rank_set_pile.
Qed.

(** ** Refused and accepted operations *)

Lemma accepts_history (s : Solitaire) (out : Outcome) :
  accepts s out = true →
  length (history (state_of out)) = S (length (history s)).
Proof.
  unfold accepts. intros [_ H]%andb_true_iff.
  by apply bool_decide_eq_true in H.
Qed.

Lemma draw_command_accepted (s : Solitaire) :
  accepts s (draw_command s) = true.
Proof.
  unfold draw_command, accepts.
  destruct (snoc_cases (stock s)) as [E|(r & c & E)].
  - rewrite draw_stock_empty by done. simpl. apply bool_decide_eq_true.
    rewrite length_app. simpl. lia.
  - rewrite (draw_stock_top _ _ _ E). simpl. apply bool_decide_eq_true.
    rewrite length_app. simpl. lia.
Qed.

(** A move or a move to the foundation that is not accepted changes
    nothing. *)
Lemma step_refused (s : Solitaire) (op : Op) :
  op ≠ OUndo → op ≠ ODraw →
  accepts s (step s op) = false → state_of (step s op) = s.
Proof.
  intros Hu Hd Hacc. destruct op as [o d n|p| | |]; simpl in *; try done.
  - destruct (move_outcome s o d n) as [H|[H|[H|H]]]; rewrite H; try done.
    rewrite H, accepts_record_move in Hacc; [done|apply history_transfer].
  - destruct (move_to_foundation_outcome s p)
      as [[_ H]|[[_ H]|(r & c & _ & H)]]; rewrite H; try done.
    rewrite H, accepts_record_move in Hacc; [done|apply history_relocate].
  - by rewrite draw_command_accepted in Hacc.
Qed.

Lemma user_op_valid (s : Solitaire) (op : Op) :
  user_op s op → valid_op s op.
Proof.
  destruct op as [[| |u|i] [| |u'|j] n|[| |u|i]| | |]; simpl; try done;
    intuition.
Qed.

Lemma user_op_num_piles (s s' : Solitaire) (op : Op) :
  num_piles s' = num_piles s → user_op s op → user_op s' op.
Proof.
  intros E.
  destruct op as [[| |u|i] [| |u'|j] n|[| |u|i]| | |]; simpl; try done;
    by rewrite E.
Qed.

(** [undo] takes back an accepted operation of the player. *)
Lemma undo_step (s : Solitaire) (op : Op) :
  user_op s op → op ≠ OUndo →
  accepts s (step s op) = true →
  undo (state_of (step s op)) = Return PyNone s.
Proof.
  intros Hop Hu Hacc. pose proof (user_op_valid s op Hop) as Hv.
  destruct op as [o d n|p| | |]; simpl in *; try done.
  - destruct Hv. apply undo_move; try done.
    destruct o as [| |u|i], d as [| |u'|j]; simpl in Hop; try done; lia.
  - by apply undo_move_to_foundation.
  - apply undo_draw_command.
Qed.

(** ** Play with and without undo *)

Lemma played_fixed (s0 s : Solitaire) :
  played s0 s → num_piles s = num_piles s0 ∧ max_rank s = max_rank s0.
Proof.
  induction 1 as [|s op _ [IH1 IH2] _ _ _]; [done|].
  destruct (step_fixed s op) as [-> ->]. done.
Qed.

Lemma played_history (s0 s : Solitaire) :
  history s0 = [] → played s0 s → history s = [] → s = s0.
Proof.
  intros H0. destruct 1 as [|s op _ _ _ Hacc]; [done|].
  apply accepts_history in Hacc. intros E. rewrite E in Hacc. done.
Qed.

(** Whatever the player does next, the game stays among the states that
    accepted operations alone lead to: [undo] goes back to the state
    before the last accepted operation, a refused request changes
    nothing. *)
Lemma played_closed (s0 s : Solitaire) (op : Op) :
  history s0 = [] → played s0 s → user_op s op →
  played s0 (state_of (step s op)).
Proof.
  intros H0 Hp Hop. destruct (decide (op = OUndo)) as [->|Hu].
  - simpl. destruct Hp as [|s' op' Hp' Hop' Hu' Hacc'].
    + unfold undo. rewrite H0. apply played_start.
    + by rewrite undo_step.
  - destruct (accepts s (step s op)) eqn:Hacc.
    + by apply played_step.
    + rewrite step_refused; try done. by destruct op.
Qed.

Lemma played_run (s0 : Solitaire) (ops : list Op) :
  history s0 = [] → Forall (user_op s0) ops → played s0 (run s0 ops).
Proof.
  intros H0 Hops.
  assert (∀ s, played s0 s → played s0 (run s ops)) as H;
    [|apply H, played_start].
  induction Hops as [|op ops Hop _ IH]; intros s Hp; [done|].
  simpl. apply IH, played_closed; try done.
  apply (user_op_num_piles s0); [|done]. by apply played_fixed in Hp as [-> _].
Qed.

Lemma undo_all_played (s0 s : Solitaire) :
  history s0 = [] → played s0 s →
  run s (replicate (length (history s)) OUndo) = s0.
Proof.
  intros H0. induction 1 as [|s op Hp IH Hop Hu Hacc].
  - by rewrite H0.
  - rewrite (accepts_history _ _ Hacc). simpl.
    by rewrite undo_step.
Qed.

(** ** Piles in order *)

Lemma chain_app (a b : list Card) :
  chain (a ++ b) ↔
  chain a ∧ chain b
  ∧ (∀ x y, last a = Some x → head b = Some y → is_valid_move y x = true).
Proof.
  induction a as [|c a IH]; simpl.
  - split; [intros H; repeat split; [done|done]|by intros (_ & ? & _)].
  - destruct a as [|c' a]; simpl in *.
    + destruct b as [|y b]; simpl.
      * split; [intros _; repeat split; done|done].
      * split.
        -- intros [Hv Hb]. repeat split; try done. by intros x y' [= <-] [= <-].
        -- intros (_ & Hb & Hv). split; [by apply Hv|done].
    + rewrite IH. split.
      * intros (Hv & Ha & Hb & Hl). repeat split; done.
      * intros ((Hv & Ha) & Hb & Hl). repeat split; done.
Qed.

Lemma reveal_snoc (p : CardPile.t) c :
  reveal (p ++ [c]) = p ++ [set_hidden false c].
Proof. unfold reveal. by rewrite py_pop_snoc. Qed.

Lemma set_hidden_same (c : Card) : set_hidden (hidden c) c = c.
Proof. by destruct c. Qed.

(** Revealing the top of a pile whose top is face up changes nothing. *)
Lemma reveal_face_up (p : CardPile.t) : face_up p → reveal p = p.
Proof.
  destruct (snoc_cases p) as [->|(r & c & ->)]; [done|].
  intros [_ Hc]%Forall_app. rewrite Forall_singleton in Hc.
  by rewrite reveal_snoc, <-Hc, set_hidden_same.
Qed.

Lemma reveal_face_up_top (a k : CardPile.t) :
  k ≠ [] → face_up k → reveal (a ++ k) = a ++ k.
Proof.
  destruct (snoc_cases k) as [->|(r & c & ->)]; [done|].
  intros _ [_ Hc]%Forall_app. rewrite Forall_singleton in Hc.
  by rewrite app_assoc, reveal_snoc, <-Hc, set_hidden_same.
Qed.

Lemma pile_ok_nil : pile_ok [].
Proof. exists [], []. by repeat split; try constructor. Qed.

Lemma pile_ok_face_up (p : CardPile.t) : face_up p → chain p → pile_ok p.
Proof. intros. exists [], p. by repeat split; try constructor. Qed.

Lemma pile_ok_reveal_face_down (a : CardPile.t) :
  face_down a → pile_ok (reveal a).
Proof.
  destruct (snoc_cases a) as [->|(r & c & ->)]; [intros; apply pile_ok_nil|].
  intros [Hr _]%Forall_app. rewrite reveal_snoc.
  exists r, [set_hidden false c]. repeat split; try done.
  by repeat constructor.
Qed.

(** The top of a pile in order is face up. *)
Lemma pile_ok_top (p : CardPile.t) c : pile_ok (p ++ [c]) → hidden c = false.
Proof.
  intros (down & run & E & _ & Hr & _ & Hne).
  destruct (snoc_cases run) as [->|(r' & c' & ->)].
  - exfalso. apply Hne; [by destruct p|done].
  - rewrite app_assoc in E. apply app_inj_tail in E as [_ ->].
    apply Forall_app in Hr as [_ Hc]. by rewrite Forall_singleton in Hc.
Qed.

(** Cutting a pile in order leaves two piles in order, once the new top
    of the lower part is turned face up. *)
Lemma pile_ok_split (a b : CardPile.t) :
  pile_ok (a ++ b) → b ≠ [] → pile_ok b ∧ pile_ok (reveal a).
Proof.
  intros (down & run & E & Hd & Hr & Hc & Hne) Hb.
  apply app_eq_inv in E as [(k & -> & ->)|(k & -> & ->)].
  - apply Forall_app in Hr as [Hk Hb'].
    apply chain_app in Hc as (Hck & Hcb & _).
    split; [by apply pile_ok_face_up|].
    destruct (decide (k = [])) as [->|Hk'].
    + rewrite app_nil_r. by apply pile_ok_reveal_face_down.
    + rewrite reveal_face_up_top; [|done..].
      exists down, k. by repeat split.
  - apply Forall_app in Hd as [Ha Hk]. split.
    + exists k, run. repeat split; try done.
      intros _. apply Hne. intros E. by destruct a, k, run.
    + by apply pile_ok_reveal_face_down.
Qed.

(** Putting cards in order on a card their base may lie on keeps the pile
    in order. *)
Lemma pile_ok_onto (r b : CardPile.t) (top c : Card) :
  pile_ok (r ++ [top]) → pile_ok (c :: b) →
  is_valid_move c top = true →
  pile_ok ((r ++ [top]) ++ c :: b).
Proof.
  intros (down & run & E & Hd & Hr & Hc & Hne) (down' & run' & E' & Hd' & Hr' & Hc' & _) Hv.
  assert (down' = []) as ->.
  { destruct down' as [|x down']; [done|]. injection E' as <- _.
    apply Forall_cons in Hd' as [Hx _].
    apply is_valid_move_true in Hv as [? _]. congruence. }
  simpl in E'. subst run'.
  exists down, (run ++ c :: b). repeat split; try done.
  - by rewrite E, app_assoc.
  - by apply Forall_app.
  - apply chain_app. repeat split; try done.
    intros x y Hx [= <-].
    assert (x = top) as ->; [|done].
    apply last_Some in Hx as [l' ->]. rewrite app_assoc in E.
    by apply app_inj_tail in E as [_ ->].
  - intros _. by destruct run.
Qed.

Lemma foundation_ok_snoc (u : Suit) (f : CardPile.t) (c : Card) :
  foundation_ok u (f ++ [c]) ↔
  foundation_ok u f ∧ c = mkCard (CardPile.size f + 1) u false.
Proof.
  unfold foundation_ok, CardPile.size.
  rewrite length_app. simpl. rewrite Nat.add_1_r, seqZ_S, fmap_app. simpl.
  split.
  - intros [? ?]%app_inj_tail. split; [done|]. subst c. f_equal. lia.
  - intros [<- ->]. do 3 f_equal. lia.
Qed.

Lemma foundation_ok_face_up (u : Suit) (f : CardPile.t) :
  foundation_ok u f → face_up f.
Proof. intros ->. by apply Forall_fmap, Forall_true. Qed.

(** The top card of a foundation in order has the rank of its height. *)
Lemma foundation_ok_top (u : Suit) (f : CardPile.t) (c : Card) :
  foundation_ok u (f ++ [c]) → rank c = CardPile.size f + 1 ∧ suit c = u.
Proof. by intros [_ ->]%foundation_ok_snoc. Qed.

(** ** The shape of an accepted operation *)

(** An accepted move of [n >= 1] cards: the cards, the test they passed
    and the state they leave. *)
Lemma accepted_move_shape (s : Solitaire) o d n :
  valid_ref s o → valid_ref s d → 1 ≤ n →
  accepts s (move s o d n) = true →
  ∃ a c b s',
    move s o d n = Return PyNone s'
    ∧ pile s o = a ++ c :: b ∧ CardPile.size (c :: b) = n ∧ o ≠ d
    ∧ (pile s d = [] ∧ rank c = max_rank s
       ∨ ∃ r top, pile s d = r ++ [top] ∧ is_valid_move c top = true)
    ∧ pile s' o = reveal a
    ∧ pile s' d = pile s d ++ c :: b
    ∧ (∀ r, r ≠ o → r ≠ d → pile s' r = pile s r)
    ∧ history s' = history s ++ [HMove o d n (top_hidden a)].
Proof.
  intros Ho Hd Hn Hacc.
  destruct (decide (CardPile.size (pile s o) < n)) as [Hlt|Hge].
  { unfold move in Hacc. rewrite bool_decide_true in Hacc by done.
    by rewrite accepts_same in Hacc. }
  destruct (decide (pile s o = pile s d)) as [Heq|Hne].
  { unfold move in Hacc. rewrite bool_decide_false in Hacc by done.
    apply CardPileFacts.eq_true in Heq. rewrite Heq in Hacc.
    by rewrite accepts_same in Hacc. }
  assert (o ≠ d) as Hod by (intros ->; done).
  destruct (split_top (pile s o) n) as (a & c & b & E & Hsz); [lia|].
  assert (CardPile.peek (pile s o) n = Some c) as Hpk
    by (rewrite E, <-Hsz; apply CardPileFacts.peek_app).
  rewrite move_decide in Hacc |- * by done.
  rewrite Hpk in Hacc |- *. subst n.
  destruct (after_record_move s o d a (c :: b)
              (CardPile.size (c :: b)) PyNone Ho Hd Hod)
    as (s' & Hs' & H1 & H2 & H3 & H4 & _).
  rewrite <-(transfer_app s o d a (c :: b)) in Hs' by done.
  assert (match py_pop (pile s d) with
          | None =>
              if bool_decide (rank c = max_rank s)
              then record_move (transfer s o d (CardPile.size (c :: b))) o d
                               (CardPile.size (c :: b)) PyNone
              else Raise IndexError s
          | Some (top, _) =>
              if is_valid_move c top
              then record_move (transfer s o d (CardPile.size (c :: b))) o d
                               (CardPile.size (c :: b)) PyNone
              else Return PyFalse s
          end = Return PyNone s'
          ∧ (pile s d = [] ∧ rank c = max_rank s
             ∨ ∃ r top, pile s d = r ++ [top] ∧ is_valid_move c top = true))
    as [Hm Hpl].
  { destruct (snoc_cases (pile s d)) as [Ed|(r & top & Ed)];
      rewrite Ed in Hacc |- *.
    - simpl in *. case_bool_decide; [|done]. split; [done|by left].
    - rewrite py_pop_snoc in Hacc |- *.
      destruct (is_valid_move c top) eqn:Hv;
        [|by rewrite accepts_same in Hacc].
      split; [done|]. right. by exists r, top. }
  exists a, c, b, s'. by repeat split.
Qed.

(** An accepted move to the foundation: the card, the test it passed and
    the state it leaves. *)
Lemma accepted_to_foundation_shape (s : Solitaire) p :
  valid_ref s p →
  accepts s (move_to_foundation s p) = true →
  ∃ r c s',
    move_to_foundation s p = Return PyTrue s'
    ∧ pile s p = r ++ [c] ∧ p ≠ Foundation (suit c)
    ∧ (pile s (Foundation (suit c)) = [] ∧ rank c = 1
       ∨ ∃ fr top, pile s (Foundation (suit c)) = fr ++ [top]
                   ∧ rank top = rank c - 1)
    ∧ pile s' p = reveal r
    ∧ pile s' (Foundation (suit c)) = pile s (Foundation (suit c)) ++ [c]
    ∧ (∀ q, q ≠ p → q ≠ Foundation (suit c) → pile s' q = pile s q)
    ∧ history s' = history s ++ [HMove p (Foundation (suit c)) 1 (top_hidden r)].
Proof.
  intros Hp Hacc.
  destruct (snoc_cases (pile s p)) as [E|(r & c & E)].
  { unfold move_to_foundation in Hacc. rewrite E in Hacc. simpl in Hacc.
    by rewrite accepts_same in Hacc. }
  destruct (decide (p = Foundation (suit c))) as [->|Hne].
  { rewrite (move_to_foundation_self _ _ _ _ E eq_refl) in Hacc.
    by rewrite accepts_same in Hacc. }
  rewrite (move_to_foundation_decide _ _ _ _ E) in Hacc |- *.
  destruct (after_record_move s p (Foundation (suit c)) r [c] 1 PyTrue
              Hp I Hne) as (s' & Hs' & H1 & H2 & H3 & H4 & _).
  rewrite <-(to_foundation_eq _ _ _ _ _ Hp Hne E) in Hs'.
  assert ((if match py_pop (pile s (Foundation (suit c))) with
              | None => bool_decide (rank c = 1)
              | Some (top, _) => bool_decide (rank top = rank c - 1)
              end
           then to_foundation s p (suit c)
           else Return PyFalse s) = Return PyTrue s'
          ∧ (pile s (Foundation (suit c)) = [] ∧ rank c = 1
             ∨ ∃ fr top, pile s (Foundation (suit c)) = fr ++ [top]
                         ∧ rank top = rank c - 1))
    as [Hm Hpl].
  { destruct (snoc_cases (pile s (Foundation (suit c))))
      as [F|(fr & top & F)]; rewrite F in Hacc |- *.
    - simpl in *. case_bool_decide; [|by rewrite accepts_same in Hacc].
      split; [done|by left].
    - rewrite py_pop_snoc in Hacc |- *.
      case_bool_decide; [|by rewrite accepts_same in Hacc].
      split; [done|]. right. by exists fr, top. }
  exists r, c, s'. by repeat split.
Qed.

(** ** Accepted operations keep the piles in order *)

Lemma size_one (c : Card) (b : list Card) :
  CardPile.size (c :: b) = 1 → b = [].
Proof. unfold CardPile.size. destruct b; simpl; [done|lia]. Qed.

Lemma pile_ok_single (c : Card) : hidden c = false → pile_ok [c].
Proof. intros. apply pile_ok_face_up; [by repeat constructor|done]. Qed.

Lemma tidy_move (s : Solitaire) o d n :
  tidy s → user_op s (OMove o d n) →
  accepts s (move s o d n) = true →
  tidy (state_of (move s o d n)).
Proof.
  intros Ht Hop Hacc.
  destruct (user_op_valid _ _ Hop) as [Ho Hd].
  assert (1 ≤ n) as Hn
    by (destruct o as [| |u|i], d as [| |u'|j]; simpl in Hop; try done; lia).
  destruct (accepted_move_shape s o d n Ho Hd Hn Hacc)
    as (a & c & b & s' & -> & Eo & Hsz & Hod & Hpl & H1 & H2 & H3 & _).
  simpl.
  (* the cards that leave, and what stays *)
  assert (pile_ok (c :: b) ∧ ok_for o (reveal a)) as [Hb Ha].
  { pose proof (Ht o) as Hok. rewrite Eo in Hok.
    destruct o as [| |u|i], d as [| |u'|j]; simpl in Hop, Hok |- *; try done.
    - destruct Hop as [_ ->]. apply size_one in Hsz as ->.
      apply Forall_app in Hok as [Hfa Hfc].
      rewrite Forall_singleton in Hfc.
      split; [by apply pile_ok_single|]. by rewrite reveal_face_up.
    - destruct Hop as [_ ->]. apply size_one in Hsz as ->.
      pose proof (foundation_ok_face_up _ _ Hok) as Hf.
      apply Forall_app in Hf as [Hfa Hfc]. rewrite Forall_singleton in Hfc.
      apply foundation_ok_snoc in Hok as [Hok _].
      split; [by apply pile_ok_single|]. by rewrite reveal_face_up.
    - by apply pile_ok_split. }
  assert (∃ j, d = Tableau j) as [j ->]
    by (destruct o as [| |u|i], d as [| |u'|j]; simpl in Hop; try done;
        by eexists).
  intros r. destruct (decide (r = o)) as [->|Hro]; [by rewrite H1|].
  destruct (decide (r = Tableau j)) as [->|Hrd]; [|rewrite H3; by try apply Ht].
  rewrite H2. unfold ok_for.
  destruct Hpl as [[-> _]|(r & top & E & Hv)]; [done|].
  rewrite E. apply pile_ok_onto; try done.
  rewrite <-E. apply (Ht (Tableau j)).
Qed.

Lemma tidy_move_to_foundation (s : Solitaire) p :
  tidy s → user_op s (OMoveToFoundation p) →
  accepts s (move_to_foundation s p) = true →
  tidy (state_of (move_to_foundation s p)).
Proof.
  intros Ht Hop Hacc.
  pose proof (user_op_valid _ _ Hop) as Hp. simpl in Hp.
  destruct (accepted_to_foundation_shape s p Hp Hacc)
    as (a & c & s' & -> & Ep & Hne & Hpl & H1 & H2 & H3 & _).
  simpl.
  assert (hidden c = false ∧ ok_for p (reveal a)) as [Hc Ha].
  { pose proof (Ht p) as Hok. rewrite Ep in Hok.
    destruct p as [| |u|i]; simpl in Hop, Hok |- *; try done.
    - apply Forall_app in Hok as [Hfa Hfc]. rewrite Forall_singleton in Hfc.
      split; [done|]. by rewrite reveal_face_up.
    - split; [by eapply pile_ok_top|]. by apply (pile_ok_split a [c]). }
  intros r. destruct (decide (r = p)) as [->|Hrp]; [by rewrite H1|].
  destruct (decide (r = Foundation (suit c))) as [->|Hrf];
    [|rewrite H3; by try apply Ht].
  rewrite H2. unfold ok_for. apply foundation_ok_snoc.
  pose proof (Ht (Foundation (suit c))) as Hf. unfold ok_for in Hf.
  split; [done|].
  assert (rank c = CardPile.size (pile s (Foundation (suit c))) + 1) as Hr.
  { destruct Hpl as [[-> ->]|(fr & top & E & Hr)]; [done|].
    rewrite E in Hf |- *.
    apply foundation_ok_top in Hf as [Hf _].
    rewrite CardPileFacts.size_app. unfold CardPile.size in *. simpl. lia. }
  rewrite <-Hr, <-Hc. by destruct c.
Qed.

Lemma tidy_draw_command (s : Solitaire) :
  tidy s → tidy (state_of (draw_command s)).
Proof.
  intros Ht.
  destruct (draw_command_face_up s (Ht Stock) (Ht Waste)) as [H1 H2].
  intros r. destruct r; try done.
  - specialize (Ht (Foundation u)). unfold draw_command.
    destruct (snoc_cases (stock s)) as [E|(a & c & E)].
    + by rewrite draw_stock_empty.
    + by rewrite (draw_stock_top _ _ _ E).
  - specialize (Ht (Tableau i)). unfold draw_command.
    destruct (snoc_cases (stock s)) as [E|(a & c & E)].
    + by rewrite draw_stock_empty.
    + by rewrite (draw_stock_top _ _ _ E).
Qed.

Lemma tidy_step (s : Solitaire) (op : Op) :
  tidy s → user_op s op → op ≠ OUndo →
  accepts s (step s op) = true →
  tidy (state_of (step s op)).
Proof.
  intros Ht Hop Hu Hacc. destruct op as [o d n|p| | |]; simpl in *; try done.
  - by apply tidy_move.
  - by apply tidy_move_to_foundation.
  - by apply tidy_draw_command.
Qed.

(** Every state of play is in order, if the first one is. *)
Lemma played_tidy (s0 s : Solitaire) : tidy s0 → played s0 s → tidy s.
Proof. intros H0. induction 1; [done|]. by apply tidy_step. Qed.

(** ** The layout of a deal *)

Lemma staircase_triangle (i : nat) : staircase (seq 0 i) = triangle i.
Proof.
  unfold triangle. pose proof (staircase_seq 0 i) as H.
  apply Nat.div_unique_exact; lia.
Qed.

Lemma staircase_seq_S (a j : nat) :
  staircase (seq a (S j)) = (S a + staircase (seq (S a) j))%nat.
Proof. done. Qed.

Lemma set_top_hidden_reveal (p p' : CardPile.t) :
  CardPile.set_top_hidden p false = Some p' → p' = reveal p.
Proof.
  destruct (snoc_cases p) as [->|(r & c & ->)]; [done|].
  rewrite CardPileFacts.set_top_hidden_snoc, reveal_snoc. by intros [= <-].
Qed.

Lemma deal_layout (k a : nat) (deck deck' : list Card) ps :
  deal (seq a k) deck = Some (ps, deck') →
  (staircase (seq a k) ≤ length deck)%nat
  ∧ deck' = take (length deck - staircase (seq a k)) deck
  ∧ ps = (λ i, reveal (take (S i)
                         (drop (staircase (seq a (i - a))) (reverse deck))))
           <$> seq a k.
Proof.
  revert a deck deck' ps. induction k as [|k IH]; intros a deck deck' ps.
  - simpl. intros [= <- <-]. rewrite Nat.sub_0_r, firstn_all.
    repeat split. lia.
  - cbn [seq deal].
    destruct (deal_pile (S a) [] deck) as [[p deck1]|] eqn:E1; [|done].
    destruct (CardPile.set_top_hidden p false) as [p1|] eqn:E2; [|done].
    destruct (deal (seq (S a) k) deck1) as [[ps1 deck2]|] eqn:E3; [|done].
    intros [= <- <-].
    apply deal_pile_spec in E1 as (popped & -> & -> & Hlen).
    apply set_top_hidden_reveal in E2 as ->. simpl in *.
    destruct (IH _ _ _ _ E3) as (Hle & -> & ->).
    rewrite length_app, length_reverse, Hlen.
    rewrite reverse_app, reverse_involutive.
    repeat split.
    + cbn [staircase]. lia.
    + cbn [staircase].
      rewrite take_app_le by lia. f_equal. lia.
    + f_equal.
      * rewrite Nat.sub_diag. simpl. rewrite drop_0.
        by rewrite <-Hlen, take_app_length.
      * apply list_fmap_ext. intros j i Hi.
        apply lookup_seq in Hi as [-> Hj]. do 2 f_equal.
        replace (S a + j - a)%nat with (S j) by lia.
        replace (S a + j - S a)%nat with j by lia.
        rewrite staircase_seq_S, <-drop_drop.
        by rewrite <-Hlen, drop_app_length.
Qed.

Lemma triangle_S (i : nat) : triangle (S i) = (triangle i + S i)%nat.
Proof. rewrite <-!staircase_triangle, seq_S, Nat.add_0_l.
  induction (seq 0 i) as [|x l IH]; simpl in *; lia.
Qed.

Lemma triangle_le (i n : nat) : (i ≤ n)%nat → (triangle i ≤ triangle n)%nat.
Proof. induction 1; [done|]. rewrite triangle_S. lia. Qed.

(** The piles, the stock and the rest of the state after [__init__]. *)
Lemma init_state (m : Z) (shuffled : list Card) (s : Solitaire) :
  init m shuffled = Some s →
  let n := Z.to_nat (Z.sqrt (4 * m)) in
  (triangle n ≤ length shuffled)%nat
  ∧ s = mkSolitaire
          (set_hidden false <$> take (length shuffled - triangle n) shuffled)
          [] empty_foundations m (dealt_pile shuffled <$> seq 0 n) [].
Proof.
  unfold init. case_bool_decide; [done|].
  destruct (deal _ shuffled) as [[ps deck]|] eqn:E; [|done].
  intros [= <-]. apply deal_layout in E as (Hle & -> & ->).
  rewrite staircase_triangle in Hle |- *. split; [done|].
  f_equal. apply list_fmap_ext. intros j i _.
  by rewrite Nat.sub_0_r, staircase_triangle.
Qed.

(** A dealt pile: [i] cards as they were in the deck under one card
    turned face up. *)
Lemma dealt_pile_snoc (shuffled : list Card) (i : nat) :
  (triangle (S i) ≤ length shuffled)%nat →
  ∃ c, reverse shuffled !! (triangle i + i)%nat = Some c
       ∧ dealt_pile shuffled i
         = take i (drop (triangle i) (reverse shuffled))
           ++ [set_hidden false c].
Proof.
  rewrite triangle_S. intros Hle. unfold dealt_pile.
  destruct (lookup_lt_is_Some_2 (reverse shuffled) (triangle i + i)) as [c Hc];
    [rewrite length_reverse; lia|].
  exists c. split; [done|].
  rewrite (take_S_r _ _ c) by by rewrite lookup_drop.
  apply reveal_snoc.
Qed.

Lemma tidy_init (m : Z) (shuffled : list Card) (s : Solitaire) :
  face_down shuffled → init m shuffled = Some s → tidy s.
Proof.
  intros Hd [Hle ->]%init_state. intros [| |u|i]; simpl.
  - by apply Forall_fmap, Forall_true.
  - constructor.
  - by destruct u.
  - rewrite list_lookup_fmap.
    destruct (seq 0 _ !! i) as [j|] eqn:Hj; simpl; [|apply pile_ok_nil].
    apply pile_ok_reveal_face_down.
    by apply Forall_take, Forall_drop, Forall_reverse.
Qed.

Lemma new_deck_face_down (m : Z) : face_down (new_deck m).
Proof.
  unfold new_deck, all_suits, face_down. simpl.
  rewrite app_nil_r, !Forall_app. repeat split; by apply Forall_fmap, Forall_true.
Qed.

Lemma shuffled_face_down (m : Z) (shuffled : list Card) :
  shuffled ≡ₚ new_deck m → face_down shuffled.
Proof. unfold face_down. intros ->. apply new_deck_face_down. Qed.

(** ** Where the cards are *)

Lemma pile_tableau (s : Solitaire) (i : nat) (p : CardPile.t) :
  piles s !! i = Some p → pile s (Tableau i) = p.
Proof. simpl. by intros ->. Qed.

Lemma elem_of_concat {A} (x : A) (ls : list (list A)) :
  x ∈ concat ls ↔ ∃ l, x ∈ l ∧ l ∈ ls.
Proof.
  induction ls as [|l ls IH]; simpl.
  - split; [by intros ?%elem_of_nil|]. by intros (l & _ & ?%elem_of_nil).
  - rewrite elem_of_app, IH. split.
    + intros [H|(l' & H & Hl)]; [exists l|exists l']; split; try done.
      * by left.
      * by right.
    + intros (l' & H & [->|Hl]%elem_of_cons); [by left|right; eauto].
Qed.

Lemma elem_of_all_cards (s : Solitaire) (c : Card) :
  c ∈ all_cards s ↔ ∃ r, valid_ref s r ∧ c ∈ pile s r.
Proof.
  split.
  - unfold all_cards. rewrite !elem_of_app.
    intros [H|[H|[H|[H|[H|[H|H]]]]]].
    + by exists Stock.
    + by exists Waste.
    + by exists (Foundation CLUBS).
    + by exists (Foundation DIAMONDS).
    + by exists (Foundation HEARTS).
    + by exists (Foundation SPADES).
    + apply elem_of_concat in H as (p & Hc & Hp).
      apply list_elem_of_lookup in Hp as [i Hi]. exists (Tableau i).
      split; [by eapply lookup_lt_Some|]. by rewrite (pile_tableau _ _ _ Hi).
  - intros (r & Hv & Hc). by eapply pile_subseteq.
Qed.

(** A card is in one pile only. *)
Lemma distinct_cards_piles (s : Solitaire) (r1 r2 : PileRef) (c1 c2 : Card) :
  distinct_cards s → valid_ref s r1 → valid_ref s r2 → r1 ≠ r2 →
  c1 ∈ pile s r1 → c2 ∈ pile s r2 → card_id c1 ≠ card_id c2.
Proof.
  unfold distinct_cards. intros Hnd H1 H2 Hne Hc1 Hc2 Heq.
  pose proof (all_cards_set_pile s r1 [] H1) as H.
  rewrite app_nil_r in H. rewrite <-H, fmap_app in Hnd.
  apply NoDup_app in Hnd as (_ & Hdis & _).
  apply (Hdis (card_id c2)).
  - apply list_elem_of_fmap_2.
    apply (pile_subseteq _ r2); [by rewrite valid_ref_set_pile|].
    by rewrite pile_set_pile_ne.
  - rewrite <-Heq. by apply list_elem_of_fmap_2.
Qed.

(** The ranks and suits of the deck. *)
Lemma elem_of_new_deck_ids (m : Z) (k : Z) (u : Suit) :
  (k, u) ∈ card_id <$> new_deck m ↔ 1 ≤ k ≤ m.
Proof.
  unfold new_deck, all_suits. simpl.
  rewrite app_nil_r, !fmap_app, <-!list_fmap_compose, !elem_of_app.
  rewrite !list_elem_of_fmap. setoid_rewrite elem_of_seqZ.
  split.
  - intros [H|[H|[H|H]]]; destruct H as (y & [= -> _] & ?); lia.
  - intros Hk. destruct u.
    + left. exists k. split; [done|lia].
    + right; left. exists k. split; [done|lia].
    + do 2 right; left. exists k. split; [done|lia].
    + do 3 right. exists k. split; [done|lia].
Qed.

Lemma elem_of_foundation_ok (u : Suit) (f : CardPile.t) (c : Card) :
  foundation_ok u f →
  c ∈ f ↔ c = mkCard (rank c) u false ∧ 1 ≤ rank c ≤ CardPile.size f.
Proof.
  intros Hf. rewrite Hf at 1. rewrite list_elem_of_fmap.
  setoid_rewrite elem_of_seqZ. unfold CardPile.size. split.
  - intros (k & -> & Hk). simpl. split; [done|lia].
  - intros [E Hk]. exists (rank c). split; [done|lia].
Qed.

(** In a run the ranks go down from the bottom to the top. *)
Lemma chain_rank (l : list Card) (c d : Card) :
  chain (l ++ [c]) → d ∈ l ++ [c] → rank c ≤ rank d.
Proof.
  revert d. induction l as [|x l IH]; intros d; simpl.
  - intros _ ->%list_elem_of_singleton. done.
  - intros Hc Hd.
    assert (chain (l ++ [c]) ∧ rank c ≤ rank x) as [Hc' Hx].
    { destruct l as [|y l]; simpl in *.
      - destruct Hc as [Hv _]. apply is_valid_move_true in Hv. split; [done|lia].
      - destruct Hc as [Hv Hc]. split; [done|].
        apply is_valid_move_true in Hv as (_ & _ & Hv).
        specialize (IH y Hc ltac:(by left)). lia. }
    apply elem_of_cons in Hd as [->|Hd]; [done|]. by apply IH.
Qed.

(** A pile in order with all its cards face up is one run. *)
Lemma pile_ok_face_up_chain (p : CardPile.t) :
  pile_ok p → face_up p → chain p.
Proof.
  intros (down & run & -> & Hd & _ & Hc & _) Hf.
  destruct down as [|x down]; [done|].
  apply Forall_cons in Hd as [Hx _]. apply Forall_app in Hf as [Hf _].
  apply Forall_cons in Hf as [Hx' _]. congruence.
Qed.

(** ** Clearing the tableau of a won game *)

Lemma min_exists {A} (f : A → Z) (l : list A) :
  l ≠ [] → ∃ x, x ∈ l ∧ ∀ y, y ∈ l → f x ≤ f y.
Proof.
  induction l as [|a l IH]; [done|]. intros _.
  destruct (decide (l = [])) as [->|Hl].
  - exists a. split; [by left|]. by intros y ->%list_elem_of_singleton.
  - destruct (IH Hl) as (x & Hx & Hmin).
    destruct (decide (f a ≤ f x)).
    + exists a. split; [by left|].
      intros y [->|Hy]%elem_of_cons; [done|]. specialize (Hmin y Hy). lia.
    + exists x. split; [by right|].
      intros y [->|Hy]%elem_of_cons; [lia|]. by apply Hmin.
Qed.

Lemma won_distinct (m : Z) (s : Solitaire) : won m s → distinct_cards s.
Proof.
  intros (_ & _ & _ & _ & Hp). unfold distinct_cards.
  fold (card_ids s). rewrite Hp. apply NoDup_new_deck.
Qed.

Lemma won_rank (m : Z) (s : Solitaire) (c : Card) :
  won m s → c ∈ all_cards s → 1 ≤ rank c ≤ m.
Proof.
  intros (_ & _ & _ & _ & Hp) Hc.
  apply (elem_of_new_deck_ids m (rank c) (suit c)). rewrite <-Hp.
  by apply (list_elem_of_fmap_2 card_id).
Qed.

Lemma won_card (m : Z) (s : Solitaire) (k : Z) (u : Suit) :
  won m s → 1 ≤ k ≤ m →
  ∃ d r, valid_ref s r ∧ d ∈ pile s r ∧ rank d = k ∧ suit d = u.
Proof.
  intros (_ & _ & _ & _ & Hp) Hk.
  apply (elem_of_new_deck_ids m k u) in Hk. rewrite <-Hp in Hk.
  apply list_elem_of_fmap in Hk as (d & [= -> ->] & Hd).
  apply elem_of_all_cards in Hd as (r & Hr & Hd). by exists d, r.
Qed.

(** In a won game no tableau card is below the top card of its pile in
    rank. *)
Lemma won_tableau_rank (m : Z) (s : Solitaire) j (r : CardPile.t) c d :
  won m s → pile s (Tableau j) = r ++ [c] → d ∈ pile s (Tableau j) →
  rank c ≤ rank d.
Proof.
  intros (Ht & _ & _ & Hf & _) E Hd.
  specialize (Ht (Tableau j)). specialize (Hf j). unfold ok_for in Ht.
  rewrite E in Ht, Hf, Hd. apply (chain_rank r); [|done].
  by apply pile_ok_face_up_chain.
Qed.

(** With a card left on the tableau of a won game, some tableau pile has
    a top card that its foundation takes. *)
Lemma playable (m : Z) (s : Solitaire) :
  won m s →
  (∃ i, pile s (Tableau i) ≠ []) →
  ∃ i, (i < num_piles s)%nat
       ∧ accepts s (move_to_foundation s (Tableau i)) = true.
Proof.
  intros Hw [i1 Hi1].
  assert (∀ i, pile s (Tableau i) ≠ [] → (i < num_piles s)%nat) as Hvalid.
  { intros i Hi. simpl in Hi. destruct (piles s !! i) eqn:E; [|done].
    by eapply lookup_lt_Some. }
  set (top_rank := λ i, default 0 (rank <$> last (pile s (Tableau i)))).
  destruct (min_exists top_rank
              (filter (λ i, pile s (Tableau i) ≠ []) (seq 0 (num_piles s))))
    as (i0 & Hi0 & Hmin).
  { intros E. assert (i1 ∈ filter (λ i, pile s (Tableau i) ≠ [])
                                  (seq 0 (num_piles s))) as Hin.
    { apply list_elem_of_filter. split; [done|].
      apply elem_of_seq. specialize (Hvalid i1 Hi1). lia. }
    rewrite E in Hin. by apply elem_of_nil in Hin. }
  apply list_elem_of_filter in Hi0 as [Hne0 Hlt0%elem_of_seq].
  destruct (snoc_cases (pile s (Tableau i0))) as [E|(r & c & E)]; [done|].
  assert (top_rank i0 = rank c) as Htop
    by (unfold top_rank; by rewrite E, last_snoc).
  (* every tableau card has at least the rank of [c] *)
  assert (∀ j d, d ∈ pile s (Tableau j) → rank c ≤ rank d) as Hlow.
  { intros j d Hd.
    destruct (snoc_cases (pile s (Tableau j))) as [Ej|(rj & cj & Ej)].
    - rewrite Ej in Hd. by apply elem_of_nil in Hd.
    - pose proof (won_tableau_rank m s j rj cj d Hw Ej Hd) as H1.
      assert (top_rank i0 ≤ top_rank j) as H2.
      { apply Hmin, list_elem_of_filter. split; [by rewrite Ej; destruct rj|].
        apply elem_of_seq.
        assert (pile s (Tableau j) ≠ []) as Hj by (rewrite Ej; by destruct rj).
        specialize (Hvalid j Hj). lia. }
      unfold top_rank in H2 at 2. rewrite Ej, last_snoc in H2. simpl in H2.
      lia. }
  exists i0. split; [lia|].
  assert (valid_ref s (Tableau i0)) as Hv by (simpl; lia).
  pose proof Hw as (Ht & Hst & Hwa & _ & _).
  pose proof (Ht (Foundation (suit c))) as Hf. unfold ok_for in Hf.
  assert (c ∈ all_cards s) as Hc.
  { apply (pile_subseteq s (Tableau i0)); [done|].
    rewrite E. apply elem_of_app. right. by left. }
  pose proof (won_rank m s c Hw Hc) as Hrc.
  set (k := CardPile.size (pile s (Foundation (suit c)))) in *.
  assert (k = rank c - 1) as Hk.
  { pose proof (CardPileFacts.size_nonneg (pile s (Foundation (suit c)))).
    destruct (decide (rank c ≤ k)) as [Hle|Hgt].
    { (* the card of this rank would be on the foundation too *)
      exfalso.
      assert (mkCard (rank c) (suit c) false ∈ pile s (Foundation (suit c)))
        as Hin
        by (apply (elem_of_foundation_ok _ _ _ Hf); split;
            [done|unfold k in Hle; simpl rank; lia]).
      apply (distinct_cards_piles s (Tableau i0) (Foundation (suit c)) c
               (mkCard (rank c) (suit c) false));
        try done; [by eapply won_distinct|].
      rewrite E. apply elem_of_app. right. by left. }
    destruct (decide (k + 1 < rank c)) as [Hlt|]; [|lia].
    (* the next card of the suit would be nowhere *)
    exfalso.
    destruct (won_card m s (k + 1) (suit c) Hw ltac:(lia))
      as (d & rd & Hrd & Hd & Hdr & Hds).
    destruct rd as [| |u|j].
    - simpl in Hd. rewrite Hst in Hd. by apply elem_of_nil in Hd.
    - simpl in Hd. rewrite Hwa in Hd. by apply elem_of_nil in Hd.
    - pose proof (Ht (Foundation u)) as Hfu. unfold ok_for in Hfu.
      apply (elem_of_foundation_ok _ _ _ Hfu) in Hd as [Ed Hd].
      assert (u = suit c) as -> by (rewrite <-Hds, Ed; done).
      fold k in Hd. lia.
    - specialize (Hlow j d Hd). lia. }
  rewrite (move_to_foundation_decide _ _ _ _ E).
  assert (Tableau i0 ≠ Foundation (suit c)) as Hne by done.
  assert (match py_pop (pile s (Foundation (suit c))) with
          | None => bool_decide (rank c = 1)
          | Some (top, _) => bool_decide (rank top = rank c - 1)
          end = true) as ->.
  { destruct (snoc_cases (pile s (Foundation (suit c)))) as [F|(fr & top & F)].
    - rewrite F. simpl. apply bool_decide_eq_true.
      unfold k in Hk. rewrite F in Hk. unfold CardPile.size in Hk.
      simpl in Hk. lia.
    - rewrite F, py_pop_snoc. apply bool_decide_eq_true.
      rewrite F in Hf. apply foundation_ok_top in Hf as [Hf _].
      unfold k in Hk. rewrite F, CardPileFacts.size_app in Hk.
      unfold CardPile.size in *. simpl in Hk. lia. }
  rewrite (to_foundation_eq _ _ _ _ _ Hv Hne E).
  apply accepts_record_move. by rewrite !history_set_pile.
Qed.

Lemma card_ids_record_move (s : Solitaire) o d n v :
  valid_ref s o →
  card_ids (state_of (record_move s o d n v)) ≡ₚ card_ids s.
Proof.
  intros Ho. rewrite record_move_eq. simpl. unfold history_append.
  rewrite card_ids_set_pile_same; [done|by rewrite valid_ref_set_history|].
  by rewrite pile_set_history, reveal_ids.
Qed.

Lemma card_ids_move_to_foundation (s : Solitaire) p :
  valid_ref s p →
  card_ids (state_of (move_to_foundation s p)) ≡ₚ card_ids s.
Proof.
  intros Hp.
  destruct (move_to_foundation_outcome s p)
    as [[_ H]|[[_ H]|(r & c & E & H)]]; rewrite H; try done.
  rewrite card_ids_record_move.
  - apply card_ids_relocate; try done. by rewrite E.
  - unfold relocate. cbv zeta. by rewrite !valid_ref_set_pile.
Qed.

Lemma on_foundations_piles (s : Solitaire) :
  on_foundations s
  = (length (pile s (Foundation CLUBS)) + length (pile s (Foundation DIAMONDS))
     + length (pile s (Foundation HEARTS))
     + length (pile s (Foundation SPADES)))%nat.
Proof. done. Qed.

Lemma on_foundations_le (s : Solitaire) :
  (on_foundations s ≤ length (all_cards s))%nat.
Proof. unfold on_foundations, all_cards. rewrite !length_app. lia. Qed.

(** One call of the pass: the game stays won, and an accepted call puts
    one more card on the foundations. *)
Lemma won_move_to_foundation (m : Z) (s : Solitaire) (i : nat) :
  won m s → (i < num_piles s)%nat →
  let s' := state_of (move_to_foundation s (Tableau i)) in
  won m s' ∧ num_piles s' = num_piles s
  ∧ (on_foundations s ≤ on_foundations s')%nat
  ∧ (accepts s (move_to_foundation s (Tableau i)) = true →
     on_foundations s' = S (on_foundations s)).
Proof.
  intros Hw Hi. cbv zeta.
  destruct (accepts s (move_to_foundation s (Tableau i))) eqn:Hacc.
  2:{ assert (state_of (move_to_foundation s (Tableau i)) = s) as ->
        by (apply (step_refused s (OMoveToFoundation (Tableau i))); done).
      split; [done|]. split; [done|]. split; [lia|done]. }
  pose proof Hw as (Ht & Hst & Hwa & Hf & Hp).
  pose proof (tidy_move_to_foundation s (Tableau i) Ht Hi Hacc) as Ht'.
  pose proof (card_ids_move_to_foundation s (Tableau i) Hi) as Hp'.
  destruct (step_fixed s (OMoveToFoundation (Tableau i))) as [Hn _].
  simpl in Hn.
  destruct (accepted_to_foundation_shape s (Tableau i) Hi Hacc)
    as (a & c & s' & Hs' & Ep & Hne & _ & H1 & H2 & H3 & _).
  rewrite Hs' in Ht', Hp', Hn |- *. simpl in Ht', Hp', Hn |- *.
  assert (on_foundations s' = S (on_foundations s)) as Hon.
  { rewrite !on_foundations_piles.
    destruct (suit c) eqn:Hu; rewrite H2; rewrite !H3 by done;
      rewrite length_app; simpl; lia. }
  repeat split; try done; try lia.
  - change (pile s' Stock = []). by rewrite H3.
  - change (pile s' Waste = []). by rewrite H3.
  - intros j. destruct (decide (j = i)) as [->|Hj].
    + rewrite H1. specialize (Hf i). rewrite Ep in Hf.
      apply Forall_app in Hf as [Ha _]. by rewrite reveal_face_up.
    + rewrite H3; [apply Hf|congruence|done].
  - by rewrite Hp'.
Qed.

(** A pass over tableau piles of a won game. *)
Lemma won_pass (m : Z) (l : list nat) (s : Solitaire) :
  won m s → Forall (λ i, (i < num_piles s)%nat) l →
  let s' := foldl (λ s i, state_of (move_to_foundation s (Tableau i))) s l in
  won m s' ∧ num_piles s' = num_piles s
  ∧ (on_foundations s ≤ on_foundations s')%nat
  ∧ ((∃ i, i ∈ l ∧ accepts s (move_to_foundation s (Tableau i)) = true) →
     (on_foundations s < on_foundations s')%nat).
Proof.
  revert s. induction l as [|i l IH]; intros s Hw Hl; cbv zeta.
  - simpl. split; [done|]. split; [done|]. split; [lia|].
    intros (i & Hi & _). by apply elem_of_nil in Hi.
  - apply Forall_cons in Hl as [Hi Hl]. simpl.
    destruct (won_move_to_foundation m s i Hw Hi) as (Hw1 & Hn1 & Hle1 & Hacc1).
    set (s1 := state_of (move_to_foundation s (Tableau i))) in *.
    destruct (IH s1 Hw1) as (Hw2 & Hn2 & Hle2 & Hacc2);
      [by rewrite Hn1|].
    split; [done|]. split; [congruence|]. split; [lia|].
    intros (j & Hj & Hacc).
    destruct (accepts s (move_to_foundation s (Tableau i))) eqn:Hai.
    + specialize (Hacc1 eq_refl). lia.
    + assert (s1 = s) as Hs1
        by (apply (step_refused s (OMoveToFoundation (Tableau i))); done).
      apply elem_of_cons in Hj as [->|Hj]; [congruence|].
      rewrite Hs1 in Hacc2 |- *. apply Hacc2. by exists j.
Qed.

Lemma filter_not_empty_nil (ps : list (list Card)) :
  filter (λ p, CardPile.is_empty p = false) ps = [] ↔ Forall (.= []) ps.
Proof.
  induction ps as [|p ps IH]; [by split; [constructor|]|].
  rewrite filter_cons, Forall_cons, <-IH.
  case_decide as Hp.
  - split; [done|]. intros [-> _]. done.
  - split; [|by intros [_ ?]]. intros ?. split; [|done].
    apply CardPileFacts.is_empty_true. by destruct (CardPile.is_empty p).
Qed.

Lemma finalize_more_fuel (fuel fuel' : nat) (s s' : Solitaire) :
  finalize fuel s = Some s' → (fuel ≤ fuel')%nat →
  finalize fuel' s = Some s'.
Proof.
  revert fuel' s. induction fuel as [|fuel IH]; intros fuel' s; [done|].
  intros H Hle. destruct fuel' as [|fuel']; [lia|]. simpl in *.
  case_bool_decide; [|done]. apply IH; [done|lia].
Qed.

(** The loop ends, after at most as many passes as there are cards off
    the foundations, with an empty tableau. *)
Lemma finalize_terminates (m : Z) (fuel : nat) (s : Solitaire) :
  won m s →
  (length (all_cards s) - on_foundations s < fuel)%nat →
  ∃ s', finalize fuel s = Some s' ∧ won m s' ∧ Forall (.= []) (piles s').
Proof.
  revert s. induction fuel as [|fuel IH]; intros s Hw Hfuel; [lia|].
  simpl. case_bool_decide as Hne.
  2:{ exists s. split; [done|]. split; [done|].
      apply filter_not_empty_nil. by destruct (filter _ _). }
  assert (∃ i, pile s (Tableau i) ≠ []) as Hex.
  { destruct (filter _ (piles s)) as [|p ps'] eqn:E; [done|].
    assert (p ∈ filter (λ p, CardPile.is_empty p = false) (piles s)) as Hp
      by (rewrite E; by left).
    apply list_elem_of_filter in Hp as [Hp1 Hp2].
    apply list_elem_of_lookup in Hp2 as [i Hi]. exists i.
    rewrite (pile_tableau _ _ _ Hi). by apply CardPileFacts.is_empty_false. }
  destruct (playable m s Hw Hex) as (i & Hi & Hacc).
  destruct (won_pass m (reverse (seq 0 (num_piles s))) s Hw)
    as (Hw' & Hn' & _ & Hlt).
  { apply Forall_reverse, Forall_seq. intros j Hj. lia. }
  fold (finalize_pass s) in Hw', Hn', Hlt.
  assert (on_foundations s < on_foundations (finalize_pass s))%nat as Hlt'.
  { apply Hlt. exists i. split; [|done].
    apply elem_of_reverse, elem_of_seq. lia. }
  assert (length (all_cards (finalize_pass s)) = length (all_cards s)) as Hlen.
  { destruct Hw as (_ & _ & _ & _ & Hp), Hw' as (_ & _ & _ & _ & Hp').
    apply Permutation_length in Hp, Hp'. unfold card_ids in *.
    rewrite !length_fmap in Hp, Hp'. congruence. }
  pose proof (on_foundations_le (finalize_pass s)).
  apply IH; [done|]. lia.
Qed.

(** With the tableau, the stock and the waste empty, every foundation of
    a won game holds its whole suit, from rank 1 to the top rank. *)
Lemma won_cleared (m : Z) (s : Solitaire) (u : Suit) :
  won m s → Forall (.= []) (piles s) →
  pile s (Foundation u) = (λ r, mkCard r u false) <$> seqZ 1 m.
Proof.
  intros Hw Hempty. pose proof Hw as (Ht & Hst & Hwa & _ & _).
  pose proof (Ht (Foundation u)) as Hf. unfold ok_for in Hf.
  rewrite Hf. f_equal.
  set (f := pile s (Foundation u)) in *.
  destruct (decide (m ≤ 0)) as [Hm|Hm].
  - destruct (snoc_cases f) as [->|(r & c & E)];
      [by rewrite !seqZ_nil by (simpl; lia)|].
    exfalso. assert (c ∈ all_cards s) as Hc.
    { apply (pile_subseteq s (Foundation u)); [done|]. fold f.
      rewrite E. apply elem_of_app. right. by left. }
    apply (won_rank m) in Hc; [lia|done].
  - f_equal.
    assert (Z.of_nat (length f) ≤ m) as Hle.
    { destruct (snoc_cases f) as [->|(r & c & E)]; [simpl; lia|].
      assert (c ∈ all_cards s) as Hc.
      { apply (pile_subseteq s (Foundation u)); [done|]. fold f.
        rewrite E. apply elem_of_app. right. by left. }
      apply (won_rank m) in Hc; [|done].
      rewrite E in Hf. apply foundation_ok_top in Hf as [Hr _].
      rewrite E, length_app. unfold CardPile.size in Hr. simpl. lia. }
    destruct (won_card m s m u Hw ltac:(lia)) as (d & rd & Hrd & Hd & Hdr & Hds).
    destruct rd as [| |u'|j].
    + simpl in Hd. rewrite Hst in Hd. by apply elem_of_nil in Hd.
    + simpl in Hd. rewrite Hwa in Hd. by apply elem_of_nil in Hd.
    + pose proof (Ht (Foundation u')) as Hf'. unfold ok_for in Hf'.
      apply (elem_of_foundation_ok _ _ _ Hf') in Hd as [Ed Hd].
      assert (u' = u) as -> by (rewrite <-Hds, Ed; done).
      fold f in Hd. unfold CardPile.size in Hd. lia.
    + exfalso. simpl in Hd.
      destruct (piles s !! j) as [p|] eqn:Hj; simpl in Hd;
        [|by apply elem_of_nil in Hd].
      rewrite Forall_forall in Hempty.
      rewrite (Hempty p) in Hd; [by apply elem_of_nil in Hd|].
      apply list_elem_of_lookup. by exists j.
Qed.

(** ** Play from a fresh deal *)

Lemma played_keeps (s0 s : Solitaire) :
  history s0 = [] → played s0 s → keeps s0 s.
Proof.
  intros H0. induction 1 as [|s op Hp IH Hop _ _]; [by apply keeps_refl|].
  apply keeps_step; [done|]. apply user_op_valid.
  apply (user_op_num_piles s); [|done]. by apply played_fixed in Hp as [-> _].
Qed.

Lemma dealt_played (m : Z) (shuffled : list Card) (s0 : Solitaire)
      (ops : list Op) :
  init m shuffled = Some s0 → Forall (user_op s0) ops →
  played s0 (run s0 ops).
Proof.
  intros Hi Hops. apply played_run; [|done].
  by apply init_state in Hi as [_ ->].
Qed.

Lemma dealt_tidy (m : Z) (shuffled : list Card) (s0 : Solitaire)
      (ops : list Op) :
  shuffled ≡ₚ new_deck m → init m shuffled = Some s0 →
  Forall (user_op s0) ops → tidy (run s0 ops).
Proof.
  intros Hp Hi Hops. apply (played_tidy s0).
  - eapply tidy_init; [|done]. by eapply shuffled_face_down.
  - by eapply dealt_played.
Qed.

Lemma is_complete_true (s : Solitaire) :
  is_complete s = true →
  stock s = [] ∧ waste s = [] ∧ ∀ i, face_up (pile s (Tableau i)).
Proof.
  unfold is_complete.
  destruct (CardPile.is_empty (stock s)) eqn:Hs; simpl; [|done].
  destruct (CardPile.is_empty (waste s)) eqn:Hw; simpl; [|done].
  apply CardPileFacts.is_empty_true in Hs, Hw.
  case_bool_decide as Hh; [done|]. intros _. repeat split; try done.
  assert (Forall face_up (piles s)) as Hf.
  { apply hidden_cards_nil.
    by destruct (concat (filter _ <$> piles s)). }
  intros i. simpl. destruct (piles s !! i) as [p|] eqn:Hi; simpl.
  - rewrite Forall_forall in Hf. apply Hf, list_elem_of_lookup. by exists i.
  - constructor.
Qed.

Lemma dealt_won (m : Z) (shuffled : list Card) (s0 : Solitaire)
      (ops : list Op) :
  shuffled ≡ₚ new_deck m → init m shuffled = Some s0 →
  Forall (user_op s0) ops → is_complete (run s0 ops) = true →
  won m (run s0 ops).
Proof.
  intros Hp Hi Hops (Hst & Hwa & Hf)%is_complete_true.
  split; [by eapply dealt_tidy|]. repeat split; try done.
  pose proof (dealt_played _ _ _ _ Hi Hops) as Hpl.
  apply played_keeps in Hpl as (_ & Hk & _);
    [|by apply init_state in Hi as [_ ->]].
  apply init_spec in Hi as (Hc & _). by rewrite Hk, Hc, Hp.
Qed.

(** ** The tableau on the screen *)

Lemma formatted_length (p : CardPile.t) (k : Z) :
  length (formatted p k) = (length p `max` Z.to_nat k)%nat.
Proof.
  unfold formatted, CardPile.size. case_bool_decide as Hz.
  - rewrite length_replicate. lia.
  - rewrite length_app, length_fmap, length_replicate. lia.
Qed.

Lemma formatted_lookup (p : CardPile.t) (k : Z) (j : nat) :
  (j < length (formatted p k))%nat → formatted p k !! j = Some (p !! j).
Proof.
  rewrite formatted_length. intros Hj.
  unfold formatted, CardPile.size. case_bool_decide as Hz.
  - destruct p; [|simpl in Hz; lia]. simpl in *.
    rewrite lookup_replicate_2; [done|lia].
  - destruct (decide (j < length p)%nat) as [Hlt|Hge].
    + rewrite lookup_app_l by (by rewrite length_fmap).
      rewrite list_lookup_fmap.
      destruct (lookup_lt_is_Some_2 p j Hlt) as [c ->]. done.
    + rewrite lookup_app_r by (rewrite length_fmap; lia).
      rewrite length_fmap, lookup_replicate_2 by lia.
      by rewrite lookup_ge_None_2 by lia.
Qed.

Lemma py_zip_lookup {A} (lists : list (list A)) (j : nat) :
  lists ≠ [] → py_zip lists !! j = mapM (.!! j) lists.
Proof.
  induction lists as [|l lists IH]; [done|]. intros _.
  destruct lists as [|l' lists].
  - simpl. rewrite list_lookup_fmap. by destruct (l !! j).
  - change (py_zip (l :: l' :: lists))
      with (zip_with cons l (py_zip (l' :: lists))).
    rewrite lookup_zip_with, IH by done.
    change (mapM (.!! j) (l :: l' :: lists))
      with (x ← l !! j; k ← mapM (.!! j) (l' :: lists); mret (x :: k)).
    done.
Qed.

Lemma py_max_spec (l : list Z) (m : Z) :
  py_max l = Some m → Forall (λ x, x ≤ m) l ∧ m ∈ l.
Proof.
  destruct l as [|x l]; [done|]. simpl. intros [= <-].
  revert x. induction l as [|y l IH]; intros x; simpl.
  - split; [by constructor|]. apply elem_of_cons. by left.
  - destruct (IH (x `max` y)) as [Hall Hin].
    apply Forall_cons in Hall as [Hx Hall]. split.
    + repeat (apply Forall_cons; split); [lia|lia|done].
    + rewrite !elem_of_cons. apply elem_of_cons in Hin as [Hin|Hin]; [|auto].
      rewrite Hin. destruct (Z.max_spec x y) as [[_ ->]|[_ ->]]; auto.
Qed.

Lemma mapM_formatted (ps : list CardPile.t) (k : Z) (j : nat) :
  Forall (λ p, (j < length (formatted p k))%nat) ps →
  mapM (.!! j) ((λ p, formatted p k) <$> ps) = Some ((.!! j) <$> ps).
Proof.
  induction 1 as [|p ps Hp _ IH]; [done|].
  rewrite !fmap_cons.
  change (mapM (.!! j) (formatted p k :: ((λ p, formatted p k) <$> ps)))
    with (x ← formatted p k !! j;
          r ← mapM (.!! j) ((λ p, formatted p k) <$> ps); mret (x :: r)).
  rewrite formatted_lookup, IH by done. done.
Qed.

Lemma mapM_short {A} (lists : list (list A)) (j : nat) (l : list A) :
  l ∈ lists → (length l ≤ j)%nat → mapM (.!! j) lists = None.
Proof.
  intros Hin Hle. induction lists as [|l' lists IH]; [by apply elem_of_nil in Hin|].
  change (mapM (.!! j) (l' :: lists))
    with (x ← l' !! j; r ← mapM (.!! j) lists; mret (x :: r)).
  apply elem_of_cons in Hin as [<-|Hin].
  - by rewrite lookup_ge_None_2.
  - rewrite IH by done. by destruct (l' !! j).
Qed.

Lemma tableau_rows_length (s : Solitaire) (rows : list (list (option Card)))
      (m : Z) :
  py_max (CardPile.size <$> piles s) = Some m →
  rows = py_zip ((λ p, formatted p m) <$> piles s) →
  length rows = Z.to_nat m
  ∧ ∀ j, (j < Z.to_nat m)%nat → rows !! j = Some ((.!! j) <$> piles s).
Proof.
  intros Hmax ->. destruct (py_max_spec _ _ Hmax) as [Hall Hin].
  assert (Hne : (λ p, formatted p m) <$> piles s ≠ []).
  { destruct (piles s); [by apply elem_of_nil in Hin|done]. }
  assert (Hlen : Forall (λ p, length (formatted p m) = Z.to_nat m) (piles s)).
  { apply Forall_forall. intros p Hp. rewrite formatted_length.
    rewrite Forall_forall in Hall.
    specialize (Hall (CardPile.size p)). unfold CardPile.size in Hall.
    assert (Z.of_nat (length p) ≤ m); [|lia].
    apply Hall, list_elem_of_fmap. by exists p. }
  assert (Hrow : ∀ j, (j < Z.to_nat m)%nat →
            py_zip ((λ p, formatted p m) <$> piles s) !! j
            = Some ((.!! j) <$> piles s)).
  { intros j Hj. rewrite py_zip_lookup by done. apply mapM_formatted.
    eapply Forall_impl; [exact Hlen|]. simpl. intros p ->. done. }
  split; [|done].
  destruct (piles s) as [|p ps] eqn:E; [by apply elem_of_nil in Hin|].
  apply Forall_cons in Hlen as [Hp _].
  assert (Hnone : py_zip ((λ p, formatted p m) <$> p :: ps) !! Z.to_nat m
                  = None).
  { rewrite py_zip_lookup by done.
    apply (mapM_short _ _ (formatted p m)); [|lia].
    rewrite fmap_cons. apply elem_of_cons. by left. }
  apply lookup_ge_None in Hnone.
  destruct (decide (length (py_zip ((λ p, formatted p m) <$> p :: ps))
                    < Z.to_nat m)%nat) as [Hlt|]; [|lia].
  apply Hrow, lookup_lt_Some in Hlt. lia.
Qed.

(** ** Commands *)

Lemma in_range_tableau (s : Solitaire) (v : Z) :
  in_range s v = true → (Z.to_nat (v - 1) < num_piles s)%nat.
Proof. unfold in_range. intros Hv%bool_decide_eq_true. lia. Qed.

Lemma command_impl (ok ok' : Op → Prop) (g : Session) (rest : list string)
      (r : Reply unit) :
  (∀ op, ok op → ok' op) → command ok g rest r → command ok' g rest r.
Proof. intros Himpl. destruct 1; constructor; auto. Qed.

Lemma typed_op_user (s : Solitaire) (op : Op) : user_op s op → typed_op s op.
Proof.
  destruct op as [[| |u|i] [| |u'|j] n|[| |u|i]| | |]; simpl; try done.
  intuition.
Qed.

Lemma typed_op_valid (s : Solitaire) (op : Op) : typed_op s op → valid_op s op.
Proof.
  destruct op as [[| |u|i] [| |u'|j] n|[| |u|i]| | |]; simpl; try done;
    intuition.
Qed.

Lemma typed_op_num_piles (s s' : Solitaire) (op : Op) :
  num_piles s' = num_piles s → typed_op s op → typed_op s' op.
Proof.
  intros E.
  destruct op as [[| |u|i] [| |u'|j] n|[| |u|i]| | |]; simpl; try done;
    by rewrite E.
Qed.

(** *** The history after a call *)

Lemma undo_history (s : Solitaire) :
  length (history (state_of (undo s))) = pred (length (history s)).
Proof.
  unfold undo. destruct (py_pop (history s)) as [[e h]|] eqn:E.
  - apply py_pop_Some in E.
    assert (pred (length (history s)) = length h) as ->.
    { rewrite E, length_app. simpl. lia. }
    cbv zeta. set (s1 := set_history s h).
    assert (history s1 = h) as Hh by done.
    destruct e as [|o d n hid].
    + destruct (CardPile.is_empty (waste s1)).
      * destruct (CardPile.cut (stock s1) (CardPile.size (stock s1)))
          as [cut_items rest'].
        cbn [state_of]. by rewrite !history_set_pile, Hh.
      * destruct (CardPile.remove_top (waste s1)) as [[c rest']|];
          cbn [state_of]; by rewrite ?history_set_pile, Hh.
    + destruct (if hid then _ else _) as [p|]; cbn [state_of];
        [|by rewrite Hh].
      by rewrite history_transfer, history_set_pile, Hh.
  - apply py_pop_None in E. cbn [state_of]. by rewrite E.
Qed.


Section command_facts.
Context `{!PyStr}.
Implicit Types (g : Session) (rest lines : list string).

Lemma between_piles_command g rest (pile1 pile2 : string) :
  command (user_op (game g)) g rest (between_piles g rest pile1 pile2).
Proof.
  unfold between_piles.
  destruct (py_int pile1) as [v1|]; [|by apply command_fail].
  destruct (in_range (game g) v1) eqn:H1; [|by apply command_fail].
  destruct (py_int pile2) as [v2|]; [|by apply command_fail].
  destruct (in_range (game g) v2) eqn:H2; [|by apply command_fail].
  apply (command_call _ _ _ (OMove (tableau v1) (tableau v2) 1)).
  simpl. auto using in_range_tableau with lia.
Qed.

Lemma pile_to_foundation_command g rest (pile1 pile2 : string) :
  command (user_op (game g)) g rest (pile_to_foundation g rest pile1 pile2).
Proof.
  unfold pile_to_foundation.
  case_bool_decide; [|apply between_piles_command].
  destruct (py_int pile1) as [v1|]; [|by apply command_fail].
  destruct (in_range (game g) v1) eqn:H1; [|apply between_piles_command].
  apply (command_call _ _ _ (OMoveToFoundation (tableau v1))).
  simpl. auto using in_range_tableau.
Qed.

Lemma from_waste_command g rest (pile1 pile2 : string) :
  command (user_op (game g)) g rest (from_waste g rest pile1 pile2).
Proof.
  unfold from_waste.
  destruct (bool_decide (pile1 = "w") && bool_decide (pile2 = "f")).
  { by apply (command_call _ _ _ (OMoveToFoundation Waste)). }
  case_bool_decide; [|apply pile_to_foundation_command].
  destruct (py_int pile2) as [v2|]; [|by apply command_fail].
  destruct (in_range (game g) v2) eqn:H2;
    [|apply pile_to_foundation_command].
  apply (command_call _ _ _ (OMove Waste (tableau v2) 1)).
  simpl. auto using in_range_tableau.
Qed.

Lemma from_foundation_command g rest (pile1 pile2 : string) :
  command (user_op (game g)) g rest (from_foundation g rest pile1 pile2).
Proof.
  unfold from_foundation.
  destruct (String.prefix "f" pile1); [|apply from_waste_command].
  destruct (py_int pile2) as [v2|]; [|by apply command_fail].
  destruct (in_range (game g) v2) eqn:H2; [|apply from_waste_command].
  destruct (py_int (py_tail pile1)) as [n|]; [|by apply command_fail].
  destruct (py_index all_suits (n - 1)) as [u|]; [|by apply command_fail].
  case_bool_decide; [|by apply command_fail].
  apply (command_call _ _ _ (OMove (Foundation u) (tableau v2) 1)).
  simpl. auto using in_range_tableau.
Qed.

Lemma move_command_command g rest (pile1 : string) :
  ∃ k, (k ≤ 2)%nat
    ∧ command (λ op, typed_op (game g) op
                     ∧ ((∀ v, py_int (py_tail pile1) = Some v → 1 ≤ v) →
                        user_op (game g) op))
              g (drop k rest) (move_command g rest pile1).
Proof.
  unfold move_command.
  destruct (py_int (py_tail pile1)) as [n|];
    [|exists 0%nat; split; [lia|by apply command_fail]].
  destruct rest as [|line1 rest];
    [exists 0%nat; split; [lia|by apply command_fail]|].
  destruct (py_int line1) as [v1|];
    [|exists 1%nat; split; [lia|by apply command_fail]].
  destruct rest as [|line2 rest];
    [exists 1%nat; split; [lia|by apply command_fail]|].
  exists 2%nat. split; [lia|]. simpl.
  destruct (py_int line2) as [v2|]; [|by apply command_fail].
  destruct (in_range (game g) v1) eqn:H1; [|apply command_none].
  destruct (in_range (game g) v2) eqn:H2; [|apply command_none].
  apply (command_call _ _ _ (OMove (tableau v1) (tableau v2) n)).
  simpl. split; [auto using in_range_tableau|].
  intros Hn. specialize (Hn n eq_refl). auto using in_range_tableau.
Qed.

Lemma process_input_command g lines :
  ∃ k, (1 ≤ k ≤ 3)%nat
    ∧ command (λ op, typed_op (game g) op
                     ∧ (Forall positive_count (take 1 lines) →
                        user_op (game g) op))
              g (drop k lines) (process_input g lines).
Proof.
  destruct lines as [|line rest].
  { exists 1%nat. split; [lia|]. by apply command_fail. }
  unfold process_input. cbv zeta.
  case_bool_decide.
  { exists 1%nat. split; [lia|]. apply command_state. by left. }
  case_bool_decide.
  { exists 1%nat. split; [lia|]. apply command_state. by right. }
  destruct (String.prefix "i" (strip_lower line)).
  { destruct rest as [|line' rest].
    - exists 1%nat. split; [lia|]. by apply command_fail.
    - exists 2%nat. split; [lia|]. by apply command_fail. }
  case_bool_decide.
  { exists 1%nat. split; [lia|].
    by apply (command_call _ _ _ ODrawCommand). }
  destruct (bool_decide (strip_lower line = "u")
            || bool_decide (strip_lower line = "z")).
  { exists 1%nat. split; [lia|]. by apply (command_call _ _ _ OUndo). }
  destruct (String.prefix "m" (strip_lower line)) eqn:Hm.
  { destruct (move_command_command g rest (strip_lower line))
      as (k & Hk & Hc).
    exists (S k). split; [lia|]. simpl.
    eapply command_impl; [|exact Hc]. simpl. intros op [Ht Hu].
    split; [done|]. intros Hpos. apply Hu.
    apply Forall_cons in Hpos as [Hpos _]. by apply Hpos. }
  destruct (negb (String.prefix "f" (strip_lower line))
            && negb (isdigit (strip_lower line))
            && negb (bool_decide (strip_lower line = "w"))).
  { exists 1%nat. split; [lia|]. by apply command_fail. }
  destruct rest as [|line2 rest].
  { exists 1%nat. split; [lia|]. by apply command_fail. }
  exists 2%nat. split; [lia|]. simpl.
  destruct (negb (isdigit (strip_lower line2))
            && negb (bool_decide (strip_lower line2 = "f"))).
  { by apply command_fail. }
  eapply command_impl; [|apply from_foundation_command].
  simpl. auto using typed_op_user.
Qed.

(** *** One round *)

Lemma tableau_rows_None (s : Solitaire) :
  tableau_rows s = None ↔ piles s = [].
Proof.
  unfold tableau_rows. destruct (piles s); simpl; [done|]. by split.
Qed.

Lemma game_count_move (n : nat) g : game (count_move n g) = game g.
Proof. unfold count_move. by case_bool_decide. Qed.

Lemma game_state_count_move (n : nat) g :
  game_state (count_move n g) = game_state g.
Proof. unfold count_move. by case_bool_decide. Qed.


(** What a round that returns has done: [g1] is the session as
    [process_input] left it. *)
Lemma play_round_done g lines g' rest :
  play_round g lines = Done () g' rest →
  piles (game g) ≠ []
  ∧ (∃ k, (1 ≤ k ≤ 3)%nat ∧ rest = drop k lines)
  ∧ (length rest < length lines)%nat
  ∧ ∃ g1, g' = count_move (length (history (game g))) g1
      ∧ (g1 = g
         ∨ (∃ v, (v = RESET ∨ v = QUIT) ∧ g1 = set_game_state g v)
         ∨ ∃ op, typed_op (game g) op
             ∧ (Forall positive_count (take 1 lines) → user_op (game g) op)
             ∧ g1 = set_game g (state_of (step (game g) op))).
Proof.
  unfold play_round. cbv zeta.
  destruct (tableau_rows (game g)) as [rows|] eqn:Hrows; [|done].
  assert (piles (game g) ≠ []) as Hne.
  { intros E%tableau_rows_None. by rewrite E in Hrows. }
  destruct lines as [|line lines]; [done|].
  destruct (process_input_command g (line :: lines)) as (k & Hk & Hc).
  assert (length (drop k (line :: lines)) < length (line :: lines))%nat
    as Hlen.
  { rewrite length_drop. simpl. lia. }
  intros Hdone. split; [done|].
  destruct Hc as [v Hv| |e He|op [Hop Hpos]].
  - injection Hdone as <- <-. split; [by exists k|]. split; [done|].
    eexists. split; [done|]. right. left. by exists v.
  - injection Hdone as <- <-. split; [by exists k|]. split; [done|].
    eexists. split; [done|]. by left.
  - destruct e; try done; injection Hdone as <- <-;
      (split; [by exists k|]); (split; [done|]);
      eexists; (split; [done|]); by left.
  - destruct (step (game g) op) as [v s|e s] eqn:Hstep; simpl in Hdone;
      injection Hdone as <- <-;
      (split; [by exists k|]); (split; [done|]);
      eexists; (split; [done|]); right; right; exists op;
      by rewrite Hstep.
Qed.

(** A round raises in a game without tableau piles, where [display]
    cannot tell the longest pile, and at the end of the input. *)
Lemma play_round_fail g lines e g' rest :
  play_round g lines = Fail e g' rest →
  g' = g
  ∧ ((e = ValueError ∧ piles (game g) = [] ∧ rest = lines)
     ∨ (e = EOFError ∧ piles (game g) ≠ [] ∧ rest = [])).
Proof.
  unfold play_round. cbv zeta.
  destruct (tableau_rows (game g)) as [rows|] eqn:Hrows.
  - assert (piles (game g) ≠ []) as Hne.
    { intros E%tableau_rows_None. by rewrite E in Hrows. }
    destruct (process_input_command g lines) as (k & Hk & Hc).
    intros Hfail. destruct Hc as [v Hv| |e' He|op [Hop Hpos]]; try done.
    + destruct e'; try done. injection Hfail as <- <- <-.
      split; [done|]. right. by rewrite He.
    + by destruct (step (game g) op).
  - intros [= <- <- <-]. apply tableau_rows_None in Hrows. auto.
Qed.

(** *** The loop of rounds *)

Lemma play_loop_invariant (P : Session → list string → Prop)
      (fuel : nat) g lines (r : Reply unit) :
  (∀ g lines g' rest,
     P g lines → play_round g lines = Done () g' rest → P g' rest) →
  (∀ g lines e g' rest,
     P g lines → play_round g lines = Fail e g' rest → P g' rest) →
  P g lines → play_loop fuel g lines = Some r →
  P (session_of r) (rest_of r).
Proof.
  intros Hdone Hfail. revert g lines.
  induction fuel as [|fuel IH]; intros g lines HP; [done|]. simpl.
  destruct (negb (is_complete (game g))
            && bool_decide (game_state g = DEFAULT)).
  - destruct (play_round g lines) as [[] g' rest|e g' rest] eqn:Hr.
    + apply IH. by eapply Hdone.
    + intros [= <-]. simpl. by eapply Hfail.
  - by intros [= <-].
Qed.

Lemma play_loop_terminates (fuel : nat) g lines :
  (length lines < fuel)%nat → is_Some (play_loop fuel g lines).
Proof.
  revert g lines. induction fuel as [|fuel IH]; intros g lines Hf; [lia|].
  simpl.
  destruct (negb (is_complete (game g))
            && bool_decide (game_state g = DEFAULT)); [|done].
  destruct (play_round g lines) as [[] g' rest|e g' rest] eqn:Hr; [|done].
  apply IH. apply play_round_done in Hr as (_ & _ & Hlen & _). lia.
Qed.

(** How the loop ends: the game is complete or has been left; or the
    round raised. *)
Lemma play_loop_end (fuel : nat) g lines (r : Reply unit) :
  play_loop fuel g lines = Some r →
  match r with
  | Done _ g' _ => is_complete (game g') = true ∨ game_state g' ≠ DEFAULT
  | Fail e g' rest =>
      is_complete (game g') = false ∧ game_state g' = DEFAULT
      ∧ ((e = ValueError ∧ piles (game g') = [])
         ∨ (e = EOFError ∧ piles (game g') ≠ [] ∧ rest = []))
  end.
Proof.
  revert g lines. induction fuel as [|fuel IH]; intros g lines; [done|].
  simpl.
  destruct (is_complete (game g)) eqn:Hc; simpl.
  { intros [= <-]. by left. }
  case_bool_decide as Hs; simpl.
  - destruct (play_round g lines) as [[] g' rest|e g' rest] eqn:Hr.
    + apply IH.
    + intros [= <-]. apply play_round_fail in Hr as [-> Hr].
      repeat split; try done. destruct Hr as [(-> & ? & _)|(-> & ? & ->)]; auto.
  - intros [= <-]. by right.
Qed.

(** *** What the rounds keep *)

Lemma command_rest (ok : Op → Prop) g rest (r : Reply unit) :
  command ok g rest r →
  rest_of r = rest ∧ move_number (session_of r) = move_number g.
Proof. destruct 1; try done. by destruct (step (game g) op). Qed.

Lemma keeps_round (s0 : Solitaire) g lines :
  keeps s0 (game g) → keeps s0 (game (session_of (play_round g lines))).
Proof.
  intros Hk. destruct (play_round g lines) as [[] g' rest|e g' rest] eqn:Hr.
  - apply play_round_done in Hr as (_ & _ & _ & g1 & -> & Hg1). simpl.
    rewrite game_count_move.
    destruct Hg1 as [->|[(v & _ & ->)|(op & Hop & _ & ->)]]; try done.
    simpl. apply keeps_step; [done|]. apply typed_op_valid.
    apply (typed_op_num_piles (game g)); [|done]. by destruct Hk as [-> _].
  - by apply play_round_fail in Hr as [-> _].
Qed.

Lemma played_round (s0 : Solitaire) g lines g' rest :
  history s0 = [] → played s0 (game g) → Forall positive_count lines →
  play_round g lines = Done () g' rest →
  played s0 (game g').
Proof.
  intros H0 Hp Hpos Hr.
  apply play_round_done in Hr as (_ & _ & _ & g1 & -> & Hg1).
  rewrite game_count_move.
  destruct Hg1 as [->|[(v & _ & ->)|(op & _ & Hop & ->)]]; try done.
  simpl. apply played_closed; try done. by apply Hop, Forall_take.
Qed.

Lemma game_state_round g lines :
  game_state g ≠ WIN → game_state (session_of (play_round g lines)) ≠ WIN.
Proof.
  intros Hs. destruct (play_round g lines) as [[] g' rest|e g' rest] eqn:Hr.
  - apply play_round_done in Hr as (_ & _ & _ & g1 & -> & Hg1). simpl.
    rewrite game_state_count_move.
    destruct Hg1 as [->|[(v & Hv & ->)|(op & _ & _ & ->)]]; try done.
    simpl. by destruct Hv as [-> | ->].
  - by apply play_round_fail in Hr as [-> _].
Qed.


(** *** Play from a fresh deal *)

Lemma played_won (m : Z) (shuffled : list Card) (s0 s : Solitaire) :
  shuffled ≡ₚ new_deck m → init m shuffled = Some s0 →
  played s0 s → is_complete s = true → won m s.
Proof.
  intros Hp Hi Hpl (Hst & Hwa & Hf)%is_complete_true.
  split.
  { apply (played_tidy s0); [|done].
    eapply tidy_init; [|done]. by eapply shuffled_face_down. }
  repeat split; try done.
  apply played_keeps in Hpl as (_ & Hk & _);
    [|by apply init_state in Hi as [_ ->]].
  apply init_spec in Hi as (Hc & _). by rewrite Hk, Hc, Hp.
Qed.

(** A game dealt without a tableau pile has no card, and is complete. *)
Lemma no_piles_complete (m : Z) (shuffled : list Card) (s0 s : Solitaire) :
  shuffled ≡ₚ new_deck m → init m shuffled = Some s0 →
  played s0 s → piles s = [] → is_complete s = true.
Proof.
  intros Hp Hi Hpl Hnil.
  pose proof (init_spec _ _ _ Hi) as (Hc & Hn & _ & H0 & _).
  pose proof (played_fixed _ _ Hpl) as [Hn' _].
  apply played_keeps in Hpl as (_ & Hk & _); [|done].
  assert (init m shuffled ≠ None) as Hsome by (by rewrite Hi).
  unfold init in Hsome. case_bool_decide as Hm; [done|].
  assert (num_piles s = 0%nat) as Hz by (unfold num_piles; by rewrite Hnil).
  assert (Z.sqrt (4 * m) = 0) as Hsq.
  { pose proof (Z.sqrt_nonneg (4 * m)). lia. }
  assert (4 * m < 1) as Hlt.
  { destruct (Z.sqrt_spec (4 * m)) as [_ Hs]; [lia|]. rewrite Hsq in Hs. lia. }
  assert (all_cards s = []) as Hall.
  { apply length_zero_iff_nil.
    apply Permutation_length in Hk, Hc, Hp. unfold card_ids in Hk, Hc.
    rewrite !length_fmap in Hk, Hc. rewrite length_new_deck in Hp. lia. }
  unfold all_cards in Hall.
  apply app_eq_nil in Hall as [Hst Hall].
  apply app_eq_nil in Hall as [Hwa _].
  unfold is_complete. by rewrite Hst, Hwa, Hnil.
Qed.

End command_facts.

(** * Further results *)

(** ** The deal *)

(** X1. The layout [__init__] leaves, for any top rank and any deck on
    which it does not raise: [floor(sqrt(4 * max_rank))] tableau piles;
    pile number [i] (from 0) holds [i + 1] cards, popped from the end of
    the deck after the cards of the piles before it, its top card turned
    face up and the cards under it as they were in the deck; the stock
    holds the cards left at the front of the deck, in their order and
    face up; waste, foundations and history are empty. *)
Theorem init_layout (m : Z) (shuffled : list Card) (s : Solitaire) :
  init m shuffled = Some s →
  let n := Z.to_nat (Z.sqrt (4 * m)) in
  num_piles s = n ∧ max_rank s = m
  ∧ waste s = [] ∧ foundations s = empty_foundations ∧ history s = []
  ∧ stock s
    = set_hidden false <$> take (length shuffled - triangle n) shuffled
  ∧ ∀ i, (i < n)%nat →
         ∃ c, reverse shuffled !! (triangle i + i)%nat = Some c
              ∧ pile s (Tableau i)
                = take i (drop (triangle i) (reverse shuffled))
                  ++ [set_hidden false c].
Proof.
  intros [Hle ->]%init_state. cbv zeta. unfold num_piles. simpl.
  rewrite length_fmap, length_seq. repeat split; try done.
  intros i Hi.
  destruct (dealt_pile_snoc shuffled i) as (c & Hc & E).
  { pose proof (triangle_le (S i) _ Hi). lia. }
  exists c. split; [done|].
  by rewrite list_lookup_fmap, lookup_seq_lt.
Qed.

Lemma init_layout_witness :
  num_piles fresh = 7%nat
  ∧ stock fresh = set_hidden false <$> take 24 deck1
  ∧ pile fresh (Tableau 1) = [mkCard 13 SPADES true; mkCard 2 HEARTS false].
Proof.
  destruct (init_layout 13 deck1 fresh fresh_dealt)
    as (H1 & _ & _ & _ & _ & H2 & H3).
  split; [exact H1|]. split; [exact H2|].
  destruct (H3 1%nat) as (c & Hc & ->); [vm_compute; lia|].
  vm_compute in Hc. by injection Hc as <-.
Defined.

(** ** Undo *)

(** X2. [undo] with an empty history changes nothing. With a history it
    always removes the last entry, and it raises [IndexError] in one case
    only: the entry is a move that recorded a hidden card and the origin
    pile holds no card now; then the entry is gone and no pile has
    changed. *)
Theorem undo_entry (s : Solitaire) :
  (history s = [] → undo s = Return PyNone s)
  ∧ (∀ h e, history s = h ++ [e] →
       history (state_of (undo s)) = h
       ∧ (raised (undo s) = true ↔
          ∃ o d n, e = HMove o d n true ∧ pile s o = [])
       ∧ (raised (undo s) = true → state_of (undo s) = set_history s h)).
Proof.
  split; [intros E; unfold undo; by rewrite E|].
  intros h e E. unfold undo. rewrite E, py_pop_snoc.
  set (s1 := set_history s h). destruct e as [|o d n hid].
  - destruct (CardPile.is_empty (waste s1)) eqn:Hw.
    + destruct (CardPile.cut (stock s1) (CardPile.size (stock s1))).
      simpl. repeat split; try done. by intros (? & ? & ? & ? & _).
    + apply CardPileFacts.is_empty_false in Hw.
      destruct (snoc_cases (waste s1)) as [?|(r & c & Ew)]; [done|].
      rewrite Ew, CardPileFacts.remove_top_snoc. simpl.
      repeat split; try done. by intros (? & ? & ? & ? & _).
  - assert (pile s1 o = pile s o) as Hp by apply pile_set_history.
    destruct hid.
    + destruct (snoc_cases (pile s o)) as [Eo|(r & c & Eo)].
      * rewrite Hp, Eo. simpl. repeat split; try done. intros _. by exists o, d, n.
      * rewrite Hp, Eo, CardPileFacts.set_top_hidden_snoc. simpl.
        rewrite history_transfer, history_set_pile.
        repeat split; try done.
        intros (o' & d' & n' & [= <- _ _] & Eo'). rewrite Eo in Eo'.
        by destruct r.
    + simpl. rewrite history_transfer, history_set_pile.
      repeat split; try done. by intros (? & ? & ? & ? & _).
Qed.

Lemma undo_entry_witness :
  let s := mkSolitaire [] [] empty_foundations 13 [[]; [mkCard 5 HEARTS false]]
             [HDraw; HMove (Tableau 0) (Tableau 1) 1 true] in
  history (state_of (undo s)) = [HDraw] ∧ raised (undo s) = true.
Proof.
  intros s.
  destruct (proj2 (undo_entry s) [HDraw] (HMove (Tableau 0) (Tableau 1) 1 true))
    as (H1 & H2 & _); [done|].
  split; [exact H1|]. apply H2. by exists (Tableau 0), (Tableau 1), 1.
Defined.

(** X3. Undo at any depth. From a state with an empty history (a fresh
    deal), after any sequence of operations of the player (moves with a
    number of cards of 1 or more, moves to the foundation, draw commands
    and undos; accepted or refused), as many undos as the history has
    entries bring back the first state exactly: every pile, every flag,
    the empty history. *)
Theorem undo_all (s0 : Solitaire) (ops : list Op) :
  history s0 = [] →
  Forall (user_op s0) ops →
  run (run s0 ops) (replicate (length (history (run s0 ops))) OUndo) = s0.
Proof. intros H0 Hops. by apply undo_all_played, played_run. Qed.

Lemma undo_all_witness :
  let ops := [OMoveToFoundation (Tableau 0); ODrawCommand;
              OMove (Tableau 5) (Tableau 4) 1; OUndo;
              OMove (Tableau 1) (Tableau 0) 2;
              OMove (Tableau 2) (Tableau 1) 1] in
  length (history (run fresh ops)) = 3%nat
  ∧ run (run fresh ops) [OUndo; OUndo; OUndo] = fresh.
Proof.
  intros ops. split; [by vm_compute|].
  apply (undo_all fresh ops); [by vm_compute|].
  unfold ops.
  repeat (apply Forall_cons; split;
          [vm_compute; repeat split; (lia || done)|]).
  by apply Forall_nil.
Defined.

(** ** Moves to the foundation *)

(** X4. [move_to_foundation] never raises, whatever the pile. On an empty
    pile it returns [None]; it returns [True] exactly when the call is
    accepted; and a call that is not accepted leaves the state as it
    was. *)
Theorem move_to_foundation_returns (s : Solitaire) (p : PileRef) :
  raised (move_to_foundation s p) = false
  ∧ (pile s p = [] → move_to_foundation s p = Return PyNone s)
  ∧ (accepts s (move_to_foundation s p) = true ↔
     ∃ s', move_to_foundation s p = Return PyTrue s')
  ∧ (accepts s (move_to_foundation s p) = false →
     state_of (move_to_foundation s p) = s).
Proof.
  destruct (move_to_foundation_outcome s p)
    as [[E H]|[[E H]|(r & c & E & H)]]; rewrite H.
  - rewrite accepts_same. repeat split; try done. by intros [? ?].
  - rewrite accepts_same. repeat split; try done. by intros [? ?].
  - rewrite record_move_eq, <-record_move_eq.
    rewrite accepts_record_move by apply history_relocate.
    rewrite record_move_eq. simpl. repeat split; try done.
    + rewrite E. by destruct r.
    + intros _. by eexists.
Qed.

Lemma move_to_foundation_returns_witness :
  move_to_foundation fresh (Foundation HEARTS) = Return PyNone fresh
  ∧ state_of (move_to_foundation fresh (Tableau 1)) = fresh.
Proof.
  split.
  - apply (proj1 (proj2 (move_to_foundation_returns fresh (Foundation HEARTS)))).
    by vm_compute.
  - apply (proj2 (proj2 (proj2
             (move_to_foundation_returns fresh (Tableau 1))))).
    by vm_compute.
Defined.

(** ** The order of the piles in play *)

Ltac solve_user_ops :=
  repeat (apply Forall_cons; split;
          [vm_compute; repeat split; (lia || done)|]);
  by apply Forall_nil.

(** X5. Foundations are built in order. In a game dealt from a shuffle of
    the deck, after any sequence of operations of the player (moves with a
    number of cards of 1 or more, moves to the foundation, draw commands,
    undos), every foundation holds, from the bottom up, the cards of rank
    1, 2, 3, ... of its own suit, face up, without a gap. *)
Theorem foundations_in_order (m : Z) (shuffled : list Card) (s0 : Solitaire)
        (ops : list Op) :
  shuffled ≡ₚ new_deck m →
  init m shuffled = Some s0 →
  Forall (user_op s0) ops →
  ∀ u, pile (run s0 ops) (Foundation u)
       = (λ r, mkCard r u false)
           <$> seqZ 1 (CardPile.size (pile (run s0 ops) (Foundation u))).
Proof.
  intros Hp Hi Hops u.
  apply (dealt_tidy m shuffled s0 ops Hp Hi Hops (Foundation u)).
Qed.

Lemma foundations_in_order_witness :
  pile (run fresh [OMoveToFoundation (Tableau 0); ODrawCommand; OUndo])
       (Foundation CLUBS)
  = [mkCard 1 CLUBS false].
Proof.
  rewrite (foundations_in_order 13 deck1 fresh
             [OMoveToFoundation (Tableau 0); ODrawCommand; OUndo]
             deck1_shuffled fresh_dealt ltac:(solve_user_ops) CLUBS).
  by vm_compute.
Defined.

(** X6. Tableau piles are built in order. In a game dealt from a shuffle
    of the deck, after any sequence of operations of the player (as in
    X5), every tableau pile consists of face-down cards under a run of
    face-up cards in which each card lies on a card of the other colour
    and of the next higher rank; a pile that holds a card has a face-up
    top card. *)
Theorem tableau_in_order (m : Z) (shuffled : list Card) (s0 : Solitaire)
        (ops : list Op) :
  shuffled ≡ₚ new_deck m →
  init m shuffled = Some s0 →
  Forall (user_op s0) ops →
  ∀ i, ∃ down up,
    pile (run s0 ops) (Tableau i) = down ++ up
    ∧ face_down down ∧ face_up up ∧ chain up
    ∧ (pile (run s0 ops) (Tableau i) ≠ [] → up ≠ []).
Proof.
  intros Hp Hi Hops i.
  apply (dealt_tidy m shuffled s0 ops Hp Hi Hops (Tableau i)).
Qed.

Lemma tableau_in_order_witness :
  ∃ down up,
    pile (run fresh [OMove (Tableau 5) (Tableau 4) 1;
                     OMove (Tableau 4) (Tableau 3) 2]) (Tableau 3)
    = down ++ up
    ∧ face_down down ∧ face_up up ∧ chain up.
Proof.
  destruct (tableau_in_order 13 deck1 fresh
              [OMove (Tableau 5) (Tableau 4) 1;
               OMove (Tableau 4) (Tableau 3) 2]
              deck1_shuffled fresh_dealt ltac:(solve_user_ops) 3%nat)
    as (down & up & H1 & H2 & H3 & H4 & _).
  exists down, up. exact (conj H1 (conj H2 (conj H3 H4))).
Defined.

(** X7. Face-down cards live on the tableau only. In a game dealt from a
    shuffle of the deck, after any sequence of operations of the player
    (as in X5), every card of the stock and of the waste is face up: no
    undo hides a card of the waste, and [draw] only ever moves face-up
    cards. *)
Theorem stock_waste_face_up (m : Z) (shuffled : list Card) (s0 : Solitaire)
        (ops : list Op) :
  shuffled ≡ₚ new_deck m →
  init m shuffled = Some s0 →
  Forall (user_op s0) ops →
  face_up (stock (run s0 ops)) ∧ face_up (waste (run s0 ops)).
Proof.
  intros Hp Hi Hops.
  pose proof (dealt_tidy m shuffled s0 ops Hp Hi Hops) as Ht.
  split; [apply (Ht Stock)|apply (Ht Waste)].
Qed.

Lemma stock_waste_face_up_witness :
  face_up (waste (run fresh [ODrawCommand; ODrawCommand;
                             OMove Waste (Tableau 6) 1; OUndo])).
Proof.
  apply (stock_waste_face_up 13 deck1 fresh
           [ODrawCommand; ODrawCommand; OMove Waste (Tableau 6) 1; OUndo]
           deck1_shuffled fresh_dealt ltac:(solve_user_ops)).
Defined.

(** ** The end of a won game *)

(** X8. The loop that clears the tableau of a won game ends. In a game
    dealt from a shuffle of the deck and played by operations of the
    player (as in X5) until [is_complete] holds, the loop of lines 395-399
    stops after at most [4 * max_rank] passes, whatever larger number of
    passes it is allowed; it then leaves stock, waste and tableau empty
    and, on every foundation, the whole suit from rank 1 to [max_rank],
    face up and in order. *)
Theorem win_finalization (m : Z) (shuffled : list Card) (s0 : Solitaire)
        (ops : list Op) :
  shuffled ≡ₚ new_deck m →
  init m shuffled = Some s0 →
  Forall (user_op s0) ops →
  is_complete (run s0 ops) = true →
  ∃ s', (∀ fuel, (Z.to_nat (4 * m) < fuel)%nat →
                 finalize fuel (run s0 ops) = Some s')
        ∧ stock s' = [] ∧ waste s' = [] ∧ Forall (.= []) (piles s')
        ∧ ∀ u, pile s' (Foundation u) = (λ r, mkCard r u false) <$> seqZ 1 m.
Proof.
  intros Hp Hi Hops Hc.
  pose proof (dealt_won m shuffled s0 ops Hp Hi Hops Hc) as Hw.
  assert (length (all_cards (run s0 ops)) = Z.to_nat (4 * m)) as Hlen.
  { destruct Hw as (_ & _ & _ & _ & Hids).
    apply Permutation_length in Hids. unfold card_ids in Hids.
    by rewrite !length_fmap, length_new_deck in Hids. }
  destruct (finalize_terminates m (S (Z.to_nat (4 * m))) (run s0 ops) Hw)
    as (s' & Hf & Hw' & He); [lia|].
  exists s'. split.
  - intros fuel Hfuel. eapply finalize_more_fuel; [done|lia].
  - pose proof Hw' as (_ & Hst & Hwa & _). repeat split; try done.
    intros u. by apply (won_cleared m).
Qed.

Lemma win_finalization_witness :
  ∃ s', finalize 5 (run aces aces_ops) = Some s'
        ∧ pile s' (Foundation HEARTS) = [mkCard 1 HEARTS false].
Proof.
  destruct (win_finalization 1 (new_deck 1) aces aces_ops)
    as (s' & Hf & _ & _ & _ & Hu);
    [done|by vm_compute|unfold aces_ops; solve_user_ops|by vm_compute|].
  exists s'. split; [apply Hf; vm_compute; lia|apply Hu].
Defined.

(** ** The tableau on the screen *)

(** X9. [formatted] never drops a card: the result holds the cards of the
    pile in their order, then empty strings up to [padding] items. Its
    length is the larger of the size of the pile and of [padding], so the
    list has the fixed size [padding] only for a pile that is not larger. *)
Theorem formatted_pads (p : CardPile.t) (padding : Z) (j : nat) :
  length (formatted p padding) = (length p `max` Z.to_nat padding)%nat
  ∧ formatted p padding !! j
    = if bool_decide (j < length p `max` Z.to_nat padding)%nat
      then Some (p !! j) else None.
Proof.
  split; [apply formatted_length|]. case_bool_decide as Hj.
  - apply formatted_lookup. by rewrite formatted_length.
  - apply lookup_ge_None_2. rewrite formatted_length. lia.
Qed.

(** X10. The rows of the tableau on the screen. In a game with a tableau
    pile, [display] prints as many rows as the longest pile has cards, and
    row [j] holds, pile after pile, the card number [j] from the bottom of
    the pile, or the empty string where the pile is shorter: every card
    of the tableau is shown, in its pile and at its depth. *)
Theorem tableau_rows_spec (s : Solitaire) :
  piles s ≠ [] →
  ∃ rows, tableau_rows s = Some rows
    ∧ Forall (λ p, (length p ≤ length rows)%nat) (piles s)
    ∧ (∃ p, p ∈ piles s ∧ length p = length rows)
    ∧ ∀ j, (j < length rows)%nat → rows !! j = Some ((.!! j) <$> piles s).
Proof.
  intros Hne. unfold tableau_rows.
  destruct (py_max (CardPile.size <$> piles s)) as [m|] eqn:Hmax;
    [|by destruct (piles s)].
  simpl. eexists. split; [done|].
  destruct (tableau_rows_length s _ m Hmax eq_refl) as [Hlen Hrows].
  destruct (py_max_spec _ _ Hmax) as [Hall Hin].
  rewrite Hlen. split; [|split; [|done]].
  - apply Forall_forall. intros p Hp. rewrite Forall_forall in Hall.
    specialize (Hall (CardPile.size p)). unfold CardPile.size in Hall.
    assert (Z.of_nat (length p) ≤ m); [|lia].
    apply Hall, list_elem_of_fmap. by exists p.
  - apply list_elem_of_fmap in Hin as (p & -> & Hp). exists p.
    split; [done|]. unfold CardPile.size. lia.
Qed.

Lemma tableau_rows_spec_witness :
  ∃ rows, tableau_rows fresh = Some rows
    ∧ Forall (λ p, (length p ≤ length rows)%nat) (piles fresh)
    ∧ (∃ p, p ∈ piles fresh ∧ length p = length rows)
    ∧ ∀ j, (j < length rows)%nat → rows !! j = Some ((.!! j) <$> piles fresh).
Proof. apply (tableau_rows_spec fresh). by vm_compute. Defined.

(** ** Commands *)

(** X11. What a command can do. Whatever the lines of input,
    [process_input] reads one to three of them (or what is left), leaves
    the count of the rounds alone, and does one of four things: it sets
    the state of the game to [RESET] or [QUIT]; it returns with nothing
    changed; it raises with nothing changed, [EOFError] only at the end of
    the input; or it makes one call on the engine, on piles of the game.
    That call is one of those listed in [user_op], unless the line is an
    [m] command with a number below 1. *)
Theorem process_input_effect `{!PyStr} (g : Session) (lines : list string) :
  ∃ k, (1 ≤ k ≤ 3)%nat
    ∧ rest_of (process_input g lines) = drop k lines
    ∧ move_number (session_of (process_input g lines)) = move_number g
    ∧ command (λ op, typed_op (game g) op
                     ∧ (Forall positive_count (take 1 lines) →
                        user_op (game g) op))
              g (drop k lines) (process_input g lines).
Proof.
  destruct (process_input_command g lines) as (k & Hk & Hc).
  exists k. destruct (command_rest _ _ _ _ Hc) as [Hrest Hmove]. done.
Qed.

(** X12. The rounds of [play] end on any finite input, after at most one
    round for each line and one more. They end with the game complete or
    left by [reset] or [quit]; or, the game still going, with the
    [EOFError] of [input] once every line has been read, or with the
    [ValueError] of [display] in a game without tableau piles. No other
    exception leaves the loop. *)
Theorem play_loop_ends `{!PyStr} (fuel : nat) (g : Session)
        (lines : list string) :
  (length lines < fuel)%nat →
  ∃ r, play_loop fuel g lines = Some r
    ∧ (∃ k, rest_of r = drop k lines)
    ∧ match r with
      | Done _ g' _ =>
          is_complete (game g') = true ∨ game_state g' ≠ DEFAULT
      | Fail e g' rest =>
          is_complete (game g') = false ∧ game_state g' = DEFAULT
          ∧ ((e = ValueError ∧ piles (game g') = [])
             ∨ (e = EOFError ∧ piles (game g') ≠ [] ∧ rest = []))
      end.
Proof.
  intros Hfuel.
  destruct (play_loop_terminates fuel g lines Hfuel) as [r Hr].
  exists r. split; [done|]. split; [|by eapply play_loop_end].
  apply (play_loop_invariant (λ _ rest, ∃ k, rest = drop k lines)
           fuel g lines r); [| |by exists 0%nat|done].
  - intros g1 lines1 g2 rest [k ->] (_ & (j & _ & ->) & _)%play_round_done.
    exists (k + j)%nat. by rewrite drop_drop.
  - intros g1 lines1 e g2 rest [k ->] [_ Hf]%play_round_fail.
    destruct Hf as [(_ & _ & ->)|(_ & _ & ->)]; [by exists k|].
    exists (length lines). by rewrite drop_all.
Qed.

Lemma play_loop_ends_witness :
  ∃ r, @play_loop plain_str 8 (new_session aces) aces_lines = Some r
    ∧ rest_of r = [].
Proof.
  destruct (@play_loop_ends plain_str 8 (new_session aces)
              aces_lines) as (r & Hr & _ & _); [vm_compute; lia|].
  exists r. split; [done|].
  vm_compute in Hr. by injection Hr as <-.
Defined.

(** X13. No input loses a card. In a game dealt from a shuffle of the
    deck, whatever is typed — [m] commands with numbers of zero or below
    and calls that raise among it — the game after the rounds holds the
    cards of the deck, each of them once, in the same number of tableau
    piles. *)
Theorem play_conserves `{!PyStr} (m : Z) (shuffled : list Card)
        (s0 : Solitaire) (fuel : nat) (lines : list string) :
  shuffled ≡ₚ new_deck m →
  init m shuffled = Some s0 →
  (length lines < fuel)%nat →
  ∃ r, play_loop fuel (new_session s0) lines = Some r
    ∧ card_ids (game (session_of r)) ≡ₚ card_id <$> new_deck m
    ∧ num_piles (game (session_of r)) = num_piles s0.
Proof.
  intros Hp Hi Hfuel.
  destruct (play_loop_terminates fuel (new_session s0) lines Hfuel)
    as [r Hr].
  exists r. split; [done|].
  pose proof (init_spec _ _ _ Hi) as (Hc & _ & _ & H0 & _).
  assert (keeps s0 (game (session_of r))) as (Hn & Hk & _).
  { apply (play_loop_invariant (λ g _, keeps s0 (game g))
             fuel (new_session s0) lines r); [| |by apply keeps_refl|done].
    - intros g1 lines1 g2 rest Hk Hround.
      pose proof (keeps_round s0 g1 lines1 Hk) as Hk'.
      by rewrite Hround in Hk'.
    - intros g1 lines1 e g2 rest Hk Hround.
      pose proof (keeps_round s0 g1 lines1 Hk) as Hk'.
      by rewrite Hround in Hk'. }
  split; [|done]. by rewrite Hk, Hc, Hp.
Qed.

Lemma play_conserves_witness :
  ∃ r, @play_loop plain_str 4 (new_session aces) ["m0"; "1"; "2"] = Some r
    ∧ card_ids (game (session_of r)) ≡ₚ card_id <$> new_deck 1.
Proof.
  destruct (@play_conserves plain_str 1 (new_deck 1) aces 4
              ["m0"; "1"; "2"]) as (r & Hr & Hc & _);
    [done|by vm_compute|vm_compute; lia|].
  exists r. exact (conj Hr Hc).
Defined.



(** X15. A round that takes a move back counts as a move. With a move on
    the history, the round of the command [u] (or [z]) returns, leaves the
    game as [undo] does, with one entry less on the history, and adds one
    to [move_number]. *)
Theorem undo_counts_as_move `{!PyStr} (g : Session) (line : string)
        (rest : list string) :
  piles (game g) ≠ [] →
  history (game g) ≠ [] →
  strip_lower line = "u" ∨ strip_lower line = "z" →
  ∃ g', play_round g (line :: rest) = Done () g' rest
    ∧ game g' = state_of (undo (game g))
    ∧ length (history (game g')) = pred (length (history (game g)))
    ∧ move_number g' = move_number g + 1
    ∧ game_state g' = game_state g.
Proof.
  intros Hne Hh Hline.
  assert (process_input g (line :: rest) = engine g rest (undo (game g)))
    as Hin.
  { unfold process_input. cbv zeta. by destruct Hline as [-> | ->]. }
  assert (length (history (state_of (undo (game g))))
          ≠ length (history (game g))) as Hlen.
  { rewrite undo_history. destruct (history (game g)); [done|]. simpl. lia. }
  unfold play_round. cbv zeta.
  destruct (tableau_rows (game g)) as [rows|] eqn:Hrows;
    [|by apply tableau_rows_None in Hrows].
  rewrite Hin.
  destruct (undo (game g)) as [v s|e s] eqn:Hu; simpl in *.
  - eexists. split; [done|]. unfold count_move. simpl.
    rewrite bool_decide_eq_true_2 by done. simpl.
    pose proof (undo_history (game g)) as Hl. rewrite Hu in Hl. done.
  - eexists. split; [done|]. unfold count_move. simpl.
    rewrite bool_decide_eq_true_2 by done. simpl.
    pose proof (undo_history (game g)) as Hl. rewrite Hu in Hl. done.
Qed.

Lemma undo_counts_as_move_witness :
  ∃ g', @play_round plain_str (set_game (new_session aces)
                             (state_of (draw_command aces)))
                   ["u"; "quit"]
        = Done () g' ["quit"]
    ∧ move_number g' = 2.
Proof.
  destruct (@undo_counts_as_move plain_str
              (set_game (new_session aces) (state_of (draw_command aces)))
              "u" ["quit"]) as (g' & Hr & _ & _ & Hm & _);
    [by vm_compute|by vm_compute|by left|].
  exists g'. exact (conj Hr Hm).
Defined.

(** ** A whole game *)

(** X16. [play] from the deal to the end. In a game dealt from a shuffle
    of the deck, on lines in which no [m] command has a number below 1,
    [play] ends, in one of three ways, with every pile of the game in
    order. It returns [WIN], the stock, the waste and the tableau empty
    and each foundation holding its suit from the ace to the top rank; or
    it returns [RESET] or [QUIT], as typed; or the input ends before the
    game and [input] raises [EOFError]. *)
Theorem play_deal `{!PyStr} (m : Z) (shuffled : list Card) (s0 : Solitaire)
        (fuel : nat) (lines : list string) :
  shuffled ≡ₚ new_deck m →
  init m shuffled = Some s0 →
  Forall positive_count lines →
  (length lines < fuel)%nat →
  (Z.to_nat (4 * m) < fuel)%nat →
  ∃ r, play fuel (new_session s0) lines = Some r
    ∧ tidy (game (session_of r))
    ∧ match r with
      | Done v g' _ =>
          (v = WIN
           ∧ stock (game g') = [] ∧ waste (game g') = []
           ∧ Forall (.= []) (piles (game g'))
           ∧ ∀ u, pile (game g') (Foundation u)
                  = (λ r, mkCard r u false) <$> seqZ 1 m)
          ∨ ((v = RESET ∨ v = QUIT) ∧ game_state g' = v)
      | Fail e g' rest =>
          e = EOFError ∧ rest = [] ∧ is_complete (game g') = false
      end.
Proof.
  intros Hp Hi Hpos Hfuel Hfuel'.
  destruct (play_loop_terminates fuel (new_session s0) lines Hfuel)
    as [r Hr].
  pose proof (init_spec _ _ _ Hi) as (_ & _ & _ & H0 & _).
  assert (played s0 (game (session_of r))
          ∧ Forall positive_count (rest_of r)
          ∧ game_state (session_of r) ≠ WIN) as (Hpl & _ & Hs).
  { apply (play_loop_invariant
             (λ g rest, played s0 (game g) ∧ Forall positive_count rest
                        ∧ game_state g ≠ WIN)
             fuel (new_session s0) lines r); [| | |done].
    - intros g1 lines1 g2 rest (Hpl & Hl & Hs) Hround.
      split; [by eapply played_round|]. split.
      + apply play_round_done in Hround as (_ & (k & _ & ->) & _).
        by apply Forall_drop.
      + pose proof (game_state_round g1 lines1 Hs) as Hs'.
        by rewrite Hround in Hs'.
    - intros g1 lines1 e g2 rest (Hpl & Hl & Hs) Hround.
      apply play_round_fail in Hround as [-> Hround].
      split; [done|]. split; [|done].
      destruct Hround as [(_ & _ & ->)|(_ & _ & ->)]; [done|constructor].
    - split; [apply played_start|]. by split. }
  assert (tidy (game (session_of r))) as Ht.
  { apply (played_tidy s0); [|done].
    eapply tidy_init; [|done]. by eapply shuffled_face_down. }
  pose proof (play_loop_end fuel _ lines r Hr) as Hend.
  unfold play. rewrite Hr. destruct r as [[] g' rest|e g' rest]; simpl in *.
  - case_bool_decide as Hstate.
    + eexists. split; [done|]. split; [done|]. right. split; [|done].
      destruct (game_state g'); auto; done.
    + destruct Hend as [Hc|]; [|done].
      pose proof (played_won m shuffled s0 _ Hp Hi Hpl Hc) as Hw.
      assert (length (all_cards (game g')) = Z.to_nat (4 * m)) as Hlen.
      { destruct Hw as (_ & _ & _ & _ & Hids).
        apply Permutation_length in Hids. unfold card_ids in Hids.
        by rewrite !length_fmap, length_new_deck in Hids. }
      destruct (finalize_terminates m fuel (game g') Hw)
        as (s' & Hf & Hw' & He); [lia|].
      rewrite Hf. simpl. eexists. split; [done|]. simpl.
      pose proof Hw' as (Ht' & Hst & Hwa & _).
      split; [done|]. left. repeat split; try done.
      intros u. by apply (won_cleared m).
  - eexists. split; [done|]. split; [done|].
    destruct Hend as (Hc & _ & [(_ & Hnil)|(-> & _ & ->)]); [|done].
    rewrite (no_piles_complete m shuffled s0 _ Hp Hi Hpl Hnil) in Hc. done.
Qed.

Lemma play_deal_witness :
  ∃ r, @play plain_str 8 (new_session aces) aces_lines = Some r
    ∧ tidy (game (session_of r)).
Proof.
  destruct (@play_deal plain_str 1 (new_deck 1) aces 8
              aces_lines) as (r & Hr & Ht & _);
    [done|by vm_compute| |vm_compute; lia|vm_compute; lia|].
  - unfold aces_lines.
    repeat (apply Forall_cons; split;
            [intros Hm; vm_compute in Hm; discriminate|]).
    by apply Forall_nil.
  - exists r. exact (conj Hr Ht).
Defined.
